(** * mcp-memory: dual-store memory orchestration, structured e-mail records
      and merged search

    A shallow embedding of [src/utils/email.ts], [src/utils/db.ts] and the
    REST handlers of [src/index.ts], with the properties of the
    specification stated over it.

    Conventions of the embedding.
    - A JavaScript string is the sequence of its UTF-16 code units; the
      model covers the strings whose code units are below 256, written as
      Rocq [string]s (one [ascii] per code unit).
    - [string | undefined] is [option string]; a JavaScript exception is
      the [Throw] outcome of the monad [M].
    - The bindings bag [env: Env] (D1 database, Vectorize index, Workers AI,
      console) is the record [Env], threaded through every call. Every
      call to a back end is journalled and may fail, as the environment
      decides; a failed call has changed nothing.
    - [uuidv4()] is an input of the functions that call it.
    - Not embedded: the MCP mount, the listing and single-record routes,
      the schema initialisation and its middleware, and [console.log]. *)

From Stdlib Require Import ZArith Ascii.
From stdpp Require Import base strings list gmap.

Local Open Scope string_scope.
Local Open Scope list_scope.

(** ** JavaScript string primitives used by the sources *)

Module Js.

(** [String.prototype.toLowerCase] on one code unit below 256: the ASCII
    capitals and the Latin-1 capitals U+00C0..U+00DE (except U+00D7, the
    multiplication sign) move up by 32; every other code unit is kept. *)
Definition toLowerCase_unit (c : ascii) : ascii :=
  let n := N_of_ascii c in
  if ((65 <=? n) && (n <=? 90))%N then ascii_of_N (n + 32)
  else if ((192 <=? n) && (n <=? 222) && negb (n =? 215))%N
       then ascii_of_N (n + 32)
  else c.

Fixpoint toLowerCase (s : string) : string :=
  match s with
  | EmptyString => EmptyString
  | String c r => String (toLowerCase_unit c) (toLowerCase r)
  end.

(** [s.split(sep)] for a one-character separator: never the empty array,
    [''.split('.')] is [['']]. *)
Fixpoint split (sep : ascii) (s : string) : list string :=
  match s with
  | EmptyString => [EmptyString]
  | String c r =>
      if Ascii.eqb c sep then EmptyString :: split sep r
      else match split sep r with
           | h :: t => String c h :: t
           | [] => [String c EmptyString]
           end
  end.

(** [parts.join(sep)]. *)
Fixpoint join (sep : string) (parts : list string) : string :=
  match parts with
  | [] => EmptyString
  | [p] => p
  | p :: rest => p +:+ sep +:+ join sep rest
  end.

(** White space and line terminators removed by [trim], below 256:
    TAB, LF, VT, FF, CR, SP and NBSP. *)
Definition isWhiteSpace (c : ascii) : bool :=
  let n := N_of_ascii c in
  ((9 <=? n) && (n <=? 13) || (n =? 32) || (n =? 160))%N.

Fixpoint trimStart (s : string) : string :=
  match s with
  | EmptyString => EmptyString
  | String c r => if isWhiteSpace c then trimStart r else s
  end.

Fixpoint trimEnd (s : string) : string :=
  match s with
  | EmptyString => EmptyString
  | String c r =>
      match trimEnd r with
      | EmptyString => if isWhiteSpace c then EmptyString
                       else String c EmptyString
      | r' => String c r'
      end
  end.

Definition trim (s : string) : string := trimEnd (trimStart s).

(** [hay.includes(needle)]. *)
Fixpoint includes (needle hay : string) : bool :=
  String.prefix needle hay ||
  match hay with
  | EmptyString => false
  | String _ r => includes needle r
  end.

(** Truthiness of a string: [!s] holds exactly for [undefined] and ['']. *)
Definition truthy (s : option string) : bool :=
  match s with
  | Some (String _ _) => true
  | _ => false
  end.

(** [a || b] on [string | undefined] operands. *)
Definition or_else (a b : option string) : option string :=
  if truthy a then a else b.

(** [a ?? d]: the default replaces [undefined] only. *)
Definition nullish (a : option string) (d : string) : string :=
  default d a.

End Js.

(** ** [src/utils/email.ts]: company derivation *)

(** The greedy class run [[^>]+]: the longest prefix free of ['>'] and the
    rest of the input. *)
Fixpoint bracket_free_run (s : string) : string * string :=
  match s with
  | EmptyString => (EmptyString, EmptyString)
  | String c r =>
      if Ascii.eqb c ">" then (EmptyString, s)
      else let '(d, tl) := bracket_free_run r in (String c d, tl)
  end.

(** One attempt of [/@([^>]+)>?$/] just after an ['@']: the run must be
    non-empty, then an optional ['>'], then the end of the input. Giving
    characters of the run back never helps: the character after a shorter
    run is not ['>'] and not the end. *)
Definition match_after_at (rest : string) : option string :=
  match bracket_free_run rest with
  | (EmptyString, _) => None
  | (d, EmptyString) => Some d
  | (d, String ">" EmptyString) => Some d
  | _ => None
  end.

(** [email.match(/@([^>]+)>?$/)], capture group 1: start positions are
    tried from the left, so the first ['@'] that accepts a match wins. *)
Fixpoint regex_match (email : string) : option string :=
  match email with
  | EmptyString => None
  | String c r =>
      if Ascii.eqb c "@" then
        match match_after_at r with
        | Some d => Some d
        | None => regex_match r
        end
      else regex_match r
  end.

(** [if (parts.length > 2) parts.shift(); return parts[0]]. *)
Definition first_label (parts : list string) : option string :=
  head (if decide (2 < length parts) then tail parts else parts).

Definition extractCompanyFromEmail (email : string) : option string :=
  match regex_match email with
  | None => None
  | Some m1 =>
      let domain := Js.toLowerCase m1 in
      let parts := Js.split "." domain in
      first_label parts
  end.

(** The derivation rule as the specification words it: the substring after
    the _last_ ['@'], without an optional trailing bracket, lowercased,
    split on ['.'], leading label dropped when more than two labels remain,
    first remaining label returned; absent when there is no ['@']. *)
Fixpoint after_last_at (s : string) : option string :=
  match s with
  | EmptyString => None
  | String c r =>
      match after_last_at r with
      | Some t => Some t
      | None => if Ascii.eqb c "@" then Some r else None
      end
  end.

Fixpoint strip_trailing_bracket (s : string) : string :=
  match s with
  | EmptyString => EmptyString
  | String c EmptyString => if Ascii.eqb c ">" then EmptyString else s
  | String c r => String c (strip_trailing_bracket r)
  end.

Definition company_spec (sender : string) : option string :=
  match after_last_at sender with
  | None => None
  | Some rest =>
      first_label (Js.split "." (Js.toLowerCase (strip_trailing_bracket rest)))
  end.

(** The same rule told declaratively, for comparison with the code.

    [free x s]: the character [x] does not occur in [s]. *)
Definition free (x : ascii) (s : string) : Prop :=
  ∀ a b, s ≠ a +:+ String x b.

(** The text after an ['@'] is a non-empty bracket-free domain [d],
    possibly followed by one closing bracket, and nothing else. *)
Definition accepts (rest d : string) : Prop :=
  d ≠ "" ∧ free ">" d ∧ (rest = d ∨ rest = d +:+ ">").

(** [d] is the domain after the leftmost ['@'] of [s] that accepts one. *)
Definition leftmost_domain (s d : string) : Prop :=
  ∃ pre rest,
    s = pre +:+ String "@" rest ∧ accepts rest d ∧
    ∀ pre' rest' d',
      s = pre' +:+ String "@" rest' →
      String.length pre' < String.length pre → ¬ accepts rest' d'.

(** [ls] are the labels of [domain]: dot-free pieces that, joined by dots,
    give the domain back. *)
Definition labels_of (domain : string) (ls : list string) : Prop :=
  ls ≠ [] ∧ Forall (free ".") ls ∧ Js.join "." ls = domain.

(** The second label when there are more than two, else the first. *)
Definition chosen_label (ls : list string) (c : string) : Prop :=
  if decide (2 < length ls) then ls !! 1 = Some c else ls !! 0 = Some c.

Definition derives (sender c : string) : Prop :=
  ∃ d ls, leftmost_domain sender d ∧ labels_of (Js.toLowerCase d) ls
          ∧ chosen_label ls c.

(** ** Rows, index entries and the bindings bag *)

(** A row of table [memories]. *)
Record MemoryRow := {
  m_id : string;
  m_userId : string;
  m_content : string;
  m_created_at : string;
}.

(** [interface EmailRecord]: a row of table [emails] as [SELECT *] returns
    it. The sources only ever insert strings in every column. *)
Record EmailRecord := {
  r_id : string;
  r_userId : string;
  r_memoryId : string;
  r_sender : string;
  r_recipients : string;
  r_subject : string;
  r_date : string;
  r_company : string;
  r_messageId : string;
  r_inReplyTo : string;
  r_created_at : string;
}.

(** [interface EmailData], the payload of a structured create. *)
Record EmailData := {
  subject : string;
  body : string;
  sender : string;
  recipients : option (list string);
  date : option string;
  company : option string;
  messageId : option string;
  inReplyTo : option string;
}.

(** An entry of the Vectorize index. The vector itself is opaque to the
    sources; the entry records the text whose embedding it holds. *)
Record IndexEntry := {
  v_id : string;
  v_namespace : string;
  v_text : string;
  v_metadata : list (string * string);
}.

(** One ranked hit [{id, score}] of [searchMemories]. Scores are only ever
    copied, never computed with, so an integer stands for the number. *)
Record VectorMatch := {
  vm_id : string;
  vm_score : Z;
}.

Record D1Database := {
  memories : list MemoryRow;
  emails : list EmailRecord;
}.

(** The prepared statements of the sources, with their bound values. *)
Inductive Statement :=
| InsertMemory (id userId content : string)
| DeleteMemory (id userId : string)
| UpdateMemory (content id userId : string)
| InsertEmail (id userId memoryId sender recipients subject date company
               messageId inReplyTo : string)
| SelectEmailsIn (memoryIds : list string) (userId : string)
| DeleteEmail (memoryId userId : string).

Record D1Meta := { changes : nat }.

(** [D1Result]: the rows of [.all()] and the [meta] block of [.run()]. *)
Record D1Result := {
  results : list EmailRecord;
  meta : option D1Meta;
}.

(** Thrown values. The back ends choose the message of their own errors;
    [JsError] is [new Error(message)] raised by the sources. *)
Inductive exn :=
| D1Error (message : string)
| AIError (message : string)
| VectorizeError (message : string)
| JsError (message : string).

Definition message (e : exn) : string :=
  match e with
  | D1Error m | AIError m | VectorizeError m | JsError m => m
  end.

(** Round trips to the external services. *)
Inductive BackendCall :=
| D1 (stmt : Statement)
| AI_embed (text : string)
| VEC_upsert (entry : IndexEntry)
| VEC_deleteByIds (id namespace : string)
| VEC_query (text namespace : string).

(** What an operation leaves behind for an observer: the round trips it
    attempted and the lines it wrote with [console.error]. Lines of
    [console.log] are not recorded. *)
Inductive Event :=
| Call (c : BackendCall)
| ConsoleError (text : string) (e : exn).

(** [env: Env]. [outage n = Some msg] makes the [n]-th round trip (counted
    from 0 over the life of the environment) fail with message [msg];
    [nearest] is the ranking of the index, left unconstrained; [now] is
    [CURRENT_TIMESTAMP]. *)
Record Env := {
  DB : D1Database;
  VECTORIZE : list IndexEntry;
  nearest : string → string → list IndexEntry → list VectorMatch;
  outage : nat → option string;
  now : string;
  calls : nat;
  journal : list Event;
}.

Definition with_DB (db : D1Database) (w : Env) : Env :=
  {| DB := db; VECTORIZE := VECTORIZE w; nearest := nearest w;
     outage := outage w; now := now w; calls := calls w;
     journal := journal w |}.

Definition with_VECTORIZE (ix : list IndexEntry) (w : Env) : Env :=
  {| DB := DB w; VECTORIZE := ix; nearest := nearest w;
     outage := outage w; now := now w; calls := calls w;
     journal := journal w |}.

Definition record_event (ev : Event) (w : Env) : Env :=
  {| DB := DB w; VECTORIZE := VECTORIZE w; nearest := nearest w;
     outage := outage w; now := now w;
     calls := match ev with Call _ => S (calls w) | _ => calls w end;
     journal := journal w ++ [ev] |}.

(** ** The effect monad: state passing over [Env], with exceptions *)

Inductive Outcome (A : Type) :=
| Return (a : A)
| Throw (e : exn).
Arguments Return {A} a.
Arguments Throw {A} e.

Definition M (A : Type) : Type := Env → Outcome A * Env.

Definition ret {A} (a : A) : M A := λ w, (Return a, w).

Definition throw {A} (e : exn) : M A := λ w, (Throw e, w).

Definition bind {A B} (m : M A) (k : A → M B) : M B :=
  λ w, match m w with
       | (Return a, w') => k a w'
       | (Throw e, w') => (Throw e, w')
       end.

(** [try { body } catch (error) { handler }]. *)
Definition try_catch {A} (body : M A) (handler : exn → M A) : M A :=
  λ w, match body w with
       | (Return a, w') => (Return a, w')
       | (Throw e, w') => handler e w'
       end.

Notation "'let*' x ':=' m 'in' k" := (bind m (λ x, k))
  (at level 10, x pattern, m at level 100, k at level 200).
Notation "m ';;;' k" := (bind m (λ _, k))
  (at level 100, k at level 200, right associativity).

Definition console_error (text : string) (e : exn) : M unit :=
  λ w, (Return (), record_event (ConsoleError text e) w).

(** A round trip: it is journalled, and fails when the environment says
    so, before the service has done anything. *)
Definition round_trip (c : BackendCall) (err : string → exn) : M unit :=
  λ w, match outage w (calls w) with
       | Some msg => (Throw (err msg), record_event (Call c) w)
       | None => (Return (), record_event (Call c) w)
       end.

(** ** The D1 database: what each prepared statement does *)

Definition targets (id userId : string) (row : MemoryRow) : bool :=
  bool_decide (m_id row = id) && bool_decide (m_userId row = userId).

Definition email_targets (memoryId userId : string) (row : EmailRecord) : bool :=
  bool_decide (r_memoryId row = memoryId) && bool_decide (r_userId row = userId).

(** The rows of [memories] after [UPDATE memories SET content = ? WHERE
    id = ? AND userId = ?]. *)
Definition updated (content id userId : string) (rows : list MemoryRow)
  : list MemoryRow :=
  (λ row, if targets id userId row
          then {| m_id := m_id row; m_userId := m_userId row;
                  m_content := content; m_created_at := m_created_at row |}
          else row) <$> rows.

Definition ran (n : nat) : D1Result :=
  {| results := []; meta := Some {| changes := n |} |}.

(** SQL semantics over the two tables. [id] is the primary key of both
    tables, so an [INSERT] of a present key is rejected; text columns
    compare by exact equality. A rejected statement leaves the tables as
    they were. *)
Definition execute (stmt : Statement) (now : string) (db : D1Database)
  : string + (D1Result * D1Database) :=
  match stmt with
  | InsertMemory id userId content =>
      if bool_decide (id ∈ (m_id <$> memories db))
      then inl "UNIQUE constraint failed: memories.id"
      else inr (ran 1,
                {| memories := memories db ++
                     [{| m_id := id; m_userId := userId; m_content := content;
                         m_created_at := now |}];
                   emails := emails db |})
  | DeleteMemory id userId =>
      inr (ran (length (filter (λ row, targets id userId row = true)
                               (memories db))),
           {| memories := filter (λ row, targets id userId row = false)
                                 (memories db);
              emails := emails db |})
  | UpdateMemory content id userId =>
      inr (ran (length (filter (λ row, targets id userId row = true)
                               (memories db))),
           {| memories := updated content id userId (memories db);
              emails := emails db |})
  | InsertEmail id userId memoryId sender recipients subject date company
                messageId inReplyTo =>
      if bool_decide (id ∈ (r_id <$> emails db))
      then inl "UNIQUE constraint failed: emails.id"
      else inr (ran 1,
                {| memories := memories db;
                   emails := emails db ++
                     [{| r_id := id; r_userId := userId;
                         r_memoryId := memoryId; r_sender := sender;
                         r_recipients := recipients; r_subject := subject;
                         r_date := date; r_company := company;
                         r_messageId := messageId; r_inReplyTo := inReplyTo;
                         r_created_at := now |}] |})
  | SelectEmailsIn memoryIds userId =>
      inr ({| results :=
                filter (λ row, r_memoryId row ∈ memoryIds ∧ r_userId row = userId)
                       (emails db);
              meta := Some {| changes := 0 |} |},
           db)
  | DeleteEmail memoryId userId =>
      inr (ran (length (filter (λ row, email_targets memoryId userId row = true)
                               (emails db))),
           {| memories := memories db;
              emails := filter (λ row, email_targets memoryId userId row = false)
                               (emails db) |})
  end.

(** [env.DB.prepare(sql).bind(...).run()] and [.all()]. *)
Definition DB_run (stmt : Statement) : M D1Result :=
  round_trip (D1 stmt) D1Error ;;;
  λ w, match execute stmt (now w) (DB w) with
       | inl msg => (Throw (D1Error msg), w)
       | inr (res, db) => (Return res, with_DB db w)
       end.

(** ** [src/utils/db.ts] *)

Definition storeMemoryInD1 (content userId memoryId : string) : M string :=
  try_catch
    (DB_run (InsertMemory memoryId userId content) ;;;
     ret memoryId)
    (λ error,
       console_error "Error storing memory in D1:" error ;;;
       throw error).

Definition deleteMemoryFromD1 (memoryId userId : string) : M unit :=
  try_catch
    (DB_run (DeleteMemory memoryId userId) ;;;
     ret ())
    (λ error,
       console_error "Error deleting memory from D1:" error ;;;
       throw error).

Definition not_found_message (memoryId userId : string) : string :=
  "Memory with ID " +:+ memoryId +:+ " not found for user " +:+ userId
  +:+ " or content unchanged.".

Definition updateMemoryInD1 (memoryId userId newContent : string) : M unit :=
  try_catch
    (let* result := DB_run (UpdateMemory newContent memoryId userId) in
     match meta result with
     | Some {| changes := S _ |} => ret ()
     | _ => throw (JsError (not_found_message memoryId userId))
     end)
    (λ error,
       console_error "Error updating memory in D1:" error ;;;
       throw error).

(** ** [src/utils/vectorize.ts]

    The module is imported by [email.ts] and [index.ts] but is not among
    the sources; its four functions follow the contracts of the
    specification (Memory Orchestrator steps 3 and 4, Search Engine steps
    1 and 2). *)

(** Modelled from the spec: the key of an index entry, missing from the
    sources: entries are keyed by [(namespace = ownerId, id)]. *)
Definition same_entry (id namespace : string) (e : IndexEntry) : bool :=
  bool_decide (v_id e = id) && bool_decide (v_namespace e = namespace).

(** Modelled from the spec: the upsert of the Vector Index, missing from
    the sources: the entry replaces the one with the same key, if any. *)
Definition upsert (e : IndexEntry) (ix : list IndexEntry) : list IndexEntry :=
  filter (λ x, same_entry (v_id e) (v_namespace e) x = false) ix ++ [e].

(** Modelled from the spec: a write to the Vector Index, missing from the
    sources: one round trip, then the change of the index. *)
Definition VEC_write (c : BackendCall) (f : list IndexEntry → list IndexEntry)
  : M unit :=
  round_trip c VectorizeError ;;;
  λ w, (Return (), with_VECTORIZE (f (VECTORIZE w)) w).

(** Modelled from the spec: [storeMemory], missing from the sources:
    request an embedding vector for the text from the Embedding Provider,
    then upsert [(id, vector, attributes)] into the Vector Index under
    namespace [userId]; a failure of either step is thrown. *)
Definition storeMemory (text userId : string)
    (metadata : list (string * string)) (memoryId : string) : M string :=
  round_trip (AI_embed text) AIError ;;;
  let entry := {| v_id := memoryId; v_namespace := userId; v_text := text;
                  v_metadata := metadata |} in
  VEC_write (VEC_upsert entry) (upsert entry) ;;;
  ret memoryId.

(** Modelled from the spec: [updateMemoryVector], missing from the
    sources: recompute the embedding and upsert into the Vector Index. The
    specification names no attributes for the refreshed entry. *)
Definition updateMemoryVector (memoryId newContent userId : string) : M unit :=
  round_trip (AI_embed newContent) AIError ;;;
  let entry := {| v_id := memoryId; v_namespace := userId;
                  v_text := newContent; v_metadata := [] |} in
  VEC_write (VEC_upsert entry) (upsert entry).

(** Modelled from the spec: [deleteVectorById], missing from the sources:
    delete the entry [(namespace = userId, id)] from the Vector Index. *)
Definition deleteVectorById (memoryId userId : string) : M unit :=
  VEC_write (VEC_deleteByIds memoryId userId)
            (filter (λ x, same_entry memoryId userId x = false)).

(** Modelled from the spec: [searchMemories], missing from the sources:
    embed the query, then query the Vector Index in namespace [userId],
    receiving [(id, score)] pairs. Which pairs, and in which order, is the
    index's business: [nearest]. *)
Definition searchMemories (query userId : string) : M (list VectorMatch) :=
  round_trip (AI_embed query) AIError ;;;
  round_trip (VEC_query query userId) VectorizeError ;;;
  λ w, (Return (nearest w query userId (VECTORIZE w)), w).

(** ** [src/utils/email.ts]: structured create *)

Definition LF : string := String (ascii_of_N 10) EmptyString.

Definition storeEmailMemory (email : EmailData) (userId : string)
    (uuidv4 : string) : M string :=
  let memoryId := uuidv4 in
  let company := Js.or_else (company email)
                            (extractCompanyFromEmail (sender email)) in
  let recipients := Js.nullish (Js.join "," <$> recipients email) "" in
  let text := subject email +:+ LF +:+ body email +:+ LF +:+ "From: "
              +:+ sender email +:+ LF +:+ "To: " +:+ recipients in
  storeMemoryInD1 text userId memoryId ;;;
  storeMemory text userId
    [("subject", subject email);
     ("sender", sender email);
     ("recipients", recipients);
     ("date", Js.nullish (date email) "");
     ("company", Js.nullish company "");
     ("messageId", Js.nullish (messageId email) "");
     ("inReplyTo", Js.nullish (inReplyTo email) "")]
    memoryId ;;;
  DB_run (InsertEmail memoryId userId memoryId (sender email) recipients
            (subject email) (Js.nullish (date email) "")
            (Js.nullish company "") (Js.nullish (messageId email) "")
            (Js.nullish (inReplyTo email) "")) ;;;
  ret memoryId.

Definition deleteEmail (memoryId userId : string) : M unit :=
  DB_run (DeleteEmail memoryId userId) ;;;
  ret ().

(** ** [src/utils/email.ts]: batched metadata and merged search *)

(** What [metadataMap[match.id]] can evaluate to. [records] is a plain
    object literal, so a key it does not own is looked up along its
    prototype chain. *)
Inductive JsValue :=
| VUndefined
| VRow (row : EmailRecord)
| VString (s : string)
| VFunction (name : string)
| VObjectPrototype.

(** [const records: Record<string, EmailRecord> = {}]: the own properties,
    and the row installed as prototype, if any. *)
Record JsObject := {
  own : gmap string EmailRecord;
  proto : option EmailRecord;
}.

Definition empty_object : JsObject := {| own := ∅; proto := None |}.

(** [records[key] = row]. The key ['__proto__'] is not stored: it runs the
    inherited setter, which makes the row the prototype of [records]. *)
Definition js_set (records : JsObject) (key : string) (row : EmailRecord)
  : JsObject :=
  if bool_decide (key = "__proto__")
  then {| own := own records; proto := Some row |}
  else {| own := <[key := row]> (own records); proto := proto records |}.

(** The function-valued properties of [Object.prototype]. *)
Definition object_prototype_methods : list string :=
  ["constructor"; "hasOwnProperty"; "isPrototypeOf"; "propertyIsEnumerable";
   "toLocaleString"; "toString"; "valueOf"; "__defineGetter__";
   "__defineSetter__"; "__lookupGetter__"; "__lookupSetter__"].

Definition object_prototype_get (key : string) : JsValue :=
  if bool_decide (key ∈ object_prototype_methods) then VFunction key
  else VUndefined.

(** The own properties of a row object: one per column of [emails]. *)
Definition column (row : EmailRecord) (key : string) : option string :=
  if bool_decide (key = "id") then Some (r_id row)
  else if bool_decide (key = "userId") then Some (r_userId row)
  else if bool_decide (key = "memoryId") then Some (r_memoryId row)
  else if bool_decide (key = "sender") then Some (r_sender row)
  else if bool_decide (key = "recipients") then Some (r_recipients row)
  else if bool_decide (key = "subject") then Some (r_subject row)
  else if bool_decide (key = "date") then Some (r_date row)
  else if bool_decide (key = "company") then Some (r_company row)
  else if bool_decide (key = "messageId") then Some (r_messageId row)
  else if bool_decide (key = "inReplyTo") then Some (r_inReplyTo row)
  else if bool_decide (key = "created_at") then Some (r_created_at row)
  else None.

(** [records[key]]. *)
Definition js_get (records : JsObject) (key : string) : JsValue :=
  if bool_decide (key = "__proto__") then
    match proto records with
    | Some row => VRow row
    | None => VObjectPrototype
    end
  else
    match own records !! key with
    | Some row => VRow row
    | None =>
        match proto records with
        | Some row =>
            match column row key with
            | Some s => VString s
            | None => object_prototype_get key
            end
        | None => object_prototype_get key
        end
    end.

(** [!meta] is false for objects, functions and non-empty strings. *)
Definition js_truthy (v : JsValue) : bool :=
  match v with
  | VUndefined => false
  | VString s => Js.truthy (Some s)
  | VRow _ | VFunction _ | VObjectPrototype => true
  end.

(** [meta.company]: only a row has the property. *)
Definition js_company (v : JsValue) : option string :=
  match v with
  | VRow row => Some (r_company row)
  | _ => None
  end.

Definition getEmailsMetadata (memoryIds : list string) (userId : string)
  : M JsObject :=
  match memoryIds with
  | [] => ret empty_object
  | _ =>
      let* result := DB_run (SelectEmailsIn memoryIds userId) in
      ret (foldl (λ records row, js_set records (r_memoryId row) row)
                 empty_object (results result))
  end.

(** An element [{ ...meta, score: match.score }] of the result: the own
    enumerable properties of [meta] (all columns of a row, none for a
    function or for [Object.prototype], the characters of a string) and
    the score. *)
Record SearchHit := {
  hit_meta : JsValue;
  hit_score : Z;
}.

(** The callback of [vectorResults.map], [None] standing for [undefined]. *)
Definition merge_hit (metadataMap : JsObject) (company : option string)
    (vmatch : VectorMatch) : option SearchHit :=
  let meta := js_get metadataMap (vm_id vmatch) in
  if negb (js_truthy meta) then None
  else if Js.truthy company && negb (bool_decide (js_company meta = company))
  then None
  else Some {| hit_meta := meta; hit_score := vm_score vmatch |}.

Definition searchEmailMemories (query userId : string)
    (company : option string) : M (list SearchHit) :=
  let* vectorResults := searchMemories query userId in
  let ids := vm_id <$> vectorResults in
  let* metadataMap := getEmailsMetadata ids userId in
  ret (omap (merge_hit metadataMap company) vectorResults).

(** ** [src/index.ts]: the REST handlers

    A handler receives the path parameters and the outcome of
    [c.req.json()], and answers with a status code and a JSON envelope.
    The schema-initialisation middleware that runs in front of every route
    is not part of the handlers. *)

Inductive JsonBody :=
| Success
| SuccessId (id : string)
| Failure (error : string).

Record Response := {
  status : nat;
  json : JsonBody;
}.

(** The outcome of [await c.req.json()]: a rejection, [null], or a value
    whose properties can be read. A JSON number, boolean, string or array
    has none of the properties the handlers read and behaves as an object
    without them (or as [null] when falsy, in the update handler). *)
Inductive RequestBody (A : Type) :=
| InvalidJson (e : exn)
| JsonNull
| JsonObject (fields : A).
Arguments InvalidJson {A} e.
Arguments JsonNull {A}.
Arguments JsonObject {A} fields.

(** The body of an update; [content] is [None] when the property is
    missing or [typeof body.content !== "string"]. *)
Record UpdateJson := {
  content : option string;
}.

(** The body of a structured create before validation: the three required
    properties may be missing. *)
Record EmailJson := {
  j_subject : option string;
  j_body : option string;
  j_sender : option string;
  j_recipients : option (list string);
  j_date : option string;
  j_company : option string;
  j_messageId : option string;
  j_inReplyTo : option string;
}.

Definition as_EmailData (j : EmailJson) : EmailData :=
  {| subject := default "" (j_subject j);
     body := default "" (j_body j);
     sender := default "" (j_sender j);
     recipients := j_recipients j;
     date := j_date j;
     company := j_company j;
     messageId := j_messageId j;
     inReplyTo := j_inReplyTo j |}.

Definition respond (code : nat) (b : JsonBody) : M Response :=
  ret {| status := code; json := b |}.

(** [app.delete("/:userId/memories/:memoryId", ...)]. *)
Definition DELETE_memory (userId memoryId : string) : M Response :=
  try_catch
    (deleteMemoryFromD1 memoryId userId ;;;
     try_catch
       (deleteVectorById memoryId userId)
       (λ vectorError,
          console_error ("Failed to delete vector " +:+ memoryId +:+ " for user "
                         +:+ userId +:+ " from Vectorize:") vectorError) ;;;
     respond 200 Success)
    (λ error,
       console_error ("Error deleting memory " +:+ memoryId
                      +:+ " (D1 primary) for user " +:+ userId +:+ ":") error ;;;
       respond 500 (Failure "Failed to delete memory")).

(** [app.put("/:userId/memories/:memoryId", ...)]. *)
Definition PUT_memory (userId memoryId : string)
    (request : RequestBody UpdateJson) : M Response :=
  match request with
  | InvalidJson e =>
      console_error "Failed to parse request body:" e ;;;
      respond 400 (Failure "Failed to parse request body")
  | JsonNull =>
      respond 400 (Failure "Invalid or missing content in request body")
  | JsonObject fields =>
      match content fields with
      | None =>
          respond 400 (Failure "Invalid or missing content in request body")
      | Some text =>
          if bool_decide (Js.trim text = "") then
            respond 400 (Failure "Invalid or missing content in request body")
          else
            let updatedContent := Js.trim text in
            try_catch
              (updateMemoryInD1 memoryId userId updatedContent ;;;
               try_catch
                 (updateMemoryVector memoryId updatedContent userId)
                 (λ vectorError,
                    console_error ("Failed to update vector " +:+ memoryId
                                   +:+ " for user " +:+ userId
                                   +:+ " in Vectorize:") vectorError) ;;;
               respond 200 Success)
              (λ error,
                 console_error ("Error updating memory " +:+ memoryId
                                +:+ " for user " +:+ userId +:+ ":") error ;;;
                 let errorMessage :=
                   if Js.truthy (Some (message error)) then message error
                   else "Failed to update memory" in
                 if Js.includes "not found" errorMessage
                 then respond 404 (Failure errorMessage)
                 else respond 500 (Failure errorMessage))
      end
  end.

(** [app.post("/:userId/emails", ...)]; [uuidv4] is the identifier that
    [storeEmailMemory] mints. Reading a property of [null] throws inside
    the first [try], which answers like a malformed body. *)
Definition POST_emails (userId : string) (request : RequestBody EmailJson)
    (uuidv4 : string) : M Response :=
  match request with
  | InvalidJson _ | JsonNull =>
      respond 400 (Failure "Invalid JSON body")
  | JsonObject email =>
      if negb (Js.truthy (j_subject email)) || negb (Js.truthy (j_body email))
         || negb (Js.truthy (j_sender email))
      then respond 400 (Failure "Missing required email fields")
      else
        try_catch
          (let* id := storeEmailMemory (as_EmailData email) userId uuidv4 in
           respond 200 (SuccessId id))
          (λ err,
             console_error "Error storing email" err ;;;
             respond 500 (Failure "Failed to store email"))
  end.

(** ** Observations on environments *)

(** The round trips among a list of events, in order. *)
Definition round_trips (evs : list Event) : list BackendCall :=
  omap (λ ev, match ev with Call c => Some c | ConsoleError _ _ => None end) evs.

(** The statements sent to the database among a list of events. *)
Definition store_queries (evs : list Event) : list Statement :=
  omap (λ ev, match ev with Call (D1 stmt) => Some stmt | _ => None end) evs.

(** An environment in which nothing has happened yet and nothing fails. *)
Definition quiet (db : D1Database) (ix : list IndexEntry)
    (rank : string → string → list IndexEntry → list VectorMatch) : Env :=
  {| DB := db; VECTORIZE := ix; nearest := rank; outage := λ _, None;
     now := "2025-01-01 00:00:00"; calls := 0; journal := [] |}.

(** An index that returns every entry of the namespace, in stored order,
    with one and the same score. *)
Definition flat_rank (_ namespace : string) (ix : list IndexEntry)
  : list VectorMatch :=
  (λ e, {| vm_id := v_id e; vm_score := 1 |})
    <$> filter (λ e, v_namespace e = namespace) ix.

(** The events an operation added to the journal. *)
Definition since (w w' : Env) (evs : list Event) : Prop :=
  journal w' = journal w ++ evs.

(** The next [n] round trips of the environment go through. *)
Definition healthy (w : Env) (n : nat) : Prop :=
  ∀ k, k < n → outage w (calls w + k) = None.

(** The [INSERT] of the content row is bound to fail: the database is
    unreachable for it, or the key is taken. *)
Definition content_write_fails (w : Env) (memoryId : string) : Prop :=
  is_Some (outage w (calls w)) ∨ memoryId ∈ (m_id <$> memories (DB w)).

(** The content row is written, and then the embedding request or the
    upsert fails. *)
Definition index_step_fails (w : Env) (memoryId : string) : Prop :=
  outage w (calls w) = None
  ∧ (memoryId ∉ m_id <$> memories (DB w))
  ∧ (is_Some (outage w (S (calls w)))
     ∨ is_Some (outage w (S (S (calls w))))).

(** No row of [memories] has this id for this owner. *)
Definition absent (w : Env) (memoryId userId : string) : Prop :=
  ∀ row, row ∈ memories (DB w) → targets memoryId userId row = false.

(** A structured-create request without a non-empty subject, body or
    sender; a body that is not an object lacks all three. *)
Definition lacks_required (request : RequestBody EmailJson) : Prop :=
  match request with
  | JsonObject email =>
      Js.truthy (j_subject email) = false ∨ Js.truthy (j_body email) = false
      ∨ Js.truthy (j_sender email) = false
  | _ => True
  end.

(** An update request whose content is missing, or empty once trimmed. *)
Definition lacks_content (request : RequestBody UpdateJson) : Prop :=
  match request with
  | JsonObject {| content := Some text |} => Js.trim text = ""
  | _ => True
  end.

(** A structured-create body that passes validation. *)
Definition complete (email : EmailJson) : Prop :=
  Js.truthy (j_subject email) = true ∧ Js.truthy (j_body email) = true
  ∧ Js.truthy (j_sender email) = true.

(** Nothing was sent to any back end between [w] and [w'], and both stores
    are the same. *)
Definition untouched (w w' : Env) : Prop :=
  DB w' = DB w ∧ VECTORIZE w' = VECTORIZE w ∧ calls w' = calls w
  ∧ round_trips (journal w') = round_trips (journal w).

(** Every own property of [records], and the row installed as its
    prototype if there is one, is a row satisfying [P], filed under its
    own [memoryId]. *)
Definition filed (P : EmailRecord → Prop) (records : JsObject) : Prop :=
  (∀ k row, own records !! k = Some row → P row ∧ r_memoryId row = k)
  ∧ (∀ row, proto records = Some row → P row ∧ r_memoryId row = "__proto__").

(** ** Sample environments *)

(** The [n]-th round trip fails, every other one goes through. *)
Definition outage_at (n : nat) (k : nat) : option string :=
  if Nat.eqb k n then Some "service unavailable" else None.

Definition failing_at (n : nat) (w : Env) : Env :=
  {| DB := DB w; VECTORIZE := VECTORIZE w; nearest := nearest w;
     outage := outage_at (calls w + n); now := now w; calls := calls w;
     journal := journal w |}.

Definition email_row (id company : string) : EmailRecord :=
  {| r_id := id; r_userId := "u"; r_memoryId := id;
     r_sender := "a@" +:+ company +:+ ".com"; r_recipients := "";
     r_subject := "hello"; r_date := ""; r_company := company;
     r_messageId := ""; r_inReplyTo := "";
     r_created_at := "2025-01-01 00:00:00" |}.

Definition memory_row (id : string) : MemoryRow :=
  {| m_id := id; m_userId := "u"; m_content := "hello";
     m_created_at := "2025-01-01 00:00:00" |}.

Definition index_entry (id : string) : IndexEntry :=
  {| v_id := id; v_namespace := "u"; v_text := "hello"; v_metadata := [] |}.

(** Two e-mails of owner ["u"], and an index that also holds an entry
    ["m-3"] without any row behind it. *)
Definition sample_db : D1Database :=
  {| memories := [memory_row "m-1"; memory_row "m-2"];
     emails := [email_row "m-1" "acme"; email_row "m-2" "globex"] |}.

Definition sample_index : list IndexEntry :=
  [index_entry "m-1"; index_entry "m-2"; index_entry "m-3"].

Definition sample_rank (_ _ : string) (_ : list IndexEntry) : list VectorMatch :=
  [{| vm_id := "m-2"; vm_score := 9 |}; {| vm_id := "m-3"; vm_score := 7 |};
   {| vm_id := "m-1"; vm_score := 5 |}].

Definition sample_env : Env := quiet sample_db sample_index sample_rank.

Definition empty_db : D1Database := {| memories := []; emails := [] |}.

Definition empty_env : Env := quiet empty_db [] flat_rank.

(** An index holding one entry, without any row behind it, whose id is the
    name of a method that every plain object inherits. *)
Definition stray_env : Env :=
  quiet empty_db [index_entry "constructor"] flat_rank.

Definition sample_json : EmailJson :=
  {| j_subject := Some "hello"; j_body := Some "first line";
     j_sender := Some "not-an-email"; j_recipients := None; j_date := None;
     j_company := None; j_messageId := None; j_inReplyTo := None |}.

Definition sample_email : EmailData := as_EmailData sample_json.

(** ** More of [src/index.ts] and [src/utils/email.ts] *)

(** [app.delete("/:userId/emails/:memoryId", ...)]: the three deletes run
    in one [try], without an inner [catch] around the index. *)
Definition DELETE_email (userId memoryId : string) : M Response :=
  try_catch
    (deleteEmail memoryId userId ;;;
     deleteMemoryFromD1 memoryId userId ;;;
     deleteVectorById memoryId userId ;;;
     respond 200 Success)
    (λ e,
       console_error "Error deleting email" e ;;;
       respond 500 (Failure "Failed to delete email")).

(** The handlers that [index.ts] registers for [GET], by the line of their
    registration: [app.get("/", ...)] (line 37),
    [app.get("/:userId/memories", ...)] (line 40),
    [app.get("/:userId/emails", ...)] (line 143),
    [app.get("/:userId/emails/:memoryId", ...)] (line 155) and
    [app.get("/:userId/emails/search", ...)] (line 184). *)
Inductive GetHandler :=
| Index
| ListMemories
| ListEmails
| SingleEmail
| SearchEmails.

(** The routes of [GET], in the order of registration. *)
Definition GET_routes : list (string * GetHandler) :=
  [("/", Index);
   ("/:userId/memories", ListMemories);
   ("/:userId/emails", ListEmails);
   ("/:userId/emails/:memoryId", SingleEmail);
   ("/:userId/emails/search", SearchEmails)].

(** Hono's match of a path against a pattern, segment by segment: a
    segment [:name] of the pattern stands for any non-empty segment of the
    path and captures it under [name], any other segment stands for
    itself; both have the same number of segments. *)
Fixpoint match_segments (pattern path : list string)
  : option (list (string * string)) :=
  match pattern, path with
  | [], [] => Some []
  | p :: ps, s :: ss =>
      match p with
      | String ":" name =>
          if bool_decide (s = "") then None
          else (λ params, (name, s) :: params) <$> match_segments ps ss
      | _ => if bool_decide (p = s) then match_segments ps ss else None
      end
  | _, _ => None
  end.

Definition match_route (pattern pathname : string)
  : option (list (string * string)) :=
  match_segments (Js.split "/" pattern) (Js.split "/" pathname).

(** Hono's dispatch: the handlers whose pattern matches run in the order
    of registration, and the first one that returns a response answers
    the request. The middleware registered in front of them (line 22)
    hands every request on with [next()]; each of the five handlers
    returns a response on every path of its code and none calls [next()],
    so the first route that matches is the one that answers. [None]: no
    route of [GET] matches, and the request falls through to
    [app.mount]. *)
Fixpoint dispatch (routes : list (string * GetHandler)) (pathname : string)
  : option (GetHandler * list (string * string)) :=
  match routes with
  | [] => None
  | (pattern, handler) :: rest =>
      match match_route pattern pathname with
      | Some params => Some (handler, params)
      | None => dispatch rest pathname
      end
  end.

(** [app.mount("/", ...)] up to the hand-over to [MyMCP]: either the 400
    answer, or the user id put in [ctx.props] and the mount point
    [`/${userId}/sse`]. [pathname] is [new URL(req.url).pathname]. *)
Inductive Mounted :=
| BadRequest
| Routed (userId mountPoint : string).

Definition mount (pathname : string) : Mounted :=
  let pathSegments := Js.split "/" pathname in
  let userId := pathSegments !! 1 in
  if negb (Js.truthy userId) then BadRequest
  else Routed (default "" userId) ("/" +:+ default "" userId +:+ "/sse").

(** A read-only statement: one round trip, which the environment may make
    fail; it is counted like every round trip, the journal keeps the
    events defined above only. *)
Definition read_trip : M unit :=
  λ w,
    let w' := {| DB := DB w; VECTORIZE := VECTORIZE w; nearest := nearest w;
                 outage := outage w; now := now w; calls := S (calls w);
                 journal := journal w |} in
    match outage w (calls w) with
    | Some msg => (Throw (D1Error msg), w')
    | None => (Return (), w')
    end.

(** [SELECT * FROM emails WHERE memoryId = ? AND userId = ?]. *)
Definition select_email (memoryId userId : string) (db : D1Database)
  : list EmailRecord :=
  filter (λ row, email_targets memoryId userId row = true) (emails db).

(** [EmailRecord & { content: string }]. *)
Record EmailWithContent := {
  ec_email : EmailRecord;
  ec_content : string;
}.

(** [SELECT e.*, m.content FROM emails e JOIN memories m ON e.memoryId =
    m.id WHERE e.memoryId = ? AND e.userId = ?]: the join does not look at
    the owner of the memory row. *)
Definition select_email_with_content (memoryId userId : string)
    (db : D1Database) : list EmailWithContent :=
  e ← select_email memoryId userId db;
  (λ m, {| ec_email := e; ec_content := m_content m |})
    <$> filter (λ m, m_id m = r_memoryId e) (memories db).

(** [.first()]: the first row of the result, or [null]. Which row comes
    first when several qualify is the database's choice; the model takes
    table order, and the properties below are stated where one row
    qualifies at most. *)
Definition getEmailMetadata (memoryId userId : string)
  : M (option EmailRecord) :=
  read_trip ;;;
  λ w, (Return (head (select_email memoryId userId (DB w))), w).

Definition getEmailWithContent (memoryId userId : string)
  : M (option EmailWithContent) :=
  read_trip ;;;
  λ w, (Return (head (select_email_with_content memoryId userId (DB w))), w).

(** The envelope of the single-record route. *)
Inductive EmailBody :=
| EmailFound (email : EmailWithContent)
| EmailFailure (error : string).

Record EmailResponse := {
  e_status : nat;
  e_json : EmailBody;
}.

(** [app.get("/:userId/emails/:memoryId", ...)]. *)
Definition GET_email (userId memoryId : string) : M EmailResponse :=
  try_catch
    (let* email := getEmailWithContent memoryId userId in
     match email with
     | None => ret {| e_status := 404; e_json := EmailFailure "Not Found" |}
     | Some email => ret {| e_status := 200; e_json := EmailFound email |}
     end)
    (λ e,
       console_error "Error retrieving email" e ;;;
       ret {| e_status := 500;
              e_json := EmailFailure "Failed to retrieve email" |}).

(** ** Observations used by the further properties *)

(** The row that the batched lookup files under [id]: the last row of the
    owner with that [memoryId], in table order. *)
Definition lookup_email (rows : list EmailRecord) (userId id : string)
  : option EmailRecord :=
  last (filter (λ row, r_memoryId row = id ∧ r_userId row = userId) rows).

(** An id that names nothing a plain object inherits. *)
Definition plain (id : string) : Prop :=
  id ≠ "__proto__" ∧ id ∉ object_prototype_methods.

#[global] Instance plain_dec (id : string) : Decision (plain id).
Proof. unfold plain. apply _. Defined.

(** What the search makes of one vector hit, read off the table. *)
Definition expected_hit (rows : list EmailRecord) (userId : string)
    (company : option string) (vmatch : VectorMatch) : option SearchHit :=
  match lookup_email rows userId (vm_id vmatch) with
  | None => None
  | Some row =>
      if Js.truthy company && negb (bool_decide (Some (r_company row) = company))
      then None
      else Some {| hit_meta := VRow row; hit_score := vm_score vmatch |}
  end.

(** The projection of an e-mail that is stored as content and embedded. *)
Definition projection (email : EmailData) : string :=
  subject email +:+ LF +:+ body email +:+ LF +:+ "From: "
  +:+ sender email +:+ LF +:+ "To: "
  +:+ Js.nullish (Js.join "," <$> recipients email) "".

(** The company stored with an e-mail. *)
Definition stored_company (email : EmailData) : string :=
  Js.nullish (Js.or_else (company email)
                (extractCompanyFromEmail (sender email))) "".

(** The flattened attribute map stored with the vector of an e-mail. *)
Definition attributes (email : EmailData) : list (string * string) :=
  [("subject", subject email);
   ("sender", sender email);
   ("recipients", Js.nullish (Js.join "," <$> recipients email) "");
   ("date", Js.nullish (date email) "");
   ("company", stored_company email);
   ("messageId", Js.nullish (messageId email) "");
   ("inReplyTo", Js.nullish (inReplyTo email) "")].

(** The three things a structured create writes under one id. *)
Definition content_row (email : EmailData) (userId id created : string)
  : MemoryRow :=
  {| m_id := id; m_userId := userId; m_content := projection email;
     m_created_at := created |}.

Definition vector_entry (email : EmailData) (userId id : string) : IndexEntry :=
  {| v_id := id; v_namespace := userId; v_text := projection email;
     v_metadata := attributes email |}.

(** The row of [emails] written for an e-mail. *)
Definition stored_row (email : EmailData) (userId id created : string)
  : EmailRecord :=
  {| r_id := id; r_userId := userId; r_memoryId := id;
     r_sender := sender email;
     r_recipients := Js.nullish (Js.join "," <$> recipients email) "";
     r_subject := subject email;
     r_date := Js.nullish (date email) "";
     r_company := stored_company email;
     r_messageId := Js.nullish (messageId email) "";
     r_inReplyTo := Js.nullish (inReplyTo email) "";
     r_created_at := created |}.

(** The environment [w'] differs from [w] by [n] more round trips made:
    same oracle, same ranking, same clock. *)
Definition later (n : nat) (w w' : Env) : Prop :=
  calls w' = n + calls w ∧ outage w' = outage w ∧ nearest w' = nearest w
  ∧ now w' = now w.

(** * Properties *)

(** ** Strings *)

Lemma append_cons (x : ascii) (a b : string) :
  String x a +:+ b = String x (a +:+ b).
Proof. reflexivity. Qed.

Lemma append_assoc (a b c : string) : (a +:+ b) +:+ c = a +:+ b +:+ c.
Proof.
  induction a as [|x a IH]; [done|].
  rewrite !append_cons. f_equal. exact IH.
Qed.

Lemma append_empty_r (a : string) : a +:+ "" = a.
Proof.
  induction a as [|x a IH]; [done|]. rewrite append_cons. by f_equal.
Qed.

Lemma prefix_append (n b : string) : String.prefix n (n +:+ b) = true.
Proof.
  induction n as [|x n IH]; [by destruct b|].
  rewrite append_cons. cbn. by destruct (Ascii.ascii_dec x x).
Qed.

Lemma includes_append (a n b : string) : Js.includes n (a +:+ n +:+ b) = true.
Proof.
  induction a as [|x a IH].
  - change ("" +:+ n +:+ b) with (n +:+ b).
    destruct (n +:+ b) eqn:E; cbn [Js.includes];
      rewrite <- E, prefix_append; done.
  - rewrite append_cons. cbn [Js.includes]. rewrite IH. apply orb_true_r.
Qed.

Lemma not_found_message_includes memoryId userId :
  Js.includes "not found" (not_found_message memoryId userId) = true.
Proof.
  unfold not_found_message.
  change (" not found for user " +:+ userId +:+ " or content unchanged.")
    with (" " +:+ "not found" +:+ " for user " +:+ userId
          +:+ " or content unchanged.").
  rewrite <- (append_assoc memoryId " "), <- (append_assoc "Memory with ID ").
  apply includes_append.
Qed.

Lemma not_found_message_truthy memoryId userId :
  Js.truthy (Some (not_found_message memoryId userId)) = true.
Proof. reflexivity. Qed.

Lemma truthy_nonempty (v : string) : v ≠ "" → Js.truthy (Some v) = true.
Proof. destruct v; [congruence | done]. Qed.

(** ** Equations of the monad *)

Lemma bind_eq {A B} (m : M A) (k : A → M B) (w : Env) :
  bind m k w = match m w with
               | (Return a, w') => k a w'
               | (Throw e, w') => (Throw e, w')
               end.
Proof. reflexivity. Qed.

Lemma try_catch_eq {A} (m : M A) (h : exn → M A) (w : Env) :
  try_catch m h w = match m w with
                    | (Return a, w') => (Return a, w')
                    | (Throw e, w') => h e w'
                    end.
Proof. reflexivity. Qed.

Lemma with_DB_record_event (ev : Event) (w : Env) :
  with_DB (DB w) (record_event ev w) = record_event ev w.
Proof. by destruct w. Qed.

Lemma round_trip_ok c err w :
  outage w (calls w) = None →
  round_trip c err w = (Return (), record_event (Call c) w).
Proof. intros H. unfold round_trip. by rewrite H. Qed.

Lemma round_trip_down c err w msg :
  outage w (calls w) = Some msg →
  round_trip c err w = (Throw (err msg), record_event (Call c) w).
Proof. intros H. unfold round_trip. by rewrite H. Qed.

(** Simplification of the observations after a step. *)
Ltac observe :=
  cbn [DB VECTORIZE nearest outage now calls journal
       record_event with_DB with_VECTORIZE fst snd].

(** Rewrite the outermost monadic combinator applied to an environment. *)
Ltac unfold_step :=
  repeat (rewrite bind_eq || rewrite try_catch_eq); cbv beta iota.

(** ** The database statements *)

Lemma DB_run_down stmt w msg :
  outage w (calls w) = Some msg →
  DB_run stmt w = (Throw (D1Error msg), record_event (Call (D1 stmt)) w).
Proof.
  intros H. unfold DB_run. by rewrite bind_eq, (round_trip_down _ _ _ _ H).
Qed.

Lemma DB_run_ok stmt w res db :
  outage w (calls w) = None →
  execute stmt (now w) (DB w) = inr (res, db) →
  DB_run stmt w = (Return res, with_DB db (record_event (Call (D1 stmt)) w)).
Proof.
  intros H E. unfold DB_run. rewrite bind_eq, (round_trip_ok _ _ _ H).
  cbv beta iota. observe. by rewrite E.
Qed.

Lemma DB_run_rejected stmt w msg :
  outage w (calls w) = None →
  execute stmt (now w) (DB w) = inl msg →
  DB_run stmt w = (Throw (D1Error msg), record_event (Call (D1 stmt)) w).
Proof.
  intros H E. unfold DB_run. rewrite bind_eq, (round_trip_ok _ _ _ H).
  cbv beta iota. observe. by rewrite E.
Qed.

(** Whatever happens, a statement is one round trip, and a failed one
    leaves both stores as they were. *)
Lemma DB_run_journal stmt w :
  journal (DB_run stmt w).2 = journal w ++ [Call (D1 stmt)]
  ∧ VECTORIZE (DB_run stmt w).2 = VECTORIZE w.
Proof.
  unfold DB_run, bind, round_trip.
  destruct (outage w (calls w)); [done|]. observe.
  by destruct (execute _ _ _) as [?|[??]].
Qed.

(** ** The regular expression of the company derivation *)

Lemma free_nil x : free x "".
Proof. intros [|??] ?; done. Qed.

Lemma free_cons x c r : free x (String c r) ↔ c ≠ x ∧ free x r.
Proof.
  split.
  - intros H. split.
    + intros ->. by apply (H "" r).
    + intros a b ->. by apply (H (String c a) b).
  - intros [Hc Hr] [|c' a] b; rewrite ?append_cons.
    + change ("" +:+ String x b) with (String x b). congruence.
    + intros [= <- E]. by apply (Hr a b).
Qed.

Lemma bracket_free_run_sound s d tl :
  bracket_free_run s = (d, tl) →
  s = d +:+ tl ∧ free ">" d ∧ (tl = "" ∨ ∃ t, tl = String ">" t).
Proof.
  revert d tl. induction s as [|c r IH]; intros d tl; cbn.
  - intros [= <- <-]. split; [done|]. split; [apply free_nil | by left].
  - destruct (Ascii.eqb_spec c ">") as [->|Hc].
    + intros [= <- <-]. split; [done|]. split; [apply free_nil | eauto].
    + destruct (bracket_free_run r) as [d0 tl0]. intros [= <- <-].
      destruct (IH d0 tl0 eq_refl) as (-> & Hf & Ht).
      split; [done|]. split; [by apply free_cons | done].
Qed.

Lemma bracket_free_run_complete d tl :
  free ">" d → (tl = "" ∨ ∃ t, tl = String ">" t) →
  bracket_free_run (d +:+ tl) = (d, tl).
Proof.
  intros Hd Ht. induction d as [|c d IH].
  - change ("" +:+ tl) with tl. destruct Ht as [->|[t ->]]; [done|].
    cbn. done.
  - apply free_cons in Hd as [Hc Hd]. rewrite append_cons. cbn.
    destruct (Ascii.eqb_spec c ">"); [done|]. by rewrite (IH Hd).
Qed.

Lemma match_after_at_spec rest d :
  match_after_at rest = Some d ↔ accepts rest d.
Proof.
  unfold match_after_at, accepts. split.
  - destruct (bracket_free_run rest) as [d0 tl] eqn:E.
    apply bracket_free_run_sound in E as (-> & Hf & Ht).
    destruct d0 as [|c d0]; [done|].
    destruct Ht as [->|[t ->]].
    + intros [= <-]. rewrite append_empty_r. eauto.
    + destruct t; [|done]. intros [= <-]. eauto.
  - intros (Hne & Hf & [->| ->]).
    + rewrite <- (append_empty_r d) at 1.
      rewrite bracket_free_run_complete by eauto. by destruct d.
    + rewrite bracket_free_run_complete by eauto. by destruct d.
Qed.

Lemma match_after_at_None rest :
  match_after_at rest = None ↔ ∀ d, ¬ accepts rest d.
Proof.
  split.
  - intros H d Hd. apply match_after_at_spec in Hd. congruence.
  - intros H. destruct (match_after_at rest) as [d|] eqn:E; [|done].
    apply match_after_at_spec in E. by destruct (H d).
Qed.

Lemma regex_match_sound s d :
  regex_match s = Some d → leftmost_domain s d.
Proof.
  induction s as [|c r IH]; [done|]. cbn.
  assert (Hlater : regex_match r = Some d →
            (∀ d', c = "@"%char → ¬ accepts r d') → leftmost_domain (String c r) d).
  { intros Hr Hhere. destruct (IH Hr) as (pre & rest & -> & Had & Hmin).
    exists (String c pre), rest. split; [done|]. split; [done|].
    intros [|c' pre'] rest' d'.
    - change ("" +:+ String "@" rest') with (String "@" rest').
      intros [= -> <-] _. by apply Hhere.
    - rewrite append_cons. intros [= <- E] Hlen. apply (Hmin _ _ _ E).
      cbn in Hlen. lia. }
  destruct (Ascii.eqb_spec c "@") as [->|Hc].
  - destruct (match_after_at r) as [d0|] eqn:E.
    + intros [= ->]. apply match_after_at_spec in E.
      exists "", r. split; [done|]. split; [done|].
      intros ??? _ Hlen. cbn in Hlen. lia.
    + intros Hr. apply Hlater; [done|]. intros d' _.
      by apply match_after_at_None.
  - intros Hr. apply Hlater; [done|]. intros d' ->. done.
Qed.

Lemma leftmost_domain_unique s d1 d2 :
  leftmost_domain s d1 → leftmost_domain s d2 → d1 = d2.
Proof.
  intros (p1 & r1 & E1 & A1 & M1) (p2 & r2 & E2 & A2 & M2).
  destruct (lt_eq_lt_dec (String.length p1) (String.length p2)) as [[L|L]|L].
  - by destruct (M2 _ _ _ E1 L A1).
  - assert (p1 = p2 ∧ r1 = r2) as [-> ->].
    { clear -E1 E2 L. subst s. revert p2 E2 L.
      induction p1 as [|c p1 IH]; intros [|c2 p2]; try done.
      - intros [= <-]. done.
      - rewrite !append_cons. intros [= <- E] [= L].
        by destruct (IH _ E L) as [-> ->]. }
    apply match_after_at_spec in A1, A2. congruence.
  - by destruct (M1 _ _ _ E2 L A2).
Qed.

Lemma regex_match_None s :
  regex_match s = None → ∀ pre rest d, s = pre +:+ String "@" rest → ¬ accepts rest d.
Proof.
  induction s as [|c r IH]; cbn.
  - intros _ [|??] ??; done.
  - intros H [|c' pre] rest d.
    + change ("" +:+ String "@" rest) with (String "@" rest). intros [= -> <-].
      cbn in H. destruct (match_after_at r) eqn:E; [done|].
      by apply match_after_at_None.
    + rewrite append_cons. intros [= <- E]. apply (IH) with (pre := pre); [|done].
      destruct (Ascii.eqb c "@"); [|done]. by destruct (match_after_at r).
Qed.

Lemma regex_match_spec s d : regex_match s = Some d ↔ leftmost_domain s d.
Proof.
  split; [apply regex_match_sound|].
  intros H. destruct (regex_match s) as [d0|] eqn:E.
  - f_equal. eapply leftmost_domain_unique; [|done]. by apply regex_match_sound.
  - destruct H as (pre & rest & Hs & Had & _).
    by destruct (regex_match_None s E pre rest d Hs).
Qed.

Lemma join_cons2 sep p q rest :
  Js.join sep (p :: q :: rest) = p +:+ sep +:+ Js.join sep (q :: rest).
Proof. reflexivity. Qed.

Lemma split_nonempty sep x : Js.split sep x ≠ [].
Proof.
  destruct x as [|c r]; cbn; [done|].
  destruct (Ascii.eqb c sep); [done|]. by destruct (Js.split sep r).
Qed.

Lemma split_join sep x : Js.join (String sep "") (Js.split sep x) = x.
Proof.
  induction x as [|c r IH]; [done|]. cbn [Js.split].
  pose proof (split_nonempty sep r) as Hne.
  destruct (Ascii.eqb_spec c sep) as [->|Hc].
  - destruct (Js.split sep r) as [|h t]; [done|].
    rewrite join_cons2, IH. done.
  - destruct (Js.split sep r) as [|h [|h2 t]]; [done| |].
    + cbn in IH |- *. by rewrite IH.
    + rewrite join_cons2 in IH |- *. rewrite append_cons. by rewrite IH.
Qed.

Lemma split_Forall_free sep x : Forall (free sep) (Js.split sep x).
Proof.
  induction x as [|c r IH]; cbn [Js.split].
  - repeat constructor. apply free_nil.
  - destruct (Ascii.eqb_spec c sep) as [->|Hc].
    + constructor; [apply free_nil | done].
    + destruct (Js.split sep r) as [|h t].
      * repeat constructor. apply free_cons. split; [done | apply free_nil].
      * inversion_clear IH. constructor; [|done]. by apply free_cons.
Qed.

Lemma split_free sep l : free sep l → Js.split sep l = [l].
Proof.
  induction l as [|c l IH]; [done|]. intros [Hc Hl]%free_cons.
  cbn [Js.split]. destruct (Ascii.eqb_spec c sep); [done|]. by rewrite IH.
Qed.

Lemma split_append sep l y :
  free sep l → Js.split sep (l +:+ String sep y) = l :: Js.split sep y.
Proof.
  induction l as [|c l IH].
  - intros _. change ("" +:+ String sep y) with (String sep y).
    cbn [Js.split]. by rewrite Ascii.eqb_refl.
  - intros [Hc Hl]%free_cons. rewrite append_cons. cbn [Js.split].
    destruct (Ascii.eqb_spec c sep); [done|]. by rewrite IH.
Qed.

Lemma labels_of_split x ls : labels_of x ls ↔ ls = Js.split "." x.
Proof.
  split.
  - intros (Hne & Hfree & <-).
    induction ls as [|l rest IH]; [done|]. clear Hne.
    inversion_clear Hfree. destruct rest as [|l2 rest].
    + cbn. by rewrite split_free.
    + rewrite join_cons2.
      change ("." +:+ ?y) with (String "." y).
      rewrite split_append by done. f_equal. by apply IH.
  - intros ->. split; [apply split_nonempty|].
    split; [apply split_Forall_free | apply split_join].
Qed.

Lemma first_label_chosen ls c : first_label ls = Some c ↔ chosen_label ls c.
Proof.
  unfold first_label, chosen_label.
  destruct (decide (2 < length ls)); by destruct ls as [|? [|??]].
Qed.

Lemma first_label_split x : is_Some (first_label (Js.split "." x)).
Proof.
  pose proof (split_nonempty "." x) as Hne. unfold first_label.
  destruct (Js.split "." x) as [|a [|b [|c l]]]; cbn; try done; eauto.
Qed.

Lemma extractCompanyFromEmail_Some sender c :
  extractCompanyFromEmail sender = Some c ↔ derives sender c.
Proof.
  unfold extractCompanyFromEmail, derives. split.
  - destruct (regex_match sender) as [d|] eqn:E; [|done]. intros Hc.
    exists d, (Js.split "." (Js.toLowerCase d)).
    split; [by apply regex_match_spec|].
    split; [by apply labels_of_split | by apply first_label_chosen].
  - intros (d & ls & Hd%regex_match_spec & ->%labels_of_split & Hc).
    rewrite Hd. by apply first_label_chosen.
Qed.

Lemma extractCompanyFromEmail_None sender :
  extractCompanyFromEmail sender = None ↔ ∀ d, ¬ leftmost_domain sender d.
Proof.
  unfold extractCompanyFromEmail. split.
  - destruct (regex_match sender) as [d|] eqn:E.
    + intros Hn. destruct (first_label_split (Js.toLowerCase d)). congruence.
    + intros _ d Hd%regex_match_spec. congruence.
  - intros H. destruct (regex_match sender) as [d|] eqn:E; [|done].
    apply regex_match_spec in E. by destruct (H d).
Qed.

Lemma no_at_no_company sender :
  free "@" sender → extractCompanyFromEmail sender = None.
Proof.
  intros H. apply extractCompanyFromEmail_None.
  intros d (pre & rest & E & _). by apply (H pre rest).
Qed.

Lemma free_append x a b : free x (a +:+ b) ↔ free x a ∧ free x b.
Proof.
  induction a as [|c a IH].
  - change ("" +:+ b) with b. split; [|by intros [_ ?]].
    intros H. split; [apply free_nil | done].
  - rewrite append_cons, !free_cons, IH. tauto.
Qed.

Lemma after_last_at_free s : free "@" s → after_last_at s = None.
Proof.
  induction s as [|c s IH]; [done|]. intros [Hc Hs]%free_cons. cbn.
  rewrite (IH Hs). by destruct (Ascii.eqb_spec c "@").
Qed.

Lemma after_last_at_append pre rest :
  free "@" rest → after_last_at (pre +:+ String "@" rest) = Some rest.
Proof.
  intros Hr. induction pre as [|c pre IH].
  - change ("" +:+ String "@" rest) with (String "@" rest). cbn.
    by rewrite (after_last_at_free rest Hr).
  - rewrite append_cons. cbn. by rewrite IH.
Qed.

Lemma strip_trailing_bracket_free d :
  free ">" d → strip_trailing_bracket d = d.
Proof.
  induction d as [|c d IH]; [done|]. intros [Hc Hd]%free_cons. cbn.
  destruct d as [|c' d']; [by destruct (Ascii.eqb_spec c ">")|].
  by rewrite (IH Hd).
Qed.

Lemma strip_trailing_bracket_append d :
  strip_trailing_bracket (d +:+ ">") = d.
Proof.
  induction d as [|c d IH]; [done|]. rewrite append_cons. cbn.
  rewrite IH. destruct d; [done|]. by rewrite append_cons.
Qed.

Lemma earlier_occurrence x pre rest pre' rest' :
  pre +:+ String x rest = pre' +:+ String x rest' →
  String.length pre' < String.length pre → ¬ free x pre.
Proof.
  revert pre'. induction pre as [|c pre IH]; intros pre' E Hlen Hfree.
  - cbn in Hlen. lia.
  - apply free_cons in Hfree as [Hc Hfree]. destruct pre' as [|c' pre'].
    + change ("" +:+ String x rest') with (String x rest') in E.
      rewrite append_cons in E. by injection E as -> _.
    + rewrite !append_cons in E. injection E as _ E. cbn in Hlen.
      apply (IH pre' E); [lia | done].
Qed.

(** On a sender with a single ['@'], followed by a non-empty domain
    without brackets and an optional closing bracket, the code and the
    rule of the specification agree. *)
Lemma company_spec_agrees_on_single_at pre d tl :
  free "@" pre → free "@" d → free ">" d → d ≠ "" → tl = "" ∨ tl = ">" →
  extractCompanyFromEmail (pre +:+ String "@" (d +:+ tl))
  = company_spec (pre +:+ String "@" (d +:+ tl)).
Proof.
  intros Hpre Hat Hgt Hne Htl.
  assert (regex_match (pre +:+ String "@" (d +:+ tl)) = Some d) as Hcode.
  { apply regex_match_spec. exists pre, (d +:+ tl). split; [done|]. split.
    - split; [done|]. split; [done|].
      destruct Htl as [-> | ->]; [left; apply append_empty_r | by right].
    - intros pre' rest' d' E Hlen _.
      by apply (earlier_occurrence _ _ _ _ _ E Hlen). }
  unfold extractCompanyFromEmail, company_spec. rewrite Hcode.
  rewrite after_last_at_append.
  - destruct Htl as [-> | ->].
    + by rewrite append_empty_r, strip_trailing_bracket_free.
    + by rewrite strip_trailing_bracket_append.
  - apply free_append. split; [done|].
    destruct Htl as [-> | ->]; [apply free_nil|].
    apply free_cons. split; [done | apply free_nil].
Qed.

(** ** [db.ts], case by case *)

Lemma execute_InsertMemory_fresh id userId content t db :
  id ∉ (m_id <$> memories db) →
  execute (InsertMemory id userId content) t db
  = inr (ran 1,
         {| memories := memories db ++
              [{| m_id := id; m_userId := userId; m_content := content;
                  m_created_at := t |}];
            emails := emails db |}).
Proof. intros H. cbn. by rewrite bool_decide_eq_false_2. Qed.

Lemma execute_InsertMemory_taken id userId content t db :
  id ∈ (m_id <$> memories db) →
  execute (InsertMemory id userId content) t db
  = inl "UNIQUE constraint failed: memories.id".
Proof. intros H. cbn. by rewrite bool_decide_eq_true_2. Qed.

Lemma storeMemoryInD1_fails content userId memoryId w :
  is_Some (outage w (calls w)) ∨ memoryId ∈ (m_id <$> memories (DB w)) →
  ∃ msg,
    storeMemoryInD1 content userId memoryId w
    = (Throw (D1Error msg),
       record_event (ConsoleError "Error storing memory in D1:" (D1Error msg))
         (record_event (Call (D1 (InsertMemory memoryId userId content))) w)).
Proof.
  intros H. unfold storeMemoryInD1.
  destruct (outage w (calls w)) as [msg|] eqn:Hout.
  - exists msg. unfold_step. by rewrite (DB_run_down _ _ _ Hout).
  - destruct H as [[? [=]]|Hin]. eexists. unfold_step.
    by rewrite (DB_run_rejected _ _ _ Hout
                  (execute_InsertMemory_taken _ _ _ _ _ Hin)).
Qed.

Lemma storeMemoryInD1_ok content userId memoryId w :
  outage w (calls w) = None →
  memoryId ∉ (m_id <$> memories (DB w)) →
  storeMemoryInD1 content userId memoryId w
  = (Return memoryId,
     with_DB {| memories := memories (DB w) ++
                  [{| m_id := memoryId; m_userId := userId;
                      m_content := content; m_created_at := now w |}];
                emails := emails (DB w) |}
       (record_event (Call (D1 (InsertMemory memoryId userId content))) w)).
Proof.
  intros Hout Hfresh. unfold storeMemoryInD1. unfold_step.
  by rewrite (DB_run_ok _ _ _ _ Hout
                (execute_InsertMemory_fresh _ _ _ _ _ Hfresh)).
Qed.

Lemma deleteMemoryFromD1_ok memoryId userId w :
  outage w (calls w) = None →
  deleteMemoryFromD1 memoryId userId w
  = (Return (),
     with_DB {| memories := filter (λ row, targets memoryId userId row = false)
                                   (memories (DB w));
                emails := emails (DB w) |}
       (record_event (Call (D1 (DeleteMemory memoryId userId))) w)).
Proof.
  intros Hout. unfold deleteMemoryFromD1. unfold_step.
  by rewrite (DB_run_ok (DeleteMemory memoryId userId) w _ _ Hout eq_refl).
Qed.

Section untargeted.
Context (id userId : string) (rows : list MemoryRow).
Hypothesis miss : ∀ row, row ∈ rows → targets id userId row = false.

Lemma untargeted_none :
  filter (λ row, targets id userId row = true) rows = [].
Proof using miss.
  induction rows as [|r l IH]; [done|].
  rewrite filter_cons, decide_False.
  - apply IH. intros row Hin. apply miss. by right.
  - rewrite miss; [done | by left].
Qed.

Lemma untargeted_all :
  filter (λ row, targets id userId row = false) rows = rows.
Proof using miss.
  induction rows as [|r l IH]; [done|].
  rewrite filter_cons, decide_True.
  - f_equal. apply IH. intros row Hin. apply miss. by right.
  - apply miss. by left.
Qed.

Lemma untargeted_update (content : string) :
  updated content id userId rows = rows.
Proof using miss.
  unfold updated. induction rows as [|r l IH]; [done|].
  cbn. rewrite miss by (by left). f_equal.
  apply IH. intros row Hin. apply miss. by right.
Qed.
End untargeted.

Lemma updateMemoryInD1_miss memoryId userId newContent w :
  outage w (calls w) = None →
  (∀ row, row ∈ memories (DB w) → targets memoryId userId row = false) →
  updateMemoryInD1 memoryId userId newContent w
  = (Throw (JsError (not_found_message memoryId userId)),
     record_event (ConsoleError "Error updating memory in D1:"
                     (JsError (not_found_message memoryId userId)))
       (record_event (Call (D1 (UpdateMemory newContent memoryId userId))) w)).
Proof.
  intros Hout Hmiss. unfold updateMemoryInD1. unfold_step.
  rewrite (DB_run_ok (UpdateMemory newContent memoryId userId) w _ _
             Hout eq_refl).
  cbv beta iota.
  rewrite (untargeted_none _ _ _ Hmiss), (untargeted_update _ _ _ Hmiss).
  cbn [length ran meta]. cbv beta iota.
  replace {| memories := memories (DB w); emails := emails (DB w) |}
    with (DB w) by by destruct (DB w).
  by rewrite with_DB_record_event.
Qed.

(** ** [vectorize.ts], case by case *)

Lemma VEC_write_ok c f w :
  outage w (calls w) = None →
  VEC_write c f w
  = (Return (), with_VECTORIZE (f (VECTORIZE w)) (record_event (Call c) w)).
Proof.
  intros H. unfold VEC_write. unfold_step. by rewrite (round_trip_ok _ _ _ H).
Qed.

Lemma VEC_write_down c f w msg :
  outage w (calls w) = Some msg →
  VEC_write c f w = (Throw (VectorizeError msg), record_event (Call c) w).
Proof.
  intros H. unfold VEC_write. unfold_step.
  by rewrite (round_trip_down _ _ _ _ H).
Qed.

(** A failed index step has changed neither store, and has sent nothing to
    the database. *)
Lemma VEC_write_Throw c f w e w' :
  VEC_write c f w = (Throw e, w') →
  DB w' = DB w ∧ VECTORIZE w' = VECTORIZE w
  ∧ journal w' = journal w ++ [Call c].
Proof.
  unfold VEC_write, bind, round_trip.
  destruct (outage w (calls w)); [|done]. by intros [= <- <-].
Qed.

Lemma deleteVectorById_Throw memoryId userId w e w' :
  deleteVectorById memoryId userId w = (Throw e, w') →
  DB w' = DB w ∧ VECTORIZE w' = VECTORIZE w
  ∧ journal w' = journal w ++ [Call (VEC_deleteByIds memoryId userId)].
Proof. apply VEC_write_Throw. Qed.

Lemma deleteVectorById_DB memoryId userId w :
  DB (deleteVectorById memoryId userId w).2 = DB w.
Proof.
  unfold deleteVectorById, VEC_write, bind, round_trip.
  by destruct (outage w (calls w)).
Qed.

Lemma updateMemoryVector_Throw memoryId newContent userId w e w' :
  updateMemoryVector memoryId newContent userId w = (Throw e, w') →
  DB w' = DB w ∧ VECTORIZE w' = VECTORIZE w
  ∧ ∃ evs, journal w' = journal w ++ evs ∧ store_queries evs = [].
Proof.
  unfold updateMemoryVector. unfold_step. unfold round_trip at 1.
  destruct (outage w (calls w)) as [msg|].
  - intros [= <- <-]. do 2 (split; [done|]). by eexists [_].
  - cbv beta iota. intros (HD & HV & HJ)%VEC_write_Throw.
    revert HD HV HJ. observe. intros -> -> ->.
    do 2 (split; [done|]). eexists [_; _]. by rewrite <- app_assoc.
Qed.

Lemma storeMemory_embedding_down text userId metadata memoryId w msg :
  outage w (calls w) = Some msg →
  storeMemory text userId metadata memoryId w
  = (Throw (AIError msg), record_event (Call (AI_embed text)) w).
Proof.
  intros H. unfold storeMemory. unfold_step.
  by rewrite (round_trip_down _ _ _ _ H).
Qed.

Lemma storeMemory_upsert_down text userId metadata memoryId w msg :
  outage w (calls w) = None →
  outage w (S (calls w)) = Some msg →
  storeMemory text userId metadata memoryId w
  = (Throw (VectorizeError msg),
     record_event
       (Call (VEC_upsert {| v_id := memoryId; v_namespace := userId;
                            v_text := text; v_metadata := metadata |}))
       (record_event (Call (AI_embed text)) w)).
Proof.
  intros H0 H1. unfold storeMemory. unfold_step.
  rewrite (round_trip_ok _ _ _ H0). cbv beta iota. unfold_step.
  by rewrite VEC_write_down with (msg := msg).
Qed.

Lemma storeMemory_ok text userId metadata memoryId w :
  outage w (calls w) = None →
  outage w (S (calls w)) = None →
  storeMemory text userId metadata memoryId w
  = (Return memoryId,
     let entry := {| v_id := memoryId; v_namespace := userId;
                     v_text := text; v_metadata := metadata |} in
     with_VECTORIZE (upsert entry (VECTORIZE w))
       (record_event (Call (VEC_upsert entry))
          (record_event (Call (AI_embed text)) w))).
Proof.
  intros H0 H1. unfold storeMemory. unfold_step.
  rewrite (round_trip_ok _ _ _ H0). cbv beta iota. unfold_step.
  by rewrite VEC_write_ok.
Qed.

(** ** Structured create *)

Lemma POST_emails_relays_failure userId json uuidv4 w e w' :
  complete json →
  storeEmailMemory (as_EmailData json) userId uuidv4 w = (Throw e, w') →
  POST_emails userId (JsonObject json) uuidv4 w
  = (Return {| status := 500; json := Failure "Failed to store email" |},
     record_event (ConsoleError "Error storing email" e) w').
Proof.
  intros (Hs & Hb & Hf) E. unfold POST_emails. rewrite Hs, Hb, Hf.
  cbn [negb orb]. cbv iota. unfold_step. by rewrite E.
Qed.

(** C1. Structured create under partial failure. If the write of the
    content row fails, [storeEmailMemory] throws a D1 error, both stores
    are as before and the only round trip attempted is that [INSERT] (no
    embedding, no upsert, no structured row). If the content row is
    written and the embedding or the upsert then fails, that error is
    thrown to the caller, the content row stays in [memories], the index
    is as before and no row is written to [emails]. Whatever
    [storeEmailMemory] throws, the handler logs it and answers 500. *)
Theorem C1_create_failure_policy (email : EmailData) (userId uuidv4 : string)
    (w : Env) :
  (content_write_fails w uuidv4 →
   ∃ msg text w' evs,
     storeEmailMemory email userId uuidv4 w = (Throw (D1Error msg), w')
     ∧ DB w' = DB w
     ∧ VECTORIZE w' = VECTORIZE w
     ∧ since w w' evs
     ∧ round_trips evs = [D1 (InsertMemory uuidv4 userId text)])
  ∧ (index_step_fails w uuidv4 →
     ∃ e text w' evs,
       storeEmailMemory email userId uuidv4 w = (Throw e, w')
       ∧ ((∃ msg, e = AIError msg) ∨ (∃ msg, e = VectorizeError msg))
       ∧ memories (DB w')
         = memories (DB w) ++ [{| m_id := uuidv4; m_userId := userId;
                                  m_content := text;
                                  m_created_at := now w |}]
       ∧ emails (DB w') = emails (DB w)
       ∧ VECTORIZE w' = VECTORIZE w
       ∧ since w w' evs
       ∧ store_queries evs = [InsertMemory uuidv4 userId text])
  ∧ (∀ json e w',
       complete json → as_EmailData json = email →
       storeEmailMemory email userId uuidv4 w = (Throw e, w') →
       POST_emails userId (JsonObject json) uuidv4 w
       = (Return {| status := 500; json := Failure "Failed to store email" |},
          record_event (ConsoleError "Error storing email" e) w')).
Proof.
  split; [|split];
    [| |by intros json e w' Hc <-; apply POST_emails_relays_failure].
  - intros Hfail. unfold storeEmailMemory. cbv zeta. unfold_step.
    match goal with
    | |- context [storeMemoryInD1 ?t userId uuidv4 w] =>
        destruct (storeMemoryInD1_fails t userId uuidv4 w Hfail) as [msg E];
        rewrite E; exists msg, t
    end.
    eexists _, [_; _]. split; [reflexivity|]. unfold since. observe.
    by rewrite <- app_assoc.
  - intros (Hout & Hfresh & Hidx). unfold storeEmailMemory. cbv zeta.
    unfold_step.
    match goal with
    | |- context [storeMemoryInD1 ?t userId uuidv4 w] =>
        rewrite (storeMemoryInD1_ok t userId uuidv4 w Hout Hfresh);
        cbv beta iota; set (text := t)
    end.
    unfold_step.
    destruct (outage w (S (calls w))) as [msg|] eqn:Hai.
    + rewrite storeMemory_embedding_down with (msg := msg) by done.
      exists (AIError msg), text. eexists _, [_; _].
      split; [reflexivity|]. unfold since. observe.
      split; [eauto|]. by rewrite <- app_assoc.
    + destruct Hidx as [[? [=]]|[msg Hup]].
      rewrite storeMemory_upsert_down with (msg := msg) by done.
      exists (VectorizeError msg), text. eexists _, [_; _; _].
      split; [reflexivity|]. unfold since. observe.
      split; [eauto|]. by rewrite <- !app_assoc.
Qed.

(** ** Update and delete of a generic memory *)

Lemma updateMemoryInD1_Return memoryId userId newContent w w1 :
  updateMemoryInD1 memoryId userId newContent w = (Return (), w1) →
  DB w1 = {| memories := updated newContent memoryId userId (memories (DB w));
             emails := emails (DB w) |}
  ∧ VECTORIZE w1 = VECTORIZE w.
Proof.
  unfold updateMemoryInD1, DB_run, round_trip, console_error, throw, ret,
    try_catch, bind.
  cbv beta. destruct (outage w (calls w)); cbn; [done|].
  destruct (length _); [done|]. by intros [= <-].
Qed.

Lemma deleteMemoryFromD1_Return memoryId userId w w1 :
  deleteMemoryFromD1 memoryId userId w = (Return (), w1) →
  DB w1 = {| memories := filter (λ row, targets memoryId userId row = false)
                                (memories (DB w));
             emails := emails (DB w) |}
  ∧ VECTORIZE w1 = VECTORIZE w.
Proof.
  unfold deleteMemoryFromD1, DB_run, round_trip, console_error, throw, ret,
    try_catch, bind.
  cbv beta. destruct (outage w (calls w)); cbn; [done|]. by intros [= <-].
Qed.

(** C4. Update and delete of a generic memory when the Content Store step
    succeeds and the Vector Index step fails: the handler logs the failure
    with [console.error], still answers 200 with [success: true], the
    database is exactly as the Content Store step left it (the content
    updated, respectively the row gone) and the index is as before. *)
Theorem C4_index_failure_is_swallowed (userId memoryId : string) :
  (∀ text w w1 e w2,
     Js.trim text ≠ "" →
     updateMemoryInD1 memoryId userId (Js.trim text) w = (Return (), w1) →
     updateMemoryVector memoryId (Js.trim text) userId w1 = (Throw e, w2) →
     ∃ w' line,
       PUT_memory userId memoryId (JsonObject {| content := Some text |}) w
       = (Return {| status := 200; json := Success |}, w')
       ∧ DB w' = DB w1
       ∧ memories (DB w')
         = updated (Js.trim text) memoryId userId (memories (DB w))
       ∧ VECTORIZE w' = VECTORIZE w
       ∧ ConsoleError line e ∈ journal w')
  ∧ (∀ w w1 e w2,
       deleteMemoryFromD1 memoryId userId w = (Return (), w1) →
       deleteVectorById memoryId userId w1 = (Throw e, w2) →
       ∃ w' line,
         DELETE_memory userId memoryId w
         = (Return {| status := 200; json := Success |}, w')
         ∧ DB w' = DB w1
         ∧ absent w' memoryId userId
         ∧ VECTORIZE w' = VECTORIZE w
         ∧ ConsoleError line e ∈ journal w').
Proof.
  split.
  - intros text w w1 e w2 Htrim Hd1 Hvec.
    unfold PUT_memory. cbn [content]. rewrite bool_decide_eq_false_2 by done.
    unfold_step. rewrite Hd1. cbv beta iota. unfold_step. rewrite Hvec.
    cbv beta iota.
    destruct (updateMemoryVector_Throw _ _ _ _ _ _ Hvec) as (HD & HV & _).
    destruct (updateMemoryInD1_Return _ _ _ _ _ Hd1) as (HD1 & HV1).
    eexists _, _. split; [reflexivity|]. observe.
    rewrite HD, HV, HV1, HD1. repeat split.
    apply elem_of_app. right. constructor.
  - intros w w1 e w2 Hd1 Hvec.
    unfold DELETE_memory. unfold_step. rewrite Hd1. cbv beta iota.
    unfold_step. rewrite Hvec. cbv beta iota.
    destruct (deleteVectorById_Throw _ _ _ _ _ Hvec) as (HD & HV & _).
    destruct (deleteMemoryFromD1_Return _ _ _ _ Hd1) as (HD1 & HV1).
    eexists _, _. split; [reflexivity|]. unfold absent. observe.
    rewrite HD, HV, HV1, HD1. repeat split.
    + intros row [Hrow _]%list_elem_of_filter. done.
    + apply elem_of_app. right. constructor.
Qed.

(** C5. An update whose (id, owner) pair matches no row of [memories]: the
    [UPDATE] runs and reports zero changes, the handler answers 404 with
    the not-found message, both stores are as before, and the only round
    trip is that [UPDATE] (no embedding request, no upsert). *)
Theorem C5_update_of_missing_is_404 (userId memoryId text : string) (w : Env) :
  Js.trim text ≠ "" →
  outage w (calls w) = None →
  absent w memoryId userId →
  ∃ w' evs,
    PUT_memory userId memoryId (JsonObject {| content := Some text |}) w
    = (Return {| status := 404;
                 json := Failure (not_found_message memoryId userId) |}, w')
    ∧ DB w' = DB w
    ∧ VECTORIZE w' = VECTORIZE w
    ∧ since w w' evs
    ∧ round_trips evs = [D1 (UpdateMemory (Js.trim text) memoryId userId)].
Proof.
  intros Htrim Hout Hmiss.
  unfold PUT_memory. cbn [content]. rewrite bool_decide_eq_false_2 by done.
  unfold_step. rewrite (updateMemoryInD1_miss _ _ _ _ Hout Hmiss).
  cbv beta iota. unfold_step. unfold console_error at 1. cbv beta iota.
  cbn [message]. rewrite not_found_message_truthy, not_found_message_includes.
  eexists _, [_; _; _]. split; [reflexivity|]. unfold since. observe.
  by rewrite <- !app_assoc.
Qed.

(** C6, as amended. A delete whose (id, owner) pair matches no row of
    [memories], the [DELETE] statement itself going through, is answered
    200 with [success: true], and the database is as before. *)
Theorem C6_delete_of_missing_reports_success (userId memoryId : string)
    (w : Env) :
  absent w memoryId userId →
  outage w (calls w) = None →
  ∃ w',
    DELETE_memory userId memoryId w
    = (Return {| status := 200; json := Success |}, w')
    ∧ DB w' = DB w.
Proof.
  intros Hmiss Hout. unfold DELETE_memory. unfold_step.
  rewrite (deleteMemoryFromD1_ok _ _ _ Hout). cbv beta iota. unfold_step.
  rewrite (untargeted_all _ _ _ Hmiss).
  match goal with
  | |- context [deleteVectorById memoryId userId ?w1] =>
      pose proof (deleteVectorById_DB memoryId userId w1) as HD;
      destruct (deleteVectorById memoryId userId w1) as [[[]|e] w2]
  end; cbv beta iota; (eexists; split; [reflexivity|]);
    revert HD; cbn; intros ->; by destruct (DB w).
Qed.

(** ** Validation *)

(** C9. A structured-create request without a non-empty subject, body or
    sender is answered 400 and the environment is the very same: nothing
    was sent, written or logged. An update request whose content is
    missing or empty after trimming is answered 400 with both stores as
    before and no round trip made. *)
Theorem C9_validation_precedes_side_effects (userId memoryId uuidv4 : string)
    (w : Env) :
  (∀ request, lacks_required request →
     ∃ error,
       POST_emails userId request uuidv4 w
       = (Return {| status := 400; json := Failure error |}, w))
  ∧ (∀ request, lacks_content request →
       ∃ error w',
         PUT_memory userId memoryId request w
         = (Return {| status := 400; json := Failure error |}, w')
         ∧ untouched w w').
Proof.
  split.
  - intros [e| |email] Hlack; cbn; [by eexists..|].
    cbn in Hlack. eexists.
    destruct Hlack as [-> | [-> | ->]]; cbn [negb orb]; rewrite ?orb_true_r;
      reflexivity.
  - intros [e| |[[text|]]] Hlack; cbn in Hlack |- *.
    + eexists _, _. split; [reflexivity|]. unfold untouched. observe.
      repeat split. unfold round_trips. rewrite omap_app. cbn.
      by rewrite app_nil_r.
    + by eexists _, _.
    + rewrite bool_decide_eq_true_2 by done. by eexists _, _.
    + by eexists _, _.
Qed.

(** ** Batched metadata and merged search *)


(** [company && ...] with a falsy [company]: the comparison is skipped. *)
Lemma merge_hit_falsy_filter m :
  merge_hit m (Some "") = merge_hit m None.
Proof. reflexivity. Qed.

Lemma merge_hit_with_filter m v x :
  v ≠ "" →
  merge_hit m (Some v) x =
  match merge_hit m None x with
  | Some h => if decide (js_company (hit_meta h) = Some v) then Some h else None
  | None => None
  end.
Proof.
  intros Hv. unfold merge_hit. rewrite (truthy_nonempty v Hv). simpl.
  destruct (js_truthy (js_get m (vm_id x))); simpl; [|done].
  by destruct (decide (js_company (js_get m (vm_id x)) = Some v)) as [E|E];
    [rewrite bool_decide_eq_true_2|rewrite bool_decide_eq_false_2].
Qed.

Lemma merge_hit_filter m v (l : list VectorMatch) :
  v ≠ "" →
  omap (merge_hit m (Some v)) l
  = filter (λ h, js_company (hit_meta h) = Some v) (omap (merge_hit m None) l).
Proof.
  intros Hv. induction l as [|x l IH]; [done|].
  cbn [omap list_omap]. rewrite (merge_hit_with_filter m v x Hv).
  destruct (merge_hit m None x) as [h|]; [|exact IH].
  rewrite filter_cons. destruct (decide _); [f_equal|]; exact IH.
Qed.

Lemma merge_hit_scores m c (l : list VectorMatch) :
  hit_score <$> omap (merge_hit m c) l `sublist_of` vm_score <$> l.
Proof.
  induction l as [|x l IH]; [done|].
  cbn [omap list_omap]. unfold merge_hit at 1.
  destruct (negb _); [by apply sublist_cons|].
  destruct (_ && _); [by apply sublist_cons|].
  cbn. by apply sublist_skip.
Qed.

Lemma searchMemories_Return query userId w vr w1 :
  searchMemories query userId w = (Return vr, w1) →
  vr = nearest w query userId (VECTORIZE w)
  ∧ DB w1 = DB w ∧ VECTORIZE w1 = VECTORIZE w.
Proof.
  unfold searchMemories, round_trip, bind. cbv beta.
  destruct (outage w (calls w)); [done|]. observe.
  destruct (outage w (S (calls w))); [done|]. observe. by intros [= <- <-].
Qed.

Lemma searchEmailMemories_eq query userId company w :
  searchEmailMemories query userId company w =
  match searchMemories query userId w with
  | (Return vr, w1) =>
      match getEmailsMetadata (vm_id <$> vr) userId w1 with
      | (Return m, w2) => (Return (omap (merge_hit m company) vr), w2)
      | (Throw e, w2) => (Throw e, w2)
      end
  | (Throw e, w1) => (Throw e, w1)
  end.
Proof.
  unfold searchEmailMemories. rewrite bind_eq.
  destruct (searchMemories query userId w) as [[vr|e] w1]; [|done].
  rewrite bind_eq.
  by destruct (getEmailsMetadata _ userId w1) as [[m|e] w2].
Qed.

(** C3. Search with a non-empty company filter, against the same search
    without filter: both fail alike or both return, leaving the same
    environment; the filtered list is the unfiltered one with exactly the
    hits of another company removed, so it is a sublist of it (nothing is
    re-sorted), every hit it keeps has the filter's company, and every
    unfiltered hit with that company is kept. The unfiltered scores run in
    the order in which the index returned them. *)
Theorem C3_filter_selects_in_order (query userId v : string) (w : Env) :
  v ≠ "" →
  match searchEmailMemories query userId None w with
  | (Throw e, w') =>
      searchEmailMemories query userId (Some v) w = (Throw e, w')
  | (Return merged, w') =>
      ∃ kept,
        searchEmailMemories query userId (Some v) w = (Return kept, w')
        ∧ kept = filter (λ h, js_company (hit_meta h) = Some v) merged
        ∧ kept `sublist_of` merged
        ∧ (∀ h, h ∈ kept → js_company (hit_meta h) = Some v)
        ∧ (∀ h, h ∈ merged → js_company (hit_meta h) = Some v → h ∈ kept)
        ∧ hit_score <$> merged
          `sublist_of` vm_score <$> nearest w query userId (VECTORIZE w)
  end.
Proof.
  intros Hv. rewrite !searchEmailMemories_eq.
  destruct (searchMemories query userId w) as [[vr|e] w1] eqn:Hs; [|done].
  destruct (getEmailsMetadata _ userId w1) as [[m|e] w2]; [|done].
  eexists. split; [reflexivity|].
  rewrite (merge_hit_filter m v vr Hv).
  split; [done|]. split; [apply sublist_filter|].
  split; [by intros h [? _]%list_elem_of_filter|].
  split; [intros h ??; by apply list_elem_of_filter|].
  destruct (searchMemories_Return _ _ _ _ _ Hs) as (<- & _).
  apply merge_hit_scores.
Qed.

(** C10. Search with the company filter set to the empty string is search
    without filter: same outcome (result list or error), same
    environment afterwards. *)
Theorem C10_empty_filter_is_no_filter (query userId : string) (w : Env) :
  searchEmailMemories query userId (Some "") w
  = searchEmailMemories query userId None w.
Proof.
  rewrite !searchEmailMemories_eq.
  destruct (searchMemories query userId w) as [[vr|e] w1]; [|done].
  destruct (getEmailsMetadata _ userId w1) as [[m|e] w2]; [|done].
  by rewrite (merge_hit_falsy_filter m).
Qed.

(** ** Structured create, the successful path *)

Lemma healthy_4 w :
  healthy w 4 →
  outage w (calls w) = None ∧ outage w (S (calls w)) = None
  ∧ outage w (S (S (calls w))) = None
  ∧ outage w (S (S (S (calls w)))) = None.
Proof.
  intros H.
  pose proof (H 0 ltac:(lia)) as H0. pose proof (H 1 ltac:(lia)) as H1.
  pose proof (H 2 ltac:(lia)) as H2. pose proof (H 3 ltac:(lia)) as H3.
  replace (calls w + 0) with (calls w) in H0 by lia.
  replace (calls w + 1) with (S (calls w)) in H1 by lia.
  replace (calls w + 2) with (S (S (calls w))) in H2 by lia.
  replace (calls w + 3) with (S (S (S (calls w)))) in H3 by lia.
  done.
Qed.

(** With four healthy round trips ahead and a fresh identifier, a
    structured create returns the identifier and appends one row to
    [emails], whose company column is the supplied company if non-empty,
    else the derived one, else the empty string. *)
Lemma storeEmailMemory_ok (email : EmailData) (userId uuidv4 : string) (w : Env) :
  healthy w 4 →
  uuidv4 ∉ m_id <$> memories (DB w) →
  uuidv4 ∉ r_id <$> emails (DB w) →
  ∃ w',
    storeEmailMemory email userId uuidv4 w = (Return uuidv4, w')
    ∧ emails (DB w')
      = emails (DB w) ++
        [{| r_id := uuidv4; r_userId := userId; r_memoryId := uuidv4;
            r_sender := sender email;
            r_recipients := Js.nullish (Js.join "," <$> recipients email) "";
            r_subject := subject email;
            r_date := Js.nullish (date email) "";
            r_company :=
              Js.nullish (Js.or_else (company email)
                            (extractCompanyFromEmail (sender email))) "";
            r_messageId := Js.nullish (messageId email) "";
            r_inReplyTo := Js.nullish (inReplyTo email) "";
            r_created_at := now w |}].
Proof.
  intros (H0 & H1 & H2 & H3)%healthy_4 Hm He.
  unfold storeEmailMemory. cbv zeta. unfold_step.
  match goal with
  | |- context [storeMemoryInD1 ?t userId uuidv4 w] =>
      rewrite (storeMemoryInD1_ok t userId uuidv4 w H0 Hm)
  end.
  cbv beta iota. unfold_step.
  rewrite storeMemory_ok by done. cbv beta iota zeta. unfold_step.
  match goal with
  | |- context [DB_run ?stmt ?w3] =>
      rewrite (DB_run_ok stmt w3 _ _ H3
                 ltac:(cbn; rewrite bool_decide_eq_false_2 by done;
                       reflexivity))
  end.
  cbv beta iota. eexists. split; reflexivity.
Qed.

(** ** Orphan filtering *)

Lemma filed_empty P : filed P empty_object.
Proof. split; [intros k row | intros row]; cbn; [by rewrite lookup_empty | done]. Qed.

Lemma filed_js_set P records row :
  filed P records → P row → filed P (js_set records (r_memoryId row) row).
Proof.
  intros [Hown Hproto] HP. unfold js_set.
  destruct (decide (r_memoryId row = "__proto__")) as [E|E].
  - rewrite bool_decide_eq_true_2 by done. split; cbn; [done|].
    by intros ? [= <-].
  - rewrite bool_decide_eq_false_2 by done. split; cbn; [|done].
    intros k row'. destruct (decide (r_memoryId row = k)) as [<-|Hk].
    + rewrite lookup_insert_eq. by intros [= <-].
    + rewrite lookup_insert_ne by done. apply Hown.
Qed.

Lemma filed_foldl P rows records :
  filed P records → Forall P rows →
  filed P (foldl (λ records row, js_set records (r_memoryId row) row) records rows).
Proof.
  revert records. induction rows as [|row rows IH]; intros records Hf HP; [done|].
  inversion_clear HP. cbn. apply IH; [|done]. by apply filed_js_set.
Qed.

Lemma getEmailsMetadata_Return ids userId w m w' :
  getEmailsMetadata ids userId w = (Return m, w') →
  filed (λ row, row ∈ emails (DB w) ∧ r_memoryId row ∈ ids ∧ r_userId row = userId) m
  ∧ DB w' = DB w.
Proof.
  destruct ids as [|i ids].
  - unfold getEmailsMetadata, ret. cbv beta iota. intros [= <- <-].
    split; [apply filed_empty | done].
  - unfold getEmailsMetadata, DB_run, round_trip, ret, bind. cbv beta.
    destruct (outage w (calls w)); [done|]. cbn. intros [= <- <-].
    split; [|by destruct (DB w)].
    apply filed_foldl; [apply filed_empty|].
    apply Forall_forall. intros row [[? ?] ?]%list_elem_of_filter. done.
Qed.

(** Off the inherited names, a truthy [records[key]] is an own property. *)
Lemma js_get_plain P records key :
  filed P records →
  (∀ row, P row → r_memoryId row ≠ "__proto__") →
  key ≠ "__proto__" → key ∉ object_prototype_methods →
  js_truthy (js_get records key) = true →
  ∃ row, js_get records key = VRow row ∧ P row ∧ r_memoryId row = key.
Proof.
  intros [Hown Hproto] Hnp Hk Hm. unfold js_get.
  rewrite bool_decide_eq_false_2 by done.
  destruct (own records !! key) as [row|] eqn:E.
  - intros _. exists row. split; [done|]. by apply Hown.
  - destruct (proto records) as [row|] eqn:Ep.
    + destruct (Hproto row eq_refl) as [HP Hid]. by destruct (Hnp row HP).
    + unfold object_prototype_get. by rewrite bool_decide_eq_false_2.
Qed.

(** The orphan filter does its work on ordinary ids: when no id returned
    by the index is ['__proto__'] or the name of a method of
    [Object.prototype] (the identifiers minted by [uuidv4] never are),
    every hit of a search that returns carries a row of [emails] of that
    owner, filed under the id of the vector hit it comes from. *)
Lemma search_hits_are_backed query userId company w hits w' :
  searchEmailMemories query userId company w = (Return hits, w') →
  (∀ vm, vm ∈ nearest w query userId (VECTORIZE w) →
         vm_id vm ≠ "__proto__" ∧ vm_id vm ∉ object_prototype_methods) →
  ∀ h, h ∈ hits →
    ∃ vm row,
      vm ∈ nearest w query userId (VECTORIZE w)
      ∧ hit_score h = vm_score vm
      ∧ hit_meta h = VRow row
      ∧ row ∈ emails (DB w)
      ∧ r_memoryId row = vm_id vm
      ∧ r_userId row = userId.
Proof.
  rewrite searchEmailMemories_eq.
  destruct (searchMemories query userId w) as [[vr|e] w1] eqn:Hs; [|done].
  destruct (searchMemories_Return _ _ _ _ _ Hs) as (<- & HD1 & _).
  destruct (getEmailsMetadata _ userId w1) as [[m|e] w2] eqn:Hm; [|done].
  destruct (getEmailsMetadata_Return _ _ _ _ _ Hm) as [Hfiled _].
  intros [= <- <-] Hplain h (vm & Hvm & Hh)%list_elem_of_omap.
  destruct (Hplain vm Hvm) as [Hk Hmeth].
  unfold merge_hit in Hh.
  destruct (js_truthy (js_get m (vm_id vm))) eqn:Ht; [|done]. cbn in Hh.
  destruct (js_get_plain _ m (vm_id vm) Hfiled) as (row & Eg & (Hin & _ & Hu) & Hid);
    try done.
  { intros row (_ & Hids & _) E. rewrite E in Hids.
    apply list_elem_of_fmap in Hids as (vm' & E' & Hvm').
    by destruct (Hplain vm' Hvm') as [? _]. }
  exists vm, row. rewrite HD1 in Hin.
  destruct (_ && _); [done|]. injection Hh as <-. cbn. done.
Qed.

(** C2, on the failing input. The index returns one hit, id
    ["constructor"], for an owner without any row in [emails]. The lookup
    [metadataMap["constructor"]] finds the constructor function that the
    object literal inherits, which is truthy, so the hit is not dropped:
    the unfiltered search returns one element, made of the score alone,
    with no record behind it. *)
Theorem C2_inherited_key_survives_orphan_filter :
  emails (DB stray_env) = []
  ∧ nearest stray_env "query" "u" (VECTORIZE stray_env)
    = [{| vm_id := "constructor"; vm_score := 1 |}]
  ∧ (searchEmailMemories "query" "u" None stray_env).1
    = Return [{| hit_meta := VFunction "constructor"; hit_score := 1 |}].
Proof. by vm_compute. Qed.

(** ** Company derivation *)

(** What [extractCompanyFromEmail] computes. It returns [c] exactly when
    the sender has a leftmost ['@'] followed by a non-empty bracket-free
    domain, an optional closing bracket and the end of the string, and [c]
    is, among the dot-separated labels of the lowercased domain, the
    second one if there are more than two and the first one otherwise; it
    returns nothing exactly when no ['@'] is followed that way, in
    particular when the sender has no ['@']. On a sender with a single
    ['@'] followed that way, this is the rule of the specification (the
    domain after the last ['@']). The four examples of the
    specification hold, and an e-mail whose company is neither supplied
    nor derivable is stored all the same, with the empty string in the
    company column. *)
Theorem company_derivation_characterised :
  (∀ sender c, extractCompanyFromEmail sender = Some c ↔ derives sender c)
  ∧ (∀ sender,
       extractCompanyFromEmail sender = None
       ↔ ∀ d, ¬ leftmost_domain sender d)
  ∧ (∀ sender, free "@" sender → extractCompanyFromEmail sender = None)
  ∧ (∀ pre d tl,
       free "@" pre → free "@" d → free ">" d → d ≠ "" →
       tl = "" ∨ tl = ">" →
       extractCompanyFromEmail (pre +:+ String "@" (d +:+ tl))
       = company_spec (pre +:+ String "@" (d +:+ tl)))
  ∧ extractCompanyFromEmail "a@mail.acme.co.uk" = Some "acme"
  ∧ extractCompanyFromEmail "a@acme.com" = Some "acme"
  ∧ extractCompanyFromEmail "a@sub.io" = Some "sub"
  ∧ extractCompanyFromEmail "not-an-email" = None
  ∧ (∀ email userId uuidv4 w,
       company email = None →
       extractCompanyFromEmail (sender email) = None →
       healthy w 4 →
       uuidv4 ∉ m_id <$> memories (DB w) →
       uuidv4 ∉ r_id <$> emails (DB w) →
       ∃ w' row,
         storeEmailMemory email userId uuidv4 w = (Return uuidv4, w')
         ∧ emails (DB w') = emails (DB w) ++ [row]
         ∧ r_memoryId row = uuidv4
         ∧ r_sender row = sender email
         ∧ r_company row = "").
Proof.
  split; [exact extractCompanyFromEmail_Some|].
  split; [exact extractCompanyFromEmail_None|].
  split; [exact no_at_no_company|].
  split; [exact company_spec_agrees_on_single_at|].
  do 4 (split; [reflexivity|]).
  intros email userId uuidv4 w Hc Hx Hh Hm He.
  destruct (storeEmailMemory_ok email userId uuidv4 w Hh Hm He) as (w' & E & Hrows).
  eexists w', _. split; [exact E|]. split; [exact Hrows|].
  cbn. by rewrite Hc, Hx.
Qed.

(** C7. The claim fails on the code, by a slip of the regular expression
    [/@([^>]+)>?$/]: its class excludes the closing bracket only, so
    ['@'], ['<'] and blanks pass as part of the domain, and the domain
    starts after the first ['@'] from which the end of the string is
    reached instead of after the last one. For the sender
    [j@home <john@acme.com>], a display name with an ['@'] in it, the code
    yields the company ["home <john@acme"] where the rule of the claim
    yields ["acme"]; for [a@b@c.com] the code yields ["b@c"] where the
    rule yields ["c"]. *)
Theorem C7_display_name_with_at_sign_spoils_company :
  extractCompanyFromEmail "j@home <john@acme.com>" = Some "home <john@acme"
  ∧ company_spec "j@home <john@acme.com>" = Some "acme"
  ∧ extractCompanyFromEmail "a@b@c.com" = Some "b@c"
  ∧ company_spec "a@b@c.com" = Some "c".
Proof. repeat split; reflexivity. Qed.

(** Hence the code is not the rule of the specification. *)
Lemma company_rule_differs :
  ¬ (∀ sender, extractCompanyFromEmail sender = company_spec sender).
Proof.
  intros H. specialize (H "a@b@c.com"). vm_compute in H. discriminate.
Qed.

(** With the ['@'] of the address as the only one, a display name does no
    harm. *)
Example company_of_display_name :
  extractCompanyFromEmail "Jane <jane@mail.acme.co.uk>" = Some "acme".
Proof. reflexivity. Qed.

(** ** Where the code departs from the wording of the specification *)

(** C6 as worded in the specification fails: deleting a memory that does
    not exist is not answered 404. *)
Lemma C6_delete_of_missing_is_not_404 :
  ¬ (∀ userId memoryId w,
       absent w memoryId userId →
       ∃ resp w',
         DELETE_memory userId memoryId w = (Return resp, w')
         ∧ status resp = 404).
Proof.
  intros H.
  destruct (H "u" "m-9" empty_env) as (resp & w' & E & Hs).
  - intros row Hrow. by apply elem_of_nil in Hrow.
  - vm_compute in E. injection E as <- _. discriminate.
Qed.


(** ** The theorems at work on the sample environments *)

Lemma absent_Forall (w : Env) (memoryId userId : string) :
  Forall (λ row, targets memoryId userId row = false) (memories (DB w)) →
  absent w memoryId userId.
Proof. intros H row Hrow. by apply (proj1 (Forall_forall _ _) H). Qed.

Lemma healthy_quiet db ix rank n : healthy (quiet db ix rank) n.
Proof. by intros k _. Qed.

(** C1 at work: a create whose first round trip fails, a create whose
    third round trip (the upsert) fails, and the answer of the handler to
    the former. *)
Lemma C1_create_failure_policy_witness :
  (content_write_fails (failing_at 0 sample_env) "m-7"
   ∧ ∃ msg w',
       storeEmailMemory sample_email "u" "m-7" (failing_at 0 sample_env)
       = (Throw (D1Error msg), w')
       ∧ DB w' = sample_db ∧ VECTORIZE w' = sample_index)
  ∧ (index_step_fails (failing_at 2 sample_env) "m-7"
     ∧ ∃ e w',
         storeEmailMemory sample_email "u" "m-7" (failing_at 2 sample_env)
         = (Throw e, w')
         ∧ "m-7" ∈ m_id <$> memories (DB w')
         ∧ emails (DB w') = emails sample_db
         ∧ VECTORIZE w' = sample_index)
  ∧ (complete sample_json
     ∧ ∃ e w',
         POST_emails "u" (JsonObject sample_json) "m-7"
           (failing_at 0 sample_env)
         = (Return {| status := 500; json := Failure "Failed to store email" |},
            record_event (ConsoleError "Error storing email" e) w')).
Proof.
  split; [|split].
  - assert (content_write_fails (failing_at 0 sample_env) "m-7") as H
      by (left; by eexists).
    split; [exact H|].
    destruct (proj1 (C1_create_failure_policy sample_email "u" "m-7"
                       (failing_at 0 sample_env)) H)
      as (msg & text & w' & evs & E & HD & HV & _).
    by exists msg, w'.
  - assert (index_step_fails (failing_at 2 sample_env) "m-7") as H.
    { split; [reflexivity|]. split; [compute_done|].
      right. by eexists. }
    split; [exact H|].
    destruct (proj1 (proj2 (C1_create_failure_policy sample_email "u" "m-7"
                              (failing_at 2 sample_env))) H)
      as (e & text & w' & evs & E & _ & HM & HE & HV & _).
    exists e, w'. split; [exact E|]. split; [|done].
    rewrite HM. set_solver.
  - assert (complete sample_json) as H by done.
    split; [exact H|].
    eexists _, _.
    apply (proj2 (proj2 (C1_create_failure_policy sample_email "u" "m-7"
                           (failing_at 0 sample_env))) sample_json _ _ H eq_refl).
    reflexivity.
Defined.

(** C3 at work: the sample index ranks m-2, m-3, m-1; filtered on
    ["acme"]. *)
Lemma C3_filter_selects_in_order_witness :
  "acme" ≠ ""
  ∧ match searchEmailMemories "query" "u" None sample_env with
    | (Throw e, w') =>
        searchEmailMemories "query" "u" (Some "acme") sample_env = (Throw e, w')
    | (Return merged, w') =>
        ∃ kept,
          searchEmailMemories "query" "u" (Some "acme") sample_env
          = (Return kept, w')
          ∧ kept = filter (λ h, js_company (hit_meta h) = Some "acme") merged
          ∧ kept `sublist_of` merged
          ∧ (∀ h, h ∈ kept → js_company (hit_meta h) = Some "acme")
          ∧ (∀ h, h ∈ merged → js_company (hit_meta h) = Some "acme" → h ∈ kept)
          ∧ hit_score <$> merged
            `sublist_of` vm_score <$> nearest sample_env "query" "u"
                                        (VECTORIZE sample_env)
    end.
Proof.
  assert ("acme" ≠ "") as H by discriminate.
  split; [exact H|].
  exact (C3_filter_selects_in_order "query" "u" "acme" sample_env H).
Defined.

Example search_sample_unfiltered :
  (searchEmailMemories "query" "u" None sample_env).1
  = Return [{| hit_meta := VRow (email_row "m-2" "globex"); hit_score := 9 |};
            {| hit_meta := VRow (email_row "m-1" "acme"); hit_score := 5 |}].
Proof. by vm_compute. Qed.

Example search_sample_filtered :
  (searchEmailMemories "query" "u" (Some "acme") sample_env).1
  = Return [{| hit_meta := VRow (email_row "m-1" "acme"); hit_score := 5 |}].
Proof. by vm_compute. Qed.

(** C4 at work: memory m-1 of owner u exists and the database answers; the
    upsert of the update (its third round trip) and the index deletion of
    the delete (its second) fail. *)
Lemma C4_index_failure_is_swallowed_witness :
  (∃ w1 e w2,
     Js.trim " remember this " ≠ ""
     ∧ updateMemoryInD1 "m-1" "u" (Js.trim " remember this ")
         (failing_at 2 sample_env) = (Return (), w1)
     ∧ updateMemoryVector "m-1" (Js.trim " remember this ") "u" w1
       = (Throw e, w2)
     ∧ ∃ w',
         PUT_memory "u" "m-1"
           (JsonObject {| content := Some " remember this " |})
           (failing_at 2 sample_env)
         = (Return {| status := 200; json := Success |}, w')
         ∧ memories (DB w')
           = updated "remember this" "m-1" "u" (memories sample_db)
         ∧ VECTORIZE w' = sample_index)
  ∧ (∃ w1 e w2,
       deleteMemoryFromD1 "m-1" "u" (failing_at 1 sample_env) = (Return (), w1)
       ∧ deleteVectorById "m-1" "u" w1 = (Throw e, w2)
       ∧ ∃ w',
           DELETE_memory "u" "m-1" (failing_at 1 sample_env)
           = (Return {| status := 200; json := Success |}, w')
           ∧ absent w' "m-1" "u"
           ∧ VECTORIZE w' = sample_index).
Proof.
  split.
  - assert (Js.trim " remember this " ≠ "") as H by discriminate.
    eexists _, _, _. split; [exact H|].
    split; [vm_compute; reflexivity|]. split; [vm_compute; reflexivity|].
    edestruct (proj1 (C4_index_failure_is_swallowed "u" "m-1")
                 " remember this " (failing_at 2 sample_env))
      as (w' & line & E & _ & HM & HV & _);
      [exact H | vm_compute; reflexivity | vm_compute; reflexivity |].
    by exists w'.
  - eexists _, _, _.
    split; [vm_compute; reflexivity|]. split; [vm_compute; reflexivity|].
    edestruct (proj2 (C4_index_failure_is_swallowed "u" "m-1")
                 (failing_at 1 sample_env))
      as (w' & line & E & _ & HA & HV & _);
      [vm_compute; reflexivity | vm_compute; reflexivity |].
    by exists w'.
Defined.

(** C5 at work: owner u has no memory m-9. *)
Lemma C5_update_of_missing_is_404_witness :
  (Js.trim "new text" ≠ "" ∧ outage sample_env (calls sample_env) = None
   ∧ absent sample_env "m-9" "u")
  ∧ ∃ w' evs,
      PUT_memory "u" "m-9" (JsonObject {| content := Some "new text" |})
        sample_env
      = (Return {| status := 404;
                   json := Failure (not_found_message "m-9" "u") |}, w')
      ∧ DB w' = DB sample_env
      ∧ VECTORIZE w' = VECTORIZE sample_env
      ∧ since sample_env w' evs
      ∧ round_trips evs = [D1 (UpdateMemory (Js.trim "new text") "m-9" "u")].
Proof.
  assert (Js.trim "new text" ≠ "") as H1 by discriminate.
  assert (absent sample_env "m-9" "u") as H2
    by (apply absent_Forall; repeat constructor).
  split; [done|].
  exact (C5_update_of_missing_is_404 "u" "m-9" "new text" sample_env
           H1 eq_refl H2).
Defined.

(** C6 at work: the same missing memory, deleted. *)
Lemma C6_delete_of_missing_reports_success_witness :
  (absent sample_env "m-9" "u" ∧ outage sample_env (calls sample_env) = None)
  ∧ ∃ w',
      DELETE_memory "u" "m-9" sample_env
      = (Return {| status := 200; json := Success |}, w')
      ∧ DB w' = DB sample_env.
Proof.
  assert (absent sample_env "m-9" "u") as H
    by (apply absent_Forall; repeat constructor).
  split; [done|].
  exact (C6_delete_of_missing_reports_success "u" "m-9" sample_env H eq_refl).
Defined.

(** The sender ["not-an-email"] yields no company, and the e-mail is
    stored with an empty company column. *)
Lemma company_derivation_characterised_witness :
  (company sample_email = None
   ∧ extractCompanyFromEmail (sender sample_email) = None
   ∧ healthy sample_env 4
   ∧ ("m-7" ∉ m_id <$> memories (DB sample_env))
   ∧ ("m-7" ∉ r_id <$> emails (DB sample_env)))
  ∧ ∃ w' row,
      storeEmailMemory sample_email "u" "m-7" sample_env = (Return "m-7", w')
      ∧ emails (DB w') = emails (DB sample_env) ++ [row]
      ∧ r_memoryId row = "m-7"
      ∧ r_sender row = sender sample_email
      ∧ r_company row = "".
Proof.
  assert ("m-7" ∉ m_id <$> memories (DB sample_env)) as Hm by compute_done.
  assert ("m-7" ∉ r_id <$> emails (DB sample_env)) as He by compute_done.
  pose proof (healthy_quiet sample_db sample_index sample_rank 4) as Hh.
  split; [done|].
  exact (proj2 (proj2 (proj2 (proj2 (proj2 (proj2 (proj2 (proj2
           company_derivation_characterised)))))))
           sample_email "u" "m-7" sample_env eq_refl eq_refl Hh Hm He).
Defined.

(** C9 at work: a create without subject, and an update made of blanks. *)
Lemma C9_validation_precedes_side_effects_witness :
  (lacks_required
     (JsonObject {| j_subject := None; j_body := Some "text";
                    j_sender := Some "a@acme.com"; j_recipients := None;
                    j_date := None; j_company := None; j_messageId := None;
                    j_inReplyTo := None |})
   ∧ ∃ error,
       POST_emails "u"
         (JsonObject {| j_subject := None; j_body := Some "text";
                        j_sender := Some "a@acme.com"; j_recipients := None;
                        j_date := None; j_company := None;
                        j_messageId := None; j_inReplyTo := None |})
         "m-7" sample_env
       = (Return {| status := 400; json := Failure error |}, sample_env))
  ∧ (lacks_content (JsonObject {| content := Some "   " |})
     ∧ ∃ error w',
         PUT_memory "u" "m-1" (JsonObject {| content := Some "   " |})
           sample_env
         = (Return {| status := 400; json := Failure error |}, w')
         ∧ untouched sample_env w').
Proof.
  split.
  - assert (lacks_required
              (JsonObject {| j_subject := None; j_body := Some "text";
                             j_sender := Some "a@acme.com";
                             j_recipients := None; j_date := None;
                             j_company := None; j_messageId := None;
                             j_inReplyTo := None |})) as H
      by (left; reflexivity).
    split; [exact H|].
    exact (proj1 (C9_validation_precedes_side_effects "u" "m-1" "m-7"
                    sample_env) _ H).
  - assert (lacks_content (JsonObject {| content := Some "   " |})) as H
      by reflexivity.
    split; [exact H|].
    exact (proj2 (C9_validation_precedes_side_effects "u" "m-1" "m-7"
                    sample_env) _ H).
Defined.

(** * Further properties of the code *)

(** ** Bookkeeping of round trips *)

Lemma later_refl w : later 0 w w.
Proof. by repeat split. Qed.

Lemma later_trans (n m : nat) w1 w2 w3 :
  later n w1 w2 → later m w2 w3 → later (n + m) w1 w3.
Proof.
  intros (Hc1 & Ho1 & Hn1 & Ht1) (Hc2 & Ho2 & Hn2 & Ht2).
  repeat split; try congruence. rewrite Hc2, Hc1. lia.
Qed.

Lemma healthy_later (n m : nat) w w' :
  healthy w (n + m) → later n w w' → healthy w' m.
Proof.
  intros H (Hc & Ho & _) k Hk. rewrite Ho, Hc.
  replace (n + calls w + k) with (calls w + (n + k)) by lia.
  apply H. lia.
Qed.

Lemma healthy_now n w : healthy w (S n) → outage w (calls w) = None.
Proof.
  intros H. specialize (H 0 ltac:(lia)).
  by replace (calls w + 0) with (calls w) in H by lia.
Qed.

Lemma healthy_weaken (n m : nat) w : healthy w m → (n ≤ m)%nat → healthy w n.
Proof. intros H Hle k Hk. apply H. lia. Qed.

(** ** Structured create: what a successful create writes *)

Lemma storeEmailMemory_post (email : EmailData) (userId uuidv4 : string)
    (w : Env) :
  healthy w 3 →
  uuidv4 ∉ m_id <$> memories (DB w) →
  ∃ w3,
    storeEmailMemory email userId uuidv4 w
    = (let* _ := DB_run (InsertEmail uuidv4 userId uuidv4 (sender email)
                           (Js.nullish (Js.join "," <$> recipients email) "")
                           (subject email) (Js.nullish (date email) "")
                           (stored_company email)
                           (Js.nullish (messageId email) "")
                           (Js.nullish (inReplyTo email) "")) in
       ret uuidv4) w3
    ∧ memories (DB w3)
      = memories (DB w) ++ [content_row email userId uuidv4 (now w)]
    ∧ emails (DB w3) = emails (DB w)
    ∧ VECTORIZE w3 = upsert (vector_entry email userId uuidv4) (VECTORIZE w)
    ∧ later 3 w w3.
Proof.
  intros Hh Hm.
  pose proof (healthy_now _ _ Hh) as H0.
  pose proof (Hh 1 ltac:(lia)) as H1. pose proof (Hh 2 ltac:(lia)) as H2.
  replace (calls w + 1) with (S (calls w)) in H1 by lia.
  replace (calls w + 2) with (S (S (calls w))) in H2 by lia.
  unfold storeEmailMemory. cbv zeta. unfold_step.
  match goal with
  | |- context [storeMemoryInD1 ?t userId uuidv4 w] =>
      rewrite (storeMemoryInD1_ok t userId uuidv4 w H0 Hm)
  end.
  cbv beta iota. unfold_step.
  rewrite storeMemory_ok by done. cbv beta iota zeta.
  eexists. split; [reflexivity|]. observe. by repeat split.
Qed.

Lemma POST_emails_ok (userId uuidv4 : string) (json : EmailJson) (w : Env) :
  complete json →
  healthy w 4 →
  uuidv4 ∉ m_id <$> memories (DB w) →
  uuidv4 ∉ r_id <$> emails (DB w) →
  ∃ w',
    POST_emails userId (JsonObject json) uuidv4 w
    = (Return {| status := 200; json := SuccessId uuidv4 |}, w')
    ∧ memories (DB w')
      = memories (DB w)
        ++ [content_row (as_EmailData json) userId uuidv4 (now w)]
    ∧ emails (DB w')
      = emails (DB w) ++ [stored_row (as_EmailData json) userId uuidv4 (now w)]
    ∧ VECTORIZE w'
      = upsert (vector_entry (as_EmailData json) userId uuidv4) (VECTORIZE w)
    ∧ later 4 w w'.
Proof.
  intros (Hs & Hb & Hf) Hh Hm He.
  destruct (storeEmailMemory_post (as_EmailData json) userId uuidv4 w
              (healthy_weaken 3 4 w Hh ltac:(lia)) Hm)
    as (w3 & E & HM & HE & HV & HL).
  pose proof (healthy_now _ _ (healthy_later 3 1 w w3 Hh HL)) as H3.
  unfold POST_emails. rewrite Hs, Hb, Hf. cbn [negb orb]. cbv iota.
  unfold_step. rewrite E. unfold_step.
  destruct HL as (Hc & Ho & Hn & Ht).
  match goal with
  | |- context [DB_run ?stmt w3] =>
      rewrite (DB_run_ok stmt w3 _ _ H3
                 ltac:(cbn; rewrite HE, bool_decide_eq_false_2 by done;
                       reflexivity))
  end.
  cbv beta iota. eexists. split; [reflexivity|]. observe.
  cbn [memories emails]. rewrite Ht.
  split; [exact HM|]. split; [reflexivity|]. split; [exact HV|].
  unfold later. observe. rewrite Hc. by repeat split.
Qed.

Lemma lookup_email_snoc rows userId id row :
  r_memoryId row = id → r_userId row = userId →
  lookup_email (rows ++ [row]) userId id = Some row.
Proof.
  intros Hid Hu. unfold lookup_email.
  rewrite filter_app, filter_cons_True, filter_nil by done.
  apply last_snoc.
Qed.

Lemma upsert_keeps_others (e x : IndexEntry) (ix : list IndexEntry) :
  x ∈ ix → same_entry (v_id e) (v_namespace e) x = false → x ∈ upsert e ix.
Proof.
  intros Hx Hne. unfold upsert. apply elem_of_app. left.
  by apply list_elem_of_filter.
Qed.

(** X1. A structured create that passes validation, with four healthy
    round trips ahead and a fresh identifier, is answered 200 with that
    identifier, and has written three things under it: the content row
    holding the text projection, the index entry of the owner's namespace
    holding the same text and the attribute map, and the row of [emails]
    whose id and memoryId both are the identifier. The batched lookup
    now finds that row under the identifier, and every index entry of
    another key is still there. *)
Theorem POST_emails_writes_one_id_everywhere (userId uuidv4 : string)
    (json : EmailJson) (w : Env) :
  complete json →
  healthy w 4 →
  uuidv4 ∉ m_id <$> memories (DB w) →
  uuidv4 ∉ r_id <$> emails (DB w) →
  ∃ w',
    POST_emails userId (JsonObject json) uuidv4 w
    = (Return {| status := 200; json := SuccessId uuidv4 |}, w')
    ∧ memories (DB w')
      = memories (DB w)
        ++ [content_row (as_EmailData json) userId uuidv4 (now w)]
    ∧ emails (DB w')
      = emails (DB w) ++ [stored_row (as_EmailData json) userId uuidv4 (now w)]
    ∧ VECTORIZE w'
      = upsert (vector_entry (as_EmailData json) userId uuidv4) (VECTORIZE w)
    ∧ lookup_email (emails (DB w')) userId uuidv4
      = Some (stored_row (as_EmailData json) userId uuidv4 (now w))
    ∧ (∀ x, x ∈ VECTORIZE w → same_entry uuidv4 userId x = false →
            x ∈ VECTORIZE w').
Proof.
  intros Hc Hh Hm He.
  destruct (POST_emails_ok userId uuidv4 json w Hc Hh Hm He)
    as (w' & E & HM & HE & HV & _).
  exists w'. do 4 (split; [done|]). split.
  - rewrite HE. by apply lookup_email_snoc.
  - intros x Hx Hne. rewrite HV. by apply upsert_keeps_others.
Qed.

(** X2. A structured create whose first three round trips succeed and
    whose last statement, the [INSERT] into [emails], fails (the database
    is unreachable for it, or the id is taken in [emails]): the handler
    answers 500, and nothing is rolled back - the content row and the
    index entry written before stay, [emails] is as it was. *)
Theorem POST_emails_keeps_memory_without_record (userId uuidv4 : string)
    (json : EmailJson) (w : Env) :
  complete json →
  healthy w 3 →
  uuidv4 ∉ m_id <$> memories (DB w) →
  is_Some (outage w (3 + calls w)) ∨ uuidv4 ∈ r_id <$> emails (DB w) →
  ∃ w',
    POST_emails userId (JsonObject json) uuidv4 w
    = (Return {| status := 500; json := Failure "Failed to store email" |}, w')
    ∧ memories (DB w')
      = memories (DB w)
        ++ [content_row (as_EmailData json) userId uuidv4 (now w)]
    ∧ emails (DB w') = emails (DB w)
    ∧ VECTORIZE w'
      = upsert (vector_entry (as_EmailData json) userId uuidv4) (VECTORIZE w).
Proof.
  intros (Hs & Hb & Hf) Hh Hm Hfail.
  destruct (storeEmailMemory_post (as_EmailData json) userId uuidv4 w Hh Hm)
    as (w3 & E & HM & HE & HV & (Hc & Ho & _)).
  unfold POST_emails. rewrite Hs, Hb, Hf. cbn [negb orb]. cbv iota.
  unfold_step. rewrite E. unfold_step.
  destruct (outage w3 (calls w3)) as [msg|] eqn:Hout.
  - rewrite (DB_run_down _ _ _ Hout). cbv beta iota. unfold_step.
    unfold console_error. eexists. split; [reflexivity|]. by observe.
  - destruct Hfail as [[msg Hmsg]|Hin].
    { rewrite Ho, Hc in Hout. congruence. }
    match goal with
    | |- context [DB_run ?stmt w3] =>
        rewrite (DB_run_rejected stmt w3 _ Hout
                   ltac:(cbn; rewrite HE, bool_decide_eq_true_2 by done;
                         reflexivity))
    end.
    cbv beta iota. unfold_step.
    unfold console_error. eexists. split; [reflexivity|]. by observe.
Qed.

(** ** The batched lookup and the search, read off the table *)

Lemma omap_ext_in {A B} (f g : A → option B) (l : list A) :
  (∀ x, x ∈ l → f x = g x) → omap f l = omap g l.
Proof.
  induction l as [|x l IH]; [done|]. intros H. cbn.
  rewrite (H x) by by left. rewrite IH; [done|].
  intros y Hy. apply H. by right.
Qed.

Lemma last_filter_cons {A} (P : A → Prop) `{∀ x, Decision (P x)} x l :
  last (filter P (x :: l))
  = match last (filter P l) with
    | Some y => Some y
    | None => if decide (P x) then Some x else None
    end.
Proof.
  rewrite filter_cons. destruct (decide (P x)).
  - apply last_cons.
  - by destruct (last (filter P l)).
Qed.

Lemma foldl_js_set_own rows records k :
  k ≠ "__proto__" →
  own (foldl (λ records row, js_set records (r_memoryId row) row) records rows)
    !! k
  = match last (filter (λ row, r_memoryId row = k) rows) with
    | Some row => Some row
    | None => own records !! k
    end.
Proof.
  intros Hk. revert records.
  induction rows as [|x rows IH]; intros records; [done|].
  cbn [foldl]. rewrite IH, last_filter_cons.
  destruct (last (filter _ rows)); [done|].
  unfold js_set. destruct (decide (r_memoryId x = "__proto__")) as [E|E].
  - rewrite bool_decide_eq_true_2 by done. cbn.
    rewrite decide_False by congruence. done.
  - rewrite bool_decide_eq_false_2 by done. cbn.
    destruct (decide (r_memoryId x = k)) as [<-|Hne].
    + by rewrite lookup_insert_eq.
    + by rewrite lookup_insert_ne.
Qed.

Lemma foldl_js_set_proto rows records :
  proto (foldl (λ records row, js_set records (r_memoryId row) row) records rows)
  = match last (filter (λ row, r_memoryId row = "__proto__") rows) with
    | Some row => Some row
    | None => proto records
    end.
Proof.
  revert records.
  induction rows as [|x rows IH]; intros records; [done|].
  cbn [foldl]. rewrite IH, last_filter_cons.
  destruct (last (filter _ rows)); [done|].
  unfold js_set. destruct (decide (r_memoryId x = "__proto__")) as [E|E].
  - by rewrite bool_decide_eq_true_2.
  - by rewrite bool_decide_eq_false_2.
Qed.

Lemma filter_selected (ids : list string) (userId k : string)
    (rows : list EmailRecord) :
  filter (λ row, r_memoryId row = k)
    (filter (λ row, r_memoryId row ∈ ids ∧ r_userId row = userId) rows)
  = if decide (k ∈ ids)
    then filter (λ row, r_memoryId row = k ∧ r_userId row = userId) rows
    else [].
Proof.
  induction rows as [|x rows IH]; [by destruct (decide _)|].
  rewrite (filter_cons (λ row, r_memoryId row ∈ ids ∧ _)).
  rewrite (filter_cons (λ row, r_memoryId row = k ∧ _)).
  destruct (decide (k ∈ ids)) as [Hin|Hout].
  - destruct (decide (r_memoryId x ∈ ids ∧ r_userId x = userId)) as [[? ?]|Hn].
    + rewrite filter_cons, IH.
      destruct (decide (r_memoryId x = k)).
      * by rewrite decide_True.
      * rewrite decide_False; [done | by intros [? ?]].
    + rewrite IH. rewrite decide_False; [done|].
      intros [<- ?]. by apply Hn.
  - destruct (decide (r_memoryId x ∈ ids ∧ r_userId x = userId)) as [[? ?]|Hn].
    + rewrite filter_cons, IH. rewrite decide_False; [done | congruence].
    + done.
Qed.

(** X3. With the database reachable, the batched lookup returns a map
    that holds, under each requested id, the last row of [emails] (in
    table order) that has this [memoryId] and belongs to the owner, and
    holds nothing under an id that was not requested or has no such row;
    rows of other owners never enter it. A row whose [memoryId] is
    ['__proto__'] is not filed as a property but installed as the
    prototype. Neither store changes. *)
Theorem getEmailsMetadata_files_last_row_of_owner (memoryIds : list string)
    (userId : string) (w : Env) :
  outage w (calls w) = None →
  ∃ records w',
    getEmailsMetadata memoryIds userId w = (Return records, w')
    ∧ DB w' = DB w
    ∧ VECTORIZE w' = VECTORIZE w
    ∧ (∀ k, k ≠ "__proto__" →
         own records !! k
         = if decide (k ∈ memoryIds)
           then lookup_email (emails (DB w)) userId k else None)
    ∧ proto records
      = if decide ("__proto__" ∈ memoryIds)
        then lookup_email (emails (DB w)) userId "__proto__" else None.
Proof.
  intros Hout. destruct memoryIds as [|i ids].
  - exists empty_object, w. do 3 (split; [done|]). split.
    + intros k _. by rewrite decide_False by apply not_elem_of_nil.
    + by rewrite decide_False by apply not_elem_of_nil.
  - unfold getEmailsMetadata. unfold_step.
    rewrite (DB_run_ok (SelectEmailsIn (i :: ids) userId) w _ _ Hout eq_refl).
    cbv beta iota. eexists _, _. split; [reflexivity|]. observe.
    split; [by destruct (DB w)|]. split; [done|]. cbn [results]. split.
    + intros k Hk. rewrite (foldl_js_set_own _ _ k Hk), filter_selected.
      unfold lookup_email. cbn [own empty_object].
      destruct (decide (k ∈ i :: ids)); [|done].
      by destruct (last _).
    + rewrite foldl_js_set_proto, filter_selected. unfold lookup_email.
      destruct (decide ("__proto__" ∈ i :: ids)); [|done].
      by destruct (last _).
Qed.

Lemma searchMemories_ok query userId w :
  healthy w 2 →
  searchMemories query userId w
  = (Return (nearest w query userId (VECTORIZE w)),
     record_event (Call (VEC_query query userId))
       (record_event (Call (AI_embed query)) w)).
Proof.
  intros Hh. pose proof (healthy_now _ _ Hh) as H0.
  pose proof (Hh 1 ltac:(lia)) as H1.
  replace (calls w + 1) with (S (calls w)) in H1 by lia.
  unfold searchMemories. unfold_step. rewrite (round_trip_ok _ _ _ H0).
  cbv beta iota. unfold_step. by rewrite round_trip_ok.
Qed.

(** The map built from the rows selected for [ids], looked up at a plain
    id, when every requested id is plain. *)
Lemma js_get_selected (ids : list string) (userId id : string)
    (rows : list EmailRecord) :
  (∀ i, i ∈ ids → plain i) → id ∈ ids →
  js_get
    (foldl (λ records row, js_set records (r_memoryId row) row) empty_object
       (filter (λ row, r_memoryId row ∈ ids ∧ r_userId row = userId) rows))
    id
  = match lookup_email rows userId id with
    | Some row => VRow row
    | None => VUndefined
    end.
Proof.
  intros Hplain Hid. destruct (Hplain id Hid) as [Hk Hm].
  unfold js_get. rewrite bool_decide_eq_false_2 by done.
  rewrite (foldl_js_set_own _ _ id Hk), foldl_js_set_proto, !filter_selected.
  rewrite decide_True by done. unfold lookup_email.
  destruct (last (filter _ rows)) as [row|]; [done|].
  cbn [own proto empty_object]. rewrite lookup_empty.
  rewrite decide_False.
  - cbn. unfold object_prototype_get. by rewrite bool_decide_eq_false_2.
  - intros Hp. by destruct (Hplain _ Hp) as [? _].
Qed.

Lemma merge_hit_selected (ids : list string) (userId : string)
    (company : option string) (rows : list EmailRecord) (vmatch : VectorMatch) :
  (∀ i, i ∈ ids → plain i) → vm_id vmatch ∈ ids →
  merge_hit
    (foldl (λ records row, js_set records (r_memoryId row) row) empty_object
       (filter (λ row, r_memoryId row ∈ ids ∧ r_userId row = userId) rows))
    company vmatch
  = expected_hit rows userId company vmatch.
Proof.
  intros Hplain Hid. unfold merge_hit, expected_hit.
  rewrite (js_get_selected ids userId _ rows Hplain Hid).
  by destruct (lookup_email rows userId (vm_id vmatch)).
Qed.

(** X4. With three healthy round trips ahead and an index that returns
    plain ids only, the search returns, in the order of the index, one hit
    for each vector hit that has a row of the owner in [emails] under its
    id - carrying that row (the last one, should several share the id)
    and the score of the vector hit - and, when a non-empty company filter
    is given, only those whose row has exactly that company. Vector hits
    without such a row leave no trace. Neither store changes. *)
Theorem search_reads_hits_off_the_table (query userId : string)
    (company : option string) (w : Env) :
  healthy w 3 →
  (∀ vm, vm ∈ nearest w query userId (VECTORIZE w) → plain (vm_id vm)) →
  ∃ w',
    searchEmailMemories query userId company w
    = (Return (omap (expected_hit (emails (DB w)) userId company)
                 (nearest w query userId (VECTORIZE w))), w')
    ∧ DB w' = DB w
    ∧ VECTORIZE w' = VECTORIZE w.
Proof.
  intros Hh Hplain. rewrite searchEmailMemories_eq.
  rewrite (searchMemories_ok _ _ _ (healthy_weaken 2 3 w Hh ltac:(lia))).
  remember (nearest w query userId (VECTORIZE w)) as vr eqn:Hvr. clear Hvr.
  destruct (vm_id <$> vr) as [|i ids] eqn:Hids.
  { apply fmap_nil_inv in Hids as ->. cbn.
    eexists. split; [reflexivity|]. by observe. }
  rewrite <- Hids. assert (vm_id <$> vr ≠ []) as Hne by congruence.
  clear Hids. unfold getEmailsMetadata.
  destruct (vm_id <$> vr) as [|j js] eqn:Hids; [done|].
  rewrite <- Hids. unfold_step.
  match goal with
  | |- context [DB_run ?stmt ?w2] =>
      rewrite (DB_run_ok stmt w2 _ _
                 ltac:(observe; pose proof (Hh 2 ltac:(lia)) as H2;
                       by replace (calls w + 2) with (S (S (calls w))) in H2
                         by lia)
                 eq_refl)
  end.
  cbv beta iota. observe. cbn [results]. unfold ret. cbv beta iota.
  match goal with
  | |- context [omap (merge_hit ?m company) vr] =>
      rewrite (omap_ext_in (merge_hit m company)
                 (expected_hit (emails (DB w)) userId company) vr)
  end.
  - eexists. split; [reflexivity|]. observe.
    split; [by destruct (DB w)|done].
  - intros x Hx. apply merge_hit_selected.
    + intros k (vm0 & -> & Hvm0)%list_elem_of_fmap. by apply Hplain.
    + apply list_elem_of_fmap. by exists x.
Qed.

(** X5. When the index returns no hit, the search returns the empty list
    after exactly two round trips, the embedding request and the index
    query: the database is not asked at all, and may even be down. *)
Theorem search_without_hits_skips_the_database (query userId : string)
    (company : option string) (w : Env) :
  healthy w 2 →
  nearest w query userId (VECTORIZE w) = [] →
  ∃ w',
    searchEmailMemories query userId company w = (Return [], w')
    ∧ since w w' [Call (AI_embed query); Call (VEC_query query userId)]
    ∧ DB w' = DB w
    ∧ VECTORIZE w' = VECTORIZE w.
Proof.
  intros Hh Hnone. rewrite searchEmailMemories_eq.
  rewrite (searchMemories_ok _ _ _ Hh), Hnone. cbn [fmap list_fmap].
  unfold getEmailsMetadata, ret. cbv beta iota.
  eexists. split; [reflexivity|]. unfold since. observe.
  by rewrite <- app_assoc.
Qed.

Lemma searchMemories_frame query userId w :
  DB (searchMemories query userId w).2 = DB w
  ∧ VECTORIZE (searchMemories query userId w).2 = VECTORIZE w.
Proof.
  unfold searchMemories, bind, round_trip. cbv beta.
  destruct (outage w (calls w)); [done|]. observe.
  by destruct (outage w (S (calls w))).
Qed.

Lemma getEmailsMetadata_frame ids userId w :
  DB (getEmailsMetadata ids userId w).2 = DB w
  ∧ VECTORIZE (getEmailsMetadata ids userId w).2 = VECTORIZE w.
Proof.
  destruct ids as [|i ids]; [done|].
  unfold getEmailsMetadata, DB_run, bind, round_trip. cbv beta.
  destruct (outage w (calls w)); [done|]. cbn. by destruct (DB w).
Qed.

Lemma search_frame_pair (query userId : string) (company : option string)
    (w : Env) :
  DB (searchEmailMemories query userId company w).2 = DB w
  ∧ VECTORIZE (searchEmailMemories query userId company w).2 = VECTORIZE w.
Proof.
  rewrite searchEmailMemories_eq.
  pose proof (searchMemories_frame query userId w) as [HD1 HV1].
  destruct (searchMemories query userId w) as [[vr|e] w1]; [|done].
  pose proof (getEmailsMetadata_frame (vm_id <$> vr) userId w1) as [HD2 HV2].
  destruct (getEmailsMetadata _ userId w1) as [[m|e] w2]; cbn in *;
    split; congruence.
Qed.

(** X6. The search is read-only: whatever its outcome - a result list or
    an error thrown by any of its steps - the database and the index are
    afterwards what they were before, and what it sent is an initial part
    of: the embedding request, the index query, the one [SELECT] over the
    ids returned. It never sends an insert, an update, a delete or an
    upsert. *)
Theorem search_changes_no_store (query userId : string)
    (company : option string) (w : Env) :
  DB (searchEmailMemories query userId company w).2 = DB w
  ∧ VECTORIZE (searchEmailMemories query userId company w).2 = VECTORIZE w
  ∧ ∃ evs,
      since w (searchEmailMemories query userId company w).2 evs
      ∧ evs `prefix_of`
          [Call (AI_embed query); Call (VEC_query query userId);
           Call (D1 (SelectEmailsIn
                       (vm_id <$> nearest w query userId (VECTORIZE w))
                       userId))].
Proof.
  destruct (search_frame_pair query userId company w) as [HD HV].
  do 2 (split; [done|]). clear HD HV.
  rewrite searchEmailMemories_eq. unfold searchMemories, since.
  unfold_step. unfold round_trip at 1.
  destruct (outage w (calls w)) as [msg|].
  { exists [Call (AI_embed query)]. split; [done|]. by eexists. }
  cbv beta iota. unfold_step. unfold round_trip at 1. observe.
  destruct (outage w (S (calls w))) as [msg|].
  { exists [Call (AI_embed query); Call (VEC_query query userId)].
    observe. split; [by rewrite <- app_assoc|]. by eexists. }
  cbv beta iota. observe.
  set (vr := nearest w query userId (VECTORIZE w)).
  destruct (vm_id <$> vr) as [|i ids] eqn:Hids.
  - unfold getEmailsMetadata, ret. cbv beta iota. observe.
    exists [Call (AI_embed query); Call (VEC_query query userId)].
    split; [by rewrite <- app_assoc|]. by eexists.
  - match goal with
    | |- context [getEmailsMetadata (i :: ids) userId ?w2] =>
        pose proof (DB_run_journal (SelectEmailsIn (i :: ids) userId) w2)
          as [HJ _];
        unfold getEmailsMetadata; rewrite bind_eq;
        destruct (DB_run (SelectEmailsIn (i :: ids) userId) w2)
          as [[res|e] w3]
    end; cbn in HJ |- *; rewrite HJ; eexists; (split; [by rewrite <- !app_assoc|]);
      by exists [].
Qed.

(** X7. A search fails as a whole: when the embedding request fails it
    throws that error, when the index query fails it throws that error,
    and when the index returned hits and the metadata query fails it
    throws that error; in no case does it return a partial list. *)
Theorem search_fails_as_a_whole (query userId : string)
    (company : option string) (w : Env) :
  (∀ msg, outage w (calls w) = Some msg →
     (searchEmailMemories query userId company w).1 = Throw (AIError msg))
  ∧ (∀ msg, outage w (calls w) = None → outage w (S (calls w)) = Some msg →
       (searchEmailMemories query userId company w).1
       = Throw (VectorizeError msg))
  ∧ (∀ msg, healthy w 2 → outage w (2 + calls w) = Some msg →
       nearest w query userId (VECTORIZE w) ≠ [] →
       (searchEmailMemories query userId company w).1 = Throw (D1Error msg)).
Proof.
  rewrite searchEmailMemories_eq. split; [|split].
  - intros msg H0. unfold searchMemories. unfold_step.
    by rewrite (round_trip_down _ _ _ _ H0).
  - intros msg H0 H1. unfold searchMemories. unfold_step.
    rewrite (round_trip_ok _ _ _ H0). cbv beta iota. unfold_step.
    by rewrite round_trip_down with (msg := msg).
  - intros msg Hh H2 Hne. rewrite (searchMemories_ok _ _ _ Hh).
    destruct (nearest w query userId (VECTORIZE w)) as [|vm vr]; [done|].
    cbn [fmap list_fmap]. unfold getEmailsMetadata. unfold_step.
    by rewrite DB_run_down with (msg := msg).
Qed.

(** ** The route of the search *)

Lemma match_search_route pathname params :
  match_route "/:userId/emails/search" pathname = Some params →
  ∃ userId,
    userId ≠ ""
    ∧ Js.split "/" pathname = [""; userId; "emails"; "search"].
Proof.
  unfold match_route.
  change (Js.split "/" "/:userId/emails/search")
    with [""; ":userId"; "emails"; "search"].
  destruct (Js.split "/" pathname) as [|s0 [|s1 [|s2 [|s3 [|s4 l]]]]];
    cbn [match_segments fmap option_fmap option_map];
    repeat case_bool_decide; try discriminate.
  intros _. subst. by exists s1.
Qed.

Lemma match_single_route pathname userId memoryId :
  userId ≠ "" → memoryId ≠ "" →
  Js.split "/" pathname = [""; userId; "emails"; memoryId] →
  match_route "/" pathname = None
  ∧ match_route "/:userId/memories" pathname = None
  ∧ match_route "/:userId/emails" pathname = None
  ∧ match_route "/:userId/emails/:memoryId" pathname
    = Some [("userId", userId); ("memoryId", memoryId)].
Proof.
  intros Hu Hm Hsplit. unfold match_route. rewrite Hsplit.
  change (Js.split "/" "/") with [""; ""].
  change (Js.split "/" "/:userId/memories") with [""; ":userId"; "memories"].
  change (Js.split "/" "/:userId/emails") with [""; ":userId"; "emails"].
  change (Js.split "/" "/:userId/emails/:memoryId")
    with [""; ":userId"; "emails"; ":memoryId"].
  cbn [match_segments fmap option_fmap option_map].
  rewrite !bool_decide_eq_true_2 by done.
  rewrite !(bool_decide_eq_false_2 (userId = "")) by done.
  rewrite !(bool_decide_eq_false_2 (memoryId = "")) by done.
  rewrite (bool_decide_eq_false_2 ("" = userId)) by done.
  by rewrite (bool_decide_eq_false_2 ("memories" = "emails")) by done.
Qed.

(** X8. The search route is shadowed. No path makes the dispatch of a
    [GET] request select the handler registered for
    [/:userId/emails/search]: every path that matches its pattern matches
    the pattern [/:userId/emails/:memoryId], registered before it. A
    request for [/userId/emails/search] - [userId] not empty and without
    slash - is answered by the single-record handler, with ["search"] as
    [memoryId]. *)
Theorem search_route_is_shadowed :
  (∀ pathname params,
     dispatch GET_routes pathname ≠ Some (SearchEmails, params))
  ∧ (∀ pathname params,
       match_route "/:userId/emails/search" pathname = Some params →
       ∃ userId,
         dispatch GET_routes pathname
         = Some (SingleEmail, [("userId", userId); ("memoryId", "search")]))
  ∧ (∀ userId,
       userId ≠ "" → free "/" userId →
       dispatch GET_routes ("/" +:+ userId +:+ "/emails/search")
       = Some (SingleEmail, [("userId", userId); ("memoryId", "search")])).
Proof.
  assert (∀ pathname userId,
            userId ≠ "" →
            Js.split "/" pathname = [""; userId; "emails"; "search"] →
            dispatch GET_routes pathname
            = Some (SingleEmail, [("userId", userId); ("memoryId", "search")]))
    as Hsingle.
  { intros pathname userId Hu Hsplit.
    destruct (match_single_route pathname userId "search" Hu
                ltac:(discriminate) Hsplit) as (H1 & H2 & H3 & H4).
    cbn [dispatch GET_routes]. by rewrite H1, H2, H3, H4. }
  split; [|split].
  - intros pathname params H.
    cbn [dispatch GET_routes] in H.
    destruct (match_route "/" pathname); [discriminate|].
    destruct (match_route "/:userId/memories" pathname); [discriminate|].
    destruct (match_route "/:userId/emails" pathname); [discriminate|].
    destruct (match_route "/:userId/emails/:memoryId" pathname) eqn:H4;
      [discriminate|].
    destruct (match_route "/:userId/emails/search" pathname) as [ps|] eqn:H5;
      [|discriminate].
    destruct (match_search_route pathname ps H5) as (userId & Hu & Hsplit).
    destruct (match_single_route pathname userId "search" Hu
                ltac:(discriminate) Hsplit) as (_ & _ & _ & H4').
    congruence.
  - intros pathname params H.
    destruct (match_search_route pathname params H) as (userId & Hu & Hsplit).
    exists userId. by apply Hsingle.
  - intros userId Hu Hfree. apply Hsingle; [done|].
    change ("/" +:+ userId +:+ "/emails/search")
      with (String "/" (userId +:+ String "/" "emails/search")).
    cbn [Js.split]. rewrite Ascii.eqb_refl.
    by rewrite split_append.
Qed.

(** ** Delete and update of a generic memory, outcome by outcome *)

Lemma deleteVectorById_ok memoryId userId w :
  outage w (calls w) = None →
  deleteVectorById memoryId userId w
  = (Return (),
     with_VECTORIZE
       (filter (λ x, same_entry memoryId userId x = false) (VECTORIZE w))
       (record_event (Call (VEC_deleteByIds memoryId userId)) w)).
Proof. intros H. unfold deleteVectorById. by rewrite VEC_write_ok. Qed.

Lemma DELETE_memory_ok (userId memoryId : string) (w : Env) :
  healthy w 2 →
  ∃ w',
    DELETE_memory userId memoryId w
    = (Return {| status := 200; json := Success |}, w')
    ∧ memories (DB w')
      = filter (λ row, targets memoryId userId row = false) (memories (DB w))
    ∧ emails (DB w') = emails (DB w)
    ∧ VECTORIZE w'
      = filter (λ x, same_entry memoryId userId x = false) (VECTORIZE w)
    ∧ later 2 w w'.
Proof.
  intros Hh. pose proof (healthy_now _ _ Hh) as H0.
  pose proof (Hh 1 ltac:(lia)) as H1.
  replace (calls w + 1) with (S (calls w)) in H1 by lia.
  unfold DELETE_memory. unfold_step.
  rewrite (deleteMemoryFromD1_ok _ _ _ H0). cbv beta iota. unfold_step.
  rewrite deleteVectorById_ok by done. cbv beta iota.
  eexists. split; [reflexivity|]. unfold later. observe.
  by repeat split.
Qed.

(** X9. A delete of a generic memory with both back ends healthy is
    answered 200; afterwards no row of [memories] has this id for this
    owner, every other row - another id, or the same id under another
    owner - is still there and in the same order, the index has lost
    exactly the entry of this id in the owner's namespace, and table
    [emails] is untouched: a structured record of the memory stays
    behind. *)
Theorem DELETE_memory_removes_only_the_target (userId memoryId : string)
    (w : Env) :
  healthy w 2 →
  ∃ w',
    DELETE_memory userId memoryId w
    = (Return {| status := 200; json := Success |}, w')
    ∧ absent w' memoryId userId
    ∧ (∀ row, row ∈ memories (DB w') ↔
              row ∈ memories (DB w) ∧ targets memoryId userId row = false)
    ∧ memories (DB w') `sublist_of` memories (DB w)
    ∧ emails (DB w') = emails (DB w)
    ∧ (∀ x, x ∈ VECTORIZE w' ↔
            x ∈ VECTORIZE w ∧ same_entry memoryId userId x = false)
    ∧ VECTORIZE w' `sublist_of` VECTORIZE w.
Proof.
  intros Hh.
  destruct (DELETE_memory_ok userId memoryId w Hh)
    as (w' & E & HM & HE & HV & _).
  exists w'. split; [done|]. unfold absent. rewrite HM, HV.
  split; [by intros row [? _]%list_elem_of_filter|].
  split; [intros row; rewrite list_elem_of_filter; tauto|].
  split; [apply sublist_filter|]. split; [done|].
  split; [intros x; rewrite list_elem_of_filter; tauto | apply sublist_filter].
Qed.

(** X10. A delete of a generic memory whose [DELETE] statement fails is
    answered 500; both stores are as before, and no request reached the
    index: the only round trip is the failed statement. *)
Theorem DELETE_memory_store_failure_is_500 (userId memoryId msg : string)
    (w : Env) :
  outage w (calls w) = Some msg →
  ∃ w' evs,
    DELETE_memory userId memoryId w
    = (Return {| status := 500; json := Failure "Failed to delete memory" |},
       w')
    ∧ DB w' = DB w
    ∧ VECTORIZE w' = VECTORIZE w
    ∧ since w w' evs
    ∧ round_trips evs = [D1 (DeleteMemory memoryId userId)].
Proof.
  intros Hout. unfold DELETE_memory, deleteMemoryFromD1. unfold_step.
  rewrite (DB_run_down _ _ _ Hout). cbv beta iota. unfold_step.
  unfold console_error, throw. cbv beta iota.
  eexists _, [_; _; _]. split; [reflexivity|]. unfold since. observe.
  by rewrite <- !app_assoc.
Qed.

Lemma targets_updated content id userId id' userId' row :
  targets id' userId'
    (if targets id userId row
     then {| m_id := m_id row; m_userId := m_userId row;
             m_content := content; m_created_at := m_created_at row |}
     else row)
  = targets id' userId' row.
Proof. by destruct (targets id userId row). Qed.

Lemma updated_keys content id userId rows :
  m_id <$> updated content id userId rows = m_id <$> rows
  ∧ m_userId <$> updated content id userId rows = m_userId <$> rows
  ∧ m_created_at <$> updated content id userId rows = m_created_at <$> rows.
Proof.
  unfold updated. rewrite <- !list_fmap_compose.
  repeat split; apply list_fmap_ext; intros ? row _; cbn;
    by destruct (targets id userId row).
Qed.

Lemma updated_idem content id userId rows :
  updated content id userId (updated content id userId rows)
  = updated content id userId rows.
Proof.
  unfold updated. rewrite <- list_fmap_compose.
  apply list_fmap_ext. intros ? row _. cbn.
  rewrite targets_updated. by destruct (targets id userId row).
Qed.

Lemma updated_elem content id userId rows row' :
  row' ∈ updated content id userId rows →
  ∃ row, row ∈ rows
         ∧ targets id userId row' = targets id userId row
         ∧ (if targets id userId row then m_content row' = content
            else row' = row).
Proof.
  unfold updated. intros (row & -> & Hin)%list_elem_of_fmap.
  exists row. split; [done|]. rewrite targets_updated. split; [done|].
  by destruct (targets id userId row).
Qed.

Lemma updateMemoryInD1_ok memoryId userId newContent w row :
  outage w (calls w) = None →
  row ∈ memories (DB w) → targets memoryId userId row = true →
  updateMemoryInD1 memoryId userId newContent w
  = (Return (),
     with_DB {| memories := updated newContent memoryId userId (memories (DB w));
                emails := emails (DB w) |}
       (record_event (Call (D1 (UpdateMemory newContent memoryId userId))) w)).
Proof.
  intros Hout Hin Ht. unfold updateMemoryInD1. unfold_step.
  rewrite (DB_run_ok (UpdateMemory newContent memoryId userId) w _ _
             Hout eq_refl).
  cbv beta iota.
  assert (row ∈ filter (λ r, targets memoryId userId r = true)
                  (memories (DB w))) as Hf by by apply list_elem_of_filter.
  cbn [meta ran].
  destruct (filter _ (memories (DB w))) as [|x l];
    [by apply elem_of_nil in Hf | done].
Qed.

Lemma PUT_memory_ok (userId memoryId text : string) (w : Env) (row : MemoryRow) :
  Js.trim text ≠ "" →
  healthy w 3 →
  row ∈ memories (DB w) → targets memoryId userId row = true →
  ∃ w',
    PUT_memory userId memoryId (JsonObject {| content := Some text |}) w
    = (Return {| status := 200; json := Success |}, w')
    ∧ memories (DB w')
      = updated (Js.trim text) memoryId userId (memories (DB w))
    ∧ emails (DB w') = emails (DB w)
    ∧ VECTORIZE w'
      = upsert {| v_id := memoryId; v_namespace := userId;
                  v_text := Js.trim text; v_metadata := [] |} (VECTORIZE w)
    ∧ later 3 w w'.
Proof.
  intros Htrim Hh Hin Ht. pose proof (healthy_now _ _ Hh) as H0.
  pose proof (Hh 1 ltac:(lia)) as H1. pose proof (Hh 2 ltac:(lia)) as H2.
  replace (calls w + 1) with (S (calls w)) in H1 by lia.
  replace (calls w + 2) with (S (S (calls w))) in H2 by lia.
  unfold PUT_memory. cbn [content]. rewrite bool_decide_eq_false_2 by done.
  unfold_step. rewrite (updateMemoryInD1_ok _ _ _ _ row H0 Hin Ht).
  cbv beta iota. unfold_step. unfold updateMemoryVector. unfold_step.
  rewrite round_trip_ok by done. cbv beta iota zeta.
  rewrite VEC_write_ok by done. cbv beta iota.
  eexists. split; [reflexivity|]. unfold later. observe. by repeat split.
Qed.

(** X11. An update of an existing memory with non-blank content and both
    back ends healthy is answered 200; afterwards the rows of this id and
    owner hold the trimmed content, every other row is the very same, no
    row was added, removed or moved and no id, owner or creation time
    changed; table [emails] is untouched, and the index holds, for this id
    in the owner's namespace, the entry of the trimmed content. *)
Theorem PUT_memory_rewrites_only_the_target (userId memoryId text : string)
    (w : Env) (row : MemoryRow) :
  Js.trim text ≠ "" →
  healthy w 3 →
  row ∈ memories (DB w) → targets memoryId userId row = true →
  ∃ w',
    PUT_memory userId memoryId (JsonObject {| content := Some text |}) w
    = (Return {| status := 200; json := Success |}, w')
    ∧ (∀ row', row' ∈ memories (DB w') →
         if targets memoryId userId row'
         then m_content row' = Js.trim text
         else row' ∈ memories (DB w))
    ∧ m_id <$> memories (DB w') = m_id <$> memories (DB w)
    ∧ m_userId <$> memories (DB w') = m_userId <$> memories (DB w)
    ∧ m_created_at <$> memories (DB w') = m_created_at <$> memories (DB w)
    ∧ emails (DB w') = emails (DB w)
    ∧ {| v_id := memoryId; v_namespace := userId; v_text := Js.trim text;
         v_metadata := [] |} ∈ VECTORIZE w'.
Proof.
  intros Htrim Hh Hin Ht.
  destruct (PUT_memory_ok userId memoryId text w row Htrim Hh Hin Ht)
    as (w' & E & HM & HE & HV & _).
  exists w'. split; [done|]. rewrite HM, HV.
  destruct (updated_keys (Js.trim text) memoryId userId (memories (DB w)))
    as (Hk1 & Hk2 & Hk3).
  split.
  { intros row' (r & Hr & Hsame & Hcase)%updated_elem. rewrite Hsame.
    destruct (targets memoryId userId r); [done | by subst]. }
  do 4 (split; [done|]). unfold upsert. apply elem_of_app. right. constructor.
Qed.

(** X12. An update whose [UPDATE] statement fails in the database is
    classified by the text of the error: when the message contains
    ["not found"] the handler answers 404 with that message, otherwise it
    answers 500 with the message, or with ["Failed to update memory"] when
    the message is empty. In both cases the stores are as before and the
    index was not asked. *)
Theorem PUT_memory_store_failure_by_message (userId memoryId text msg : string)
    (w : Env) :
  Js.trim text ≠ "" →
  outage w (calls w) = Some msg →
  ∃ w' evs,
    PUT_memory userId memoryId (JsonObject {| content := Some text |}) w
    = (Return
         (if Js.includes "not found" msg
          then {| status := 404; json := Failure msg |}
          else {| status := 500;
                  json := Failure (if bool_decide (msg = "")
                                   then "Failed to update memory" else msg) |}),
       w')
    ∧ DB w' = DB w
    ∧ VECTORIZE w' = VECTORIZE w
    ∧ since w w' evs
    ∧ round_trips evs = [D1 (UpdateMemory (Js.trim text) memoryId userId)].
Proof.
  intros Htrim Hout.
  unfold PUT_memory. cbn [content]. rewrite bool_decide_eq_false_2 by done.
  unfold updateMemoryInD1. unfold_step.
  rewrite (DB_run_down _ _ _ Hout). cbv beta iota. unfold_step.
  unfold console_error, throw. cbv beta iota zeta. cbn [message].
  assert (∀ w0,
    (if Js.includes "not found"
          (if Js.truthy (Some msg) then msg else "Failed to update memory")
     then respond 404
            (Failure (if Js.truthy (Some msg) then msg
                      else "Failed to update memory"))
     else respond 500
            (Failure (if Js.truthy (Some msg) then msg
                      else "Failed to update memory"))) w0
    = (Return
         (if Js.includes "not found" msg
          then {| status := 404; json := Failure msg |}
          else {| status := 500;
                  json := Failure (if bool_decide (msg = "")
                                   then "Failed to update memory"
                                   else msg) |}), w0)) as Hclass.
  { intros w0. destruct msg as [|c msg']; [reflexivity|].
    change (Js.truthy (Some (String c msg'))) with true. cbv iota.
    rewrite bool_decide_eq_false_2 by done.
    by destruct (Js.includes "not found" (String c msg')). }
  unfold_step. rewrite Hclass.
  eexists _, [_; _; _]. split; [reflexivity|].
  unfold since. observe. by rewrite <- !app_assoc.
Qed.

Lemma filter_idem {A} (P : A → Prop) `{∀ x, Decision (P x)} (l : list A) :
  filter P (filter P l) = filter P l.
Proof.
  induction l as [|x l IH]; [done|]. rewrite filter_cons.
  destruct (decide (P x)); [|done]. by rewrite filter_cons_True, IH.
Qed.

(** X13. Updating twice with the same content: with six healthy round
    trips ahead, both updates of an existing memory are answered 200 -
    the second one too, although it changes no content - and the second
    leaves the database and the index exactly as the first left them. *)
Theorem PUT_memory_twice (userId memoryId text : string) (w : Env)
    (row : MemoryRow) :
  Js.trim text ≠ "" →
  healthy w 6 →
  row ∈ memories (DB w) → targets memoryId userId row = true →
  ∃ w1 w2,
    PUT_memory userId memoryId (JsonObject {| content := Some text |}) w
    = (Return {| status := 200; json := Success |}, w1)
    ∧ PUT_memory userId memoryId (JsonObject {| content := Some text |}) w1
      = (Return {| status := 200; json := Success |}, w2)
    ∧ DB w2 = DB w1
    ∧ VECTORIZE w2 = VECTORIZE w1.
Proof.
  intros Htrim Hh Hin Ht.
  destruct (PUT_memory_ok userId memoryId text w row Htrim
              (healthy_weaken 3 6 w Hh ltac:(lia)) Hin Ht)
    as (w1 & E1 & HM1 & HE1 & HV1 & HL1).
  set (row1 := {| m_id := m_id row; m_userId := m_userId row;
                  m_content := Js.trim text;
                  m_created_at := m_created_at row |}).
  assert (row1 ∈ memories (DB w1)) as Hin1.
  { rewrite HM1. unfold updated. apply list_elem_of_fmap. exists row.
    by rewrite Ht. }
  assert (targets memoryId userId row1 = true) as Ht1 by exact Ht.
  destruct (PUT_memory_ok userId memoryId text w1 row1 Htrim
              (healthy_later 3 3 w w1 Hh HL1) Hin1 Ht1)
    as (w2 & E2 & HM2 & HE2 & HV2 & _).
  exists w1, w2. do 2 (split; [done|]). split.
  - assert (memories (DB w2) = memories (DB w1)) as HM
      by (rewrite HM2, HM1; apply updated_idem).
    destruct (DB w2) as [m2 e2], (DB w1) as [m1 e1]. cbn in *. congruence.
  - rewrite HV2, HV1. unfold upsert. cbn [v_id v_namespace].
    rewrite filter_app.
    rewrite (filter_cons_False _ _ []).
    + rewrite filter_nil, app_nil_r. f_equal.
      apply filter_idem.
    + unfold same_entry. cbn. by rewrite !bool_decide_eq_true_2.
Qed.

(** X14. Update after delete: with three healthy round trips ahead, a
    delete of a memory is answered 200 and an update of the same id and
    owner that follows it is answered 404 with the not-found message,
    changing nothing. *)
Theorem PUT_memory_after_DELETE_memory_is_404 (userId memoryId text : string)
    (w : Env) :
  Js.trim text ≠ "" →
  healthy w 3 →
  ∃ w1 w2,
    DELETE_memory userId memoryId w
    = (Return {| status := 200; json := Success |}, w1)
    ∧ PUT_memory userId memoryId (JsonObject {| content := Some text |}) w1
      = (Return {| status := 404;
                   json := Failure (not_found_message memoryId userId) |}, w2)
    ∧ DB w2 = DB w1
    ∧ VECTORIZE w2 = VECTORIZE w1.
Proof.
  intros Htrim Hh.
  destruct (DELETE_memory_ok userId memoryId w
              (healthy_weaken 2 3 w Hh ltac:(lia)))
    as (w1 & E1 & HM1 & _ & _ & HL1).
  pose proof (healthy_now _ _ (healthy_later 2 1 w w1 Hh HL1)) as H1.
  assert (absent w1 memoryId userId) as Habs.
  { unfold absent. rewrite HM1. by intros row [? _]%list_elem_of_filter. }
  exists w1. eexists. split; [exact E1|].
  unfold PUT_memory. cbn [content]. rewrite bool_decide_eq_false_2 by done.
  unfold_step. rewrite (updateMemoryInD1_miss _ _ _ _ H1 Habs).
  cbv beta iota. unfold_step. unfold console_error at 1. cbv beta iota.
  cbn [message]. rewrite not_found_message_truthy, not_found_message_includes.
  split; [reflexivity|]. by observe.
Qed.

(** ** Delete of a structured record *)

Lemma deleteEmail_ok memoryId userId w :
  outage w (calls w) = None →
  deleteEmail memoryId userId w
  = (Return (),
     with_DB {| memories := memories (DB w);
                emails := filter (λ row, email_targets memoryId userId row = false)
                                 (emails (DB w)) |}
       (record_event (Call (D1 (DeleteEmail memoryId userId))) w)).
Proof.
  intros Hout. unfold deleteEmail. unfold_step.
  by rewrite (DB_run_ok (DeleteEmail memoryId userId) w _ _ Hout eq_refl).
Qed.

Lemma lookup_email_deleted rows userId memoryId :
  lookup_email (filter (λ row, email_targets memoryId userId row = false) rows)
    userId memoryId = None.
Proof.
  unfold lookup_email.
  induction rows as [|x rows IH]; [done|].
  rewrite filter_cons. destruct (decide (email_targets memoryId userId x = false))
    as [Hx|Hx]; [|done].
  rewrite filter_cons_False; [done|].
  intros [Hid Hu]. unfold email_targets in Hx.
  by rewrite !bool_decide_eq_true_2 in Hx.
Qed.

(** X15. A delete of a structured record with three healthy round trips
    ahead is answered 200 and removes, for this id and owner only, the
    row of [emails], the row of [memories] and the entry of the index;
    every other row and entry stays, in the same order. *)
Theorem DELETE_email_removes_all_three (userId memoryId : string) (w : Env) :
  healthy w 3 →
  ∃ w',
    DELETE_email userId memoryId w
    = (Return {| status := 200; json := Success |}, w')
    ∧ emails (DB w')
      = filter (λ row, email_targets memoryId userId row = false)
               (emails (DB w))
    ∧ memories (DB w')
      = filter (λ row, targets memoryId userId row = false) (memories (DB w))
    ∧ VECTORIZE w'
      = filter (λ x, same_entry memoryId userId x = false) (VECTORIZE w)
    ∧ lookup_email (emails (DB w')) userId memoryId = None
    ∧ absent w' memoryId userId
    ∧ (∀ x, x ∈ VECTORIZE w' → same_entry memoryId userId x = false).
Proof.
  intros Hh. pose proof (healthy_now _ _ Hh) as H0.
  pose proof (Hh 1 ltac:(lia)) as H1. pose proof (Hh 2 ltac:(lia)) as H2.
  replace (calls w + 1) with (S (calls w)) in H1 by lia.
  replace (calls w + 2) with (S (S (calls w))) in H2 by lia.
  unfold DELETE_email. unfold_step.
  rewrite (deleteEmail_ok _ _ _ H0). cbv beta iota. unfold_step.
  rewrite deleteMemoryFromD1_ok by done. cbv beta iota. unfold_step.
  rewrite deleteVectorById_ok by done. cbv beta iota.
  eexists. split; [reflexivity|]. unfold absent. observe.
  cbn [memories emails]. do 3 (split; [done|]). split; [|split].
  - apply lookup_email_deleted.
  - by intros row [? _]%list_elem_of_filter.
  - by intros x [? _]%list_elem_of_filter.
Qed.

(** X16. A delete of a structured record does not swallow any failure and
    rolls nothing back. If the first statement fails, the answer is 500
    and nothing changed. If the row of [emails] is deleted and the delete
    in [memories] fails, the answer is 500, the row of [emails] is gone,
    [memories] and the index are as before. If both rows are deleted and
    the index fails, the answer is still 500 - unlike the delete of a
    generic memory - with both rows gone and the index as before. *)
Theorem DELETE_email_fails_without_rollback (userId memoryId msg : string)
    (w : Env) :
  let failed := {| status := 500; json := Failure "Failed to delete email" |} in
  (outage w (calls w) = Some msg →
     ∃ w', DELETE_email userId memoryId w = (Return failed, w')
           ∧ DB w' = DB w ∧ VECTORIZE w' = VECTORIZE w)
  ∧ (healthy w 1 → outage w (1 + calls w) = Some msg →
       ∃ w', DELETE_email userId memoryId w = (Return failed, w')
             ∧ emails (DB w')
               = filter (λ row, email_targets memoryId userId row = false)
                        (emails (DB w))
             ∧ memories (DB w') = memories (DB w)
             ∧ VECTORIZE w' = VECTORIZE w)
  ∧ (healthy w 2 → outage w (2 + calls w) = Some msg →
       ∃ w', DELETE_email userId memoryId w = (Return failed, w')
             ∧ emails (DB w')
               = filter (λ row, email_targets memoryId userId row = false)
                        (emails (DB w))
             ∧ memories (DB w')
               = filter (λ row, targets memoryId userId row = false)
                        (memories (DB w))
             ∧ VECTORIZE w' = VECTORIZE w).
Proof.
  cbv zeta. split; [|split].
  - intros H0. unfold DELETE_email, deleteEmail. unfold_step.
    rewrite (DB_run_down _ _ _ H0). cbv beta iota. unfold_step.
    unfold console_error. eexists. split; [reflexivity|]. by observe.
  - intros Hh H1. pose proof (healthy_now _ _ Hh) as H0.
    unfold DELETE_email. unfold_step.
    rewrite (deleteEmail_ok _ _ _ H0). cbv beta iota. unfold_step.
    unfold deleteMemoryFromD1. unfold_step.
    rewrite DB_run_down with (msg := msg) by done.
    cbv beta iota. unfold_step. unfold console_error, throw.
    cbv beta iota. unfold_step.
    eexists. split; [reflexivity|]. by observe.
  - intros Hh H2. pose proof (healthy_now _ _ Hh) as H0.
    pose proof (Hh 1 ltac:(lia)) as H1.
    replace (calls w + 1) with (S (calls w)) in H1 by lia.
    unfold DELETE_email. unfold_step.
    rewrite (deleteEmail_ok _ _ _ H0). cbv beta iota. unfold_step.
    rewrite deleteMemoryFromD1_ok by done. cbv beta iota. unfold_step.
    unfold deleteVectorById.
    rewrite VEC_write_down with (msg := msg) by done.
    cbv beta iota. unfold_step. unfold console_error.
    eexists. split; [reflexivity|]. by observe.
Qed.

(** ** The derived company *)

Lemma toLowerCase_unit_idem c :
  Js.toLowerCase_unit (Js.toLowerCase_unit c) = Js.toLowerCase_unit c.
Proof. by destruct c as [[] [] [] [] [] [] [] []]. Qed.

Lemma toLowerCase_unit_dot c :
  Js.toLowerCase_unit c = "."%char → c = "."%char.
Proof. by destruct c as [[] [] [] [] [] [] [] []]. Qed.

Lemma toLowerCase_unit_bracket c :
  Js.toLowerCase_unit c = ">"%char → c = ">"%char.
Proof. by destruct c as [[] [] [] [] [] [] [] []]. Qed.

Lemma toLowerCase_idem s : Js.toLowerCase (Js.toLowerCase s) = Js.toLowerCase s.
Proof.
  induction s as [|c s IH]; [done|]. cbn.
  by rewrite toLowerCase_unit_idem, IH.
Qed.

Lemma toLowerCase_append a b :
  Js.toLowerCase (a +:+ b) = Js.toLowerCase a +:+ Js.toLowerCase b.
Proof.
  induction a as [|c a IH]; [done|]. rewrite append_cons. cbn.
  by rewrite IH, append_cons.
Qed.

Lemma free_toLowerCase x s :
  (∀ c, Js.toLowerCase_unit c = x → c = x) →
  free x s → free x (Js.toLowerCase s).
Proof.
  intros Hx. induction s as [|c s IH]; [done|]. cbn.
  rewrite !free_cons. intros [Hc Hs]. split; [|by apply IH].
  intros E. by apply Hc, Hx.
Qed.

Lemma toLowerCase_join ls :
  Js.toLowerCase (Js.join "." ls) = Js.join "." (Js.toLowerCase <$> ls).
Proof.
  induction ls as [|l ls IH]; [done|].
  destruct ls as [|l2 ls]; [done|].
  cbn [fmap list_fmap] in *. rewrite !join_cons2, !toLowerCase_append, IH.
  done.
Qed.

Lemma free_join x ls : free x (Js.join "." ls) → Forall (free x) ls.
Proof.
  induction ls as [|l ls IH]; [done|].
  destruct ls as [|l2 ls]; [by repeat constructor|].
  rewrite join_cons2. intros [Hl [_ Hrest]%free_append]%free_append.
  constructor; [done | by apply IH].
Qed.

(** X17. Whatever the sender, a derived company is in lower case and
    contains neither a dot nor a closing bracket. *)
Theorem extractCompanyFromEmail_is_a_lowercase_label (sender c : string) :
  extractCompanyFromEmail sender = Some c →
  Js.toLowerCase c = c ∧ free "." c ∧ free ">" c.
Proof.
  intros (d & ls & (pre & rest & _ & (_ & Hd & _) & _) & Hls & Hc)
    %extractCompanyFromEmail_Some.
  assert (c ∈ ls) as Hin.
  { unfold chosen_label in Hc.
    destruct (decide _); by eapply list_elem_of_lookup_2. }
  pose proof Hls as (Hne & Hfree & Hjoin).
  assert (Js.toLowerCase <$> ls = ls) as Hfix.
  { transitivity (Js.split "." (Js.toLowerCase d)).
    - apply labels_of_split. split; [by destruct ls|]. split.
      + apply Forall_fmap. eapply Forall_impl; [exact Hfree|].
        intros l Hl. apply free_toLowerCase; [|done].
        apply toLowerCase_unit_dot.
      + by rewrite <- toLowerCase_join, Hjoin, toLowerCase_idem.
    - symmetry. by apply labels_of_split. }
  split; [|split].
  - apply list_elem_of_lookup in Hin as [i Hi].
    assert ((Js.toLowerCase <$> ls) !! i = Some (Js.toLowerCase c)) as Hi'
      by by rewrite list_lookup_fmap, Hi.
    rewrite Hfix, Hi in Hi'. congruence.
  - by apply (proj1 (Forall_forall _ _) Hfree).
  - assert (free ">" (Js.join "." ls)) as Hj.
    { rewrite Hjoin. apply free_toLowerCase; [|done].
      apply toLowerCase_unit_bracket. }
    by apply (proj1 (Forall_forall _ _) (free_join _ _ Hj)).
Qed.

Lemma regex_match_after_clean_prefix pre d tl :
  free "@" pre → d ≠ "" → free ">" d → tl = "" ∨ tl = ">" →
  regex_match (pre +:+ String "@" (d +:+ tl)) = Some d.
Proof.
  intros Hpre Hne Hgt Htl.
  apply regex_match_spec. exists pre, (d +:+ tl). split; [done|]. split.
  - split; [done|]. split; [done|].
    destruct Htl as [-> | ->]; [left; apply append_empty_r | by right].
  - intros pre' rest' d' E Hlen _.
    by apply (earlier_occurrence _ _ _ _ _ E Hlen).
Qed.

(** X18. A display name does not matter: for a name and a local part
    without ['@'] and a non-empty domain without closing bracket, the
    sender written ["name <local@domain>"] yields the same company as
    the bare address ["local@domain"]. *)
Theorem extractCompanyFromEmail_ignores_display_name (name local d : string) :
  free "@" name → free "@" local → d ≠ "" → free ">" d →
  extractCompanyFromEmail
    (name +:+ " <" +:+ local +:+ String "@" (d +:+ ">"))
  = extractCompanyFromEmail (local +:+ String "@" d).
Proof.
  intros Hname Hlocal Hne Hgt.
  unfold extractCompanyFromEmail.
  rewrite <- (append_empty_r d) at 2.
  rewrite (regex_match_after_clean_prefix local d "") by eauto.
  rewrite <- !append_assoc.
  rewrite (regex_match_after_clean_prefix _ d ">"); [done| |done|done|by right].
  apply free_append. split; [|done].
  apply free_append. split; [done|].
  apply free_cons. split; [done|]. apply free_cons. split; [done|].
  apply free_nil.
Qed.

(** ** The mount point *)

(** X19. The mount handler takes the user id from the first segment of the
    path, as it is written there and whatever follows it: for a segment
    without slash, followed by nothing or by a slash and anything, the
    request is routed with that user id to the mount point
    [/userId/sse]; when the first segment is empty the answer is the 400
    response. *)
Theorem mount_takes_first_segment (userId rest : string) :
  free "/" userId →
  rest = "" ∨ (∃ r, rest = String "/" r) →
  mount (String "/" (userId +:+ rest))
  = if bool_decide (userId = "") then BadRequest
    else Routed userId ("/" +:+ userId +:+ "/sse").
Proof.
  intros Hfree Hrest. unfold mount. cbv zeta.
  assert (Js.split "/" (String "/" (userId +:+ rest)) !! 1 = Some userId) as ->.
  { cbn [Js.split]. rewrite Ascii.eqb_refl. cbn [lookup list_lookup].
    destruct Hrest as [-> | [r ->]].
    - by rewrite append_empty_r, split_free.
    - by rewrite split_append. }
  destruct userId as [|c u]; [done|].
  by rewrite bool_decide_eq_false_2.
Qed.

(** ** Reading a structured record back *)

Lemma read_trip_ok w :
  outage w (calls w) = None →
  ∃ w', read_trip w = (Return (), w')
        ∧ DB w' = DB w ∧ VECTORIZE w' = VECTORIZE w ∧ later 1 w w'.
Proof.
  intros H. unfold read_trip. cbv zeta. rewrite H.
  eexists. split; [reflexivity|]. unfold later. by observe.
Qed.

Lemma getEmailWithContent_ok memoryId userId w :
  outage w (calls w) = None →
  ∃ w',
    getEmailWithContent memoryId userId w
    = (Return (head (select_email_with_content memoryId userId (DB w))), w')
    ∧ DB w' = DB w ∧ VECTORIZE w' = VECTORIZE w ∧ later 1 w w'.
Proof.
  intros H. destruct (read_trip_ok w H) as (w' & E & HD & HV & HL).
  unfold getEmailWithContent. unfold_step. rewrite E. cbv beta iota.
  exists w'. by rewrite HD.
Qed.

Lemma GET_email_ok userId memoryId w :
  outage w (calls w) = None →
  ∃ w',
    GET_email userId memoryId w
    = (Return
         match head (select_email_with_content memoryId userId (DB w)) with
         | Some email => {| e_status := 200; e_json := EmailFound email |}
         | None => {| e_status := 404; e_json := EmailFailure "Not Found" |}
         end, w')
    ∧ DB w' = DB w ∧ VECTORIZE w' = VECTORIZE w ∧ later 1 w w'.
Proof.
  intros H.
  destruct (getEmailWithContent_ok memoryId userId w H)
    as (w' & E & HD & HV & HL).
  unfold GET_email. unfold_step. rewrite E. cbv beta iota.
  exists w'. by destruct (head _).
Qed.

Lemma select_email_none memoryId userId (db : D1Database) :
  (∀ row, row ∈ emails db → email_targets memoryId userId row = false) →
  select_email memoryId userId db = [].
Proof.
  intros H. unfold select_email.
  induction (emails db) as [|x l IH]; [done|].
  rewrite filter_cons_False.
  - apply IH. intros row Hrow. apply H. by right.
  - rewrite H; [done | by left].
Qed.

Lemma filter_none {A} (P : A → Prop) `{∀ x, Decision (P x)} (l : list A) :
  (∀ x, x ∈ l → ¬ P x) → filter P l = [].
Proof.
  induction l as [|x l IH]; [done|]. intros Hl.
  rewrite filter_cons_False by (apply Hl; by left).
  apply IH. intros y Hy. apply Hl. by right.
Qed.

Lemma filter_all {A} (P : A → Prop) `{∀ x, Decision (P x)} (l : list A) :
  (∀ x, x ∈ l → P x) → filter P l = l.
Proof.
  induction l as [|x l IH]; [done|]. intros Hl.
  rewrite filter_cons_True by (apply Hl; by left). f_equal.
  apply IH. intros y Hy. apply Hl. by right.
Qed.

Lemma select_email_elem memoryId userId (db : D1Database) e :
  e ∈ select_email memoryId userId db →
  e ∈ emails db ∧ r_memoryId e = memoryId ∧ r_userId e = userId.
Proof.
  unfold select_email. rewrite list_elem_of_filter. intros [Ht He].
  split; [done|]. unfold email_targets in Ht.
  apply andb_true_iff in Ht as [H1 H2].
  by apply bool_decide_eq_true in H1, H2.
Qed.

Lemma joined_rows_none (db : D1Database) (l : list EmailRecord) :
  (∀ e m, e ∈ l → m ∈ memories db → m_id m ≠ r_memoryId e) →
  (e ← l;
   (λ m, {| ec_email := e; ec_content := m_content m |})
     <$> filter (λ m, m_id m = r_memoryId e) (memories db)) = [].
Proof.
  induction l as [|e l IH]; [done|]. intros H. cbn.
  rewrite IH by (intros e' m He' Hm; apply H; [by right | done]).
  rewrite filter_none; [done|].
  intros m Hm. apply H; [by left | done].
Qed.

(** X20. The single-record route answers 404, with the database reachable,
    whenever [emails] has no row of this id for this owner - be it that
    the record never existed, was deleted, or belongs to another owner -
    and also whenever the row exists but no row of [memories] has its id
    any more. Nothing changes. *)
Theorem GET_email_of_missing_is_404 (userId memoryId : string) (w : Env) :
  outage w (calls w) = None →
  (∀ row, row ∈ emails (DB w) → email_targets memoryId userId row = false)
  ∨ (∀ m, m ∈ memories (DB w) → m_id m ≠ memoryId) →
  ∃ w',
    GET_email userId memoryId w
    = (Return {| e_status := 404; e_json := EmailFailure "Not Found" |}, w')
    ∧ DB w' = DB w ∧ VECTORIZE w' = VECTORIZE w.
Proof.
  intros Hout Hmiss.
  destruct (GET_email_ok userId memoryId w Hout) as (w' & E & HD & HV & _).
  exists w'. split; [|done]. rewrite E. f_equal.
  assert (select_email_with_content memoryId userId (DB w) = []) as ->; [|done].
  unfold select_email_with_content. destruct Hmiss as [He|Hm].
  - by rewrite select_email_none.
  - apply joined_rows_none. intros e m He Hin.
    apply select_email_elem in He as (_ & -> & _). by apply Hm.
Qed.

Lemma select_email_snoc memoryId userId (db : D1Database) rows row :
  emails db = rows ++ [row] →
  (∀ r, r ∈ rows → email_targets memoryId userId r = false) →
  email_targets memoryId userId row = true →
  select_email memoryId userId db = [row].
Proof.
  intros Heq Hold Hnew. unfold select_email. rewrite Heq, filter_app.
  rewrite (filter_none _ rows) by (intros r Hr; rewrite (Hold r Hr); done).
  by rewrite filter_cons_True.
Qed.

Lemma fresh_id_filter (id : string) (rows : list MemoryRow) :
  id ∉ m_id <$> rows → filter (λ m, m_id m = id) rows = [].
Proof.
  intros Hfresh. apply filter_none. intros m Hm Hid. apply Hfresh.
  apply list_elem_of_fmap. by exists m.
Qed.

Lemma email_targets_stored email userId id created :
  email_targets id userId (stored_row email userId id created) = true.
Proof.
  unfold email_targets, stored_row. cbn.
  by rewrite !bool_decide_eq_true_2.
Qed.

(** X21. A record that was just created is read back by the single-record
    route: after a successful create under a fresh id to which no earlier
    record of the owner points, the route answers 200 with the row that
    was written to [emails] and, as its content, the projection of the
    e-mail. *)
Theorem created_email_reads_back (userId uuidv4 : string) (json : EmailJson)
    (w : Env) :
  complete json →
  healthy w 5 →
  uuidv4 ∉ m_id <$> memories (DB w) →
  uuidv4 ∉ r_id <$> emails (DB w) →
  (∀ r, r ∈ emails (DB w) → email_targets uuidv4 userId r = false) →
  ∃ w1 w2,
    POST_emails userId (JsonObject json) uuidv4 w
    = (Return {| status := 200; json := SuccessId uuidv4 |}, w1)
    ∧ GET_email userId uuidv4 w1
      = (Return
           {| e_status := 200;
              e_json :=
                EmailFound
                  {| ec_email :=
                       stored_row (as_EmailData json) userId uuidv4 (now w);
                     ec_content := projection (as_EmailData json) |} |}, w2)
    ∧ DB w2 = DB w1 ∧ VECTORIZE w2 = VECTORIZE w1.
Proof.
  intros Hc Hh Hm He Hold.
  destruct (POST_emails_ok userId uuidv4 json w Hc
              (healthy_weaken 4 5 w Hh ltac:(lia)) Hm He)
    as (w1 & E1 & HM & HE & HV & HL).
  pose proof (healthy_now _ _ (healthy_later 4 1 w w1 Hh HL)) as H1.
  destruct (GET_email_ok userId uuidv4 w1 H1) as (w2 & E2 & HD2 & HV2 & _).
  exists w1, w2. split; [exact E1|]. split; [|done]. rewrite E2.
  unfold select_email_with_content.
  rewrite (select_email_snoc _ _ _ _ _ HE Hold (email_targets_stored _ _ _ _)).
  cbn. rewrite HM, filter_app, fresh_id_filter by done.
  by rewrite filter_cons_True.
Qed.

Lemma DELETE_email_ok (userId memoryId : string) (w : Env) :
  healthy w 3 →
  ∃ w',
    DELETE_email userId memoryId w
    = (Return {| status := 200; json := Success |}, w')
    ∧ emails (DB w')
      = filter (λ row, email_targets memoryId userId row = false)
               (emails (DB w))
    ∧ memories (DB w')
      = filter (λ row, targets memoryId userId row = false) (memories (DB w))
    ∧ VECTORIZE w'
      = filter (λ x, same_entry memoryId userId x = false) (VECTORIZE w)
    ∧ later 3 w w'.
Proof.
  intros Hh. pose proof (healthy_now _ _ Hh) as H0.
  pose proof (Hh 1 ltac:(lia)) as H1. pose proof (Hh 2 ltac:(lia)) as H2.
  replace (calls w + 1) with (S (calls w)) in H1 by lia.
  replace (calls w + 2) with (S (S (calls w))) in H2 by lia.
  unfold DELETE_email. unfold_step.
  rewrite (deleteEmail_ok _ _ _ H0). cbv beta iota. unfold_step.
  rewrite deleteMemoryFromD1_ok by done. cbv beta iota. unfold_step.
  rewrite deleteVectorById_ok by done. cbv beta iota.
  eexists. split; [reflexivity|]. unfold later. observe.
  cbn [memories emails]. by repeat split.
Qed.

Lemma D1Database_eq (db db' : D1Database) :
  memories db = memories db' → emails db = emails db' → db = db'.
Proof. destruct db, db'. cbn. by intros -> ->. Qed.

Lemma targets_fresh (id userId : string) (rows : list MemoryRow) :
  id ∉ m_id <$> rows → ∀ r, r ∈ rows → targets id userId r = false.
Proof.
  intros Hfresh r Hr. unfold targets.
  rewrite bool_decide_eq_false_2; [done|].
  intros Hid. apply Hfresh, list_elem_of_fmap. by exists r.
Qed.

(** X22. Create and delete are inverse on the stores. After a successful
    create under a fresh id - no row of [memories] or [emails] has it as
    key, no record of the owner points to it, the index has no entry for
    it in the owner's name space - a delete of that record, with the back
    ends healthy, puts both tables and the index back exactly as they
    were before the create, and the single-record route then answers
    404. *)
Theorem create_then_delete_restores (userId uuidv4 : string) (json : EmailJson)
    (w : Env) :
  complete json →
  healthy w 8 →
  uuidv4 ∉ m_id <$> memories (DB w) →
  uuidv4 ∉ r_id <$> emails (DB w) →
  (∀ r, r ∈ emails (DB w) → email_targets uuidv4 userId r = false) →
  (∀ x, x ∈ VECTORIZE w → same_entry uuidv4 userId x = false) →
  ∃ w1 w2 w3,
    POST_emails userId (JsonObject json) uuidv4 w
    = (Return {| status := 200; json := SuccessId uuidv4 |}, w1)
    ∧ DELETE_email userId uuidv4 w1
      = (Return {| status := 200; json := Success |}, w2)
    ∧ DB w2 = DB w
    ∧ VECTORIZE w2 = VECTORIZE w
    ∧ GET_email userId uuidv4 w2
      = (Return {| e_status := 404; e_json := EmailFailure "Not Found" |}, w3).
Proof.
  intros Hc Hh Hm He Hold Hix.
  destruct (POST_emails_ok userId uuidv4 json w Hc
              (healthy_weaken 4 8 w Hh ltac:(lia)) Hm He)
    as (w1 & E1 & HM1 & HE1 & HV1 & HL1).
  pose proof (healthy_later 4 4 w w1 Hh HL1) as Hh1.
  destruct (DELETE_email_ok userId uuidv4 w1
              (healthy_weaken 3 4 w1 Hh1 ltac:(lia)))
    as (w2 & E2 & HE2 & HM2 & HV2 & HL2).
  pose proof (healthy_now _ _ (healthy_later 3 1 w1 w2 Hh1 HL2)) as H2.
  destruct (GET_email_ok userId uuidv4 w2 H2) as (w3 & E3 & _).
  assert (emails (DB w2) = emails (DB w)) as HEq.
  { rewrite HE2, HE1, filter_app, filter_all by done.
    rewrite filter_cons_False; [by rewrite app_nil_r|].
    by rewrite email_targets_stored. }
  assert (memories (DB w2) = memories (DB w)) as HMq.
  { rewrite HM2, HM1, filter_app, filter_all by by apply targets_fresh.
    rewrite filter_cons_False; [by rewrite app_nil_r|].
    unfold targets, content_row. cbn. by rewrite !bool_decide_eq_true_2. }
  exists w1, w2, w3. split; [exact E1|]. split; [exact E2|].
  split; [by apply D1Database_eq|]. split.
  - rewrite HV2, HV1. unfold upsert. cbn [vector_entry v_id v_namespace].
    rewrite filter_app, filter_idem, filter_all by done.
    rewrite filter_cons_False; [by rewrite app_nil_r|].
    unfold same_entry. cbn. by rewrite !bool_decide_eq_true_2.
  - rewrite E3. f_equal. unfold select_email_with_content.
    by rewrite select_email_none by (by rewrite HEq).
Qed.

Lemma filter_id_updated content id userId (rows : list MemoryRow) row :
  NoDup (m_id <$> rows) →
  row ∈ rows → targets id userId row = true →
  filter (λ m, m_id m = id) (updated content id userId rows)
  = [{| m_id := m_id row; m_userId := m_userId row; m_content := content;
        m_created_at := m_created_at row |}].
Proof.
  intros Hnd Hin Ht.
  assert (m_id row = id) as Hid.
  { unfold targets in Ht. apply andb_true_iff in Ht as [Ht _].
    by apply bool_decide_eq_true in Ht. }
  induction rows as [|x l IH]; [by apply elem_of_nil in Hin|].
  rewrite fmap_cons in Hnd. apply NoDup_cons in Hnd as [Hx Hnd].
  unfold updated. rewrite fmap_cons. fold (updated content id userId l).
  apply elem_of_cons in Hin as [<- | Hin].
  - rewrite Ht. rewrite filter_cons_True by done. f_equal.
    apply fresh_id_filter. destruct (updated_keys content id userId l) as [-> _].
    by rewrite <- Hid.
  - assert (m_id x ≠ id) as Hne.
    { intros Hxid. apply Hx. rewrite Hxid, <- Hid.
      apply list_elem_of_fmap. by exists row. }
    assert (targets id userId x = false) as ->.
    { unfold targets. by rewrite bool_decide_eq_false_2. }
    rewrite filter_cons_False by done. by apply IH.
Qed.

(** X23. An update through the generic route shows in the single-record
    route. When the ids of [memories] are pairwise distinct (the primary
    key), the memory of the id belongs to the owner and [e] is the first
    record of the owner that points to it, then after a successful update the
    single-record route answers 200 with the same record [e] - no column
    of [emails] follows the new text - and the new trimmed text as its
    content. *)
Theorem PUT_memory_shows_in_GET_email (userId memoryId text : string)
    (w : Env) (row : MemoryRow) (e : EmailRecord) :
  Js.trim text ≠ "" →
  healthy w 4 →
  NoDup (m_id <$> memories (DB w)) →
  row ∈ memories (DB w) → targets memoryId userId row = true →
  head (select_email memoryId userId (DB w)) = Some e →
  ∃ w1 w2,
    PUT_memory userId memoryId (JsonObject {| content := Some text |}) w
    = (Return {| status := 200; json := Success |}, w1)
    ∧ GET_email userId memoryId w1
      = (Return {| e_status := 200;
                   e_json := EmailFound {| ec_email := e;
                                           ec_content := Js.trim text |} |},
         w2).
Proof.
  intros Htrim Hh Hnd Hin Ht Hhead.
  destruct (PUT_memory_ok userId memoryId text w row Htrim
              (healthy_weaken 3 4 w Hh ltac:(lia)) Hin Ht)
    as (w1 & E1 & HM & HE & HV & HL).
  pose proof (healthy_now _ _ (healthy_later 3 1 w w1 Hh HL)) as H1.
  destruct (GET_email_ok userId memoryId w1 H1) as (w2 & E2 & _).
  exists w1, w2. split; [exact E1|]. rewrite E2. f_equal.
  unfold select_email_with_content.
  assert (select_email memoryId userId (DB w1)
          = select_email memoryId userId (DB w)) as ->
    by (unfold select_email; by rewrite HE).
  destruct (select_email memoryId userId (DB w)) as [|e' rest] eqn:Hsel;
    [done|].
  injection Hhead as ->.
  assert (r_memoryId e = memoryId) as Hid.
  { apply (select_email_elem memoryId userId (DB w) e). rewrite Hsel. by left. }
  cbn. rewrite HM, Hid.
  by rewrite (filter_id_updated _ _ _ _ row Hnd Hin Ht).
Qed.

(** X24. A delete through the generic route orphans the structured
    record. When every row of [memories] with the id belongs to the
    owner, then after a successful generic delete the table [emails] is
    as before - the record is still there - and the single-record route
    answers 404 for it. *)
Theorem DELETE_memory_orphans_the_record (userId memoryId : string) (w : Env) :
  healthy w 3 →
  (∀ m, m ∈ memories (DB w) → m_id m = memoryId → m_userId m = userId) →
  ∃ w1 w2,
    DELETE_memory userId memoryId w
    = (Return {| status := 200; json := Success |}, w1)
    ∧ emails (DB w1) = emails (DB w)
    ∧ GET_email userId memoryId w1
      = (Return {| e_status := 404; e_json := EmailFailure "Not Found" |}, w2)
    ∧ emails (DB w2) = emails (DB w).
Proof.
  intros Hh Hown.
  destruct (DELETE_memory_ok userId memoryId w
              (healthy_weaken 2 3 w Hh ltac:(lia)))
    as (w1 & E1 & HM & HE & HV & HL).
  pose proof (healthy_now _ _ (healthy_later 2 1 w w1 Hh HL)) as H1.
  destruct (GET_email_ok userId memoryId w1 H1) as (w2 & E2 & HD & _).
  exists w1, w2. split; [exact E1|]. split; [exact HE|].
  split; [|by rewrite HD]. rewrite E2. f_equal.
  assert (select_email_with_content memoryId userId (DB w1) = []) as ->; [|done].
  apply joined_rows_none. intros r m Hr Hm.
  apply select_email_elem in Hr as (_ & -> & _).
  rewrite HM in Hm. apply list_elem_of_filter in Hm as [Hnt Hm].
  intros Hid. unfold targets in Hnt.
  rewrite (bool_decide_eq_true_2 _ Hid) in Hnt.
  rewrite (bool_decide_eq_true_2 _ (Hown m Hm Hid)) in Hnt. done.
Qed.

Lemma filter_targets_selected memoryId userId (rows : list EmailRecord) :
  filter (λ row, r_memoryId row = memoryId ∧ r_userId row = userId) rows
  = filter (λ row, email_targets memoryId userId row = true) rows.
Proof.
  apply list_filter_iff. intros row. unfold email_targets.
  rewrite andb_true_iff, !bool_decide_eq_true. done.
Qed.

(** X25. The single lookup and the batched lookup agree where the answer
    is determined: with the database reachable, when at most one record
    of the owner points to the id and the id is not ['__proto__'], the
    batched lookup for this one id files under it exactly what the single
    lookup returns - the record, or nothing. *)
Theorem getEmailMetadata_agrees_with_batch (memoryId userId : string)
    (w : Env) :
  outage w (calls w) = None →
  (length (select_email memoryId userId (DB w)) ≤ 1)%nat →
  memoryId ≠ "__proto__" →
  ∃ found records w1 w2,
    getEmailMetadata memoryId userId w = (Return found, w1)
    ∧ getEmailsMetadata [memoryId] userId w = (Return records, w2)
    ∧ own records !! memoryId = found
    ∧ DB w1 = DB w ∧ DB w2 = DB w.
Proof.
  intros Hout Hlen Hk.
  destruct (read_trip_ok w Hout) as (w1 & E1 & HD1 & _).
  unfold getEmailMetadata, getEmailsMetadata. unfold_step. rewrite E1.
  cbv beta iota.
  rewrite (DB_run_ok (SelectEmailsIn [memoryId] userId) w _ _ Hout eq_refl).
  cbv beta iota. eexists _, _, _, _. split; [reflexivity|].
  split; [reflexivity|]. observe. split; [|split; [done | by destruct (DB w)]].
  cbn [results]. rewrite (foldl_js_set_own _ _ memoryId Hk), filter_selected.
  cbn [own empty_object]. rewrite decide_True by (by left).
  rewrite HD1. unfold select_email in *.
  rewrite filter_targets_selected.
  destruct (filter _ (emails (DB w))) as [|a [|b l]]; [done|done|].
  cbn in Hlen. lia.
Qed.

(** ** From create to search *)

Lemma searchEmailMemories_ok (query userId : string) (company : option string)
    (w : Env) :
  healthy w 3 →
  (∀ vm, vm ∈ nearest w query userId (VECTORIZE w) → plain (vm_id vm)) →
  ∃ w',
    searchEmailMemories query userId company w
    = (Return (omap (expected_hit (emails (DB w)) userId company)
                 (nearest w query userId (VECTORIZE w))), w').
Proof.
  intros Hh Hplain. rewrite searchEmailMemories_eq.
  rewrite (searchMemories_ok _ _ _ (healthy_weaken 2 3 w Hh ltac:(lia))).
  remember (nearest w query userId (VECTORIZE w)) as vr eqn:Hvr. clear Hvr.
  destruct (vm_id <$> vr) as [|i ids] eqn:Hids.
  { apply fmap_nil_inv in Hids as ->. cbn. by eexists. }
  rewrite <- Hids. assert (vm_id <$> vr ≠ []) as Hne by congruence.
  clear Hids. unfold getEmailsMetadata.
  destruct (vm_id <$> vr) as [|j js] eqn:Hids; [done|].
  rewrite <- Hids. unfold_step.
  match goal with
  | |- context [DB_run ?stmt ?w2] =>
      rewrite (DB_run_ok stmt w2 _ _
                 ltac:(observe; pose proof (Hh 2 ltac:(lia)) as H2;
                       by replace (calls w + 2) with (S (S (calls w))) in H2
                         by lia)
                 eq_refl)
  end.
  cbv beta iota. observe. cbn [results]. unfold ret. cbv beta iota.
  match goal with
  | |- context [omap (merge_hit ?m company) vr] =>
      rewrite (omap_ext_in (merge_hit m company)
                 (expected_hit (emails (DB w)) userId company) vr)
  end.
  - by eexists.
  - intros x Hx. apply merge_hit_selected.
    + intros k (vm0 & -> & Hvm0)%list_elem_of_fmap. by apply Hplain.
    + apply list_elem_of_fmap. by exists x.
Qed.

(** X26. What was created is found. After a successful create, a search of
    the same owner - without company filter, or filtered by the company
    stored with the e-mail - over an index that answers with plain ids
    returns, for every vector hit the index gives for the new id, a hit
    with the row written to [emails] and the score of that vector hit. *)
Theorem created_email_is_found (userId uuidv4 query : string)
    (filter_by : option string) (json : EmailJson) (w : Env) :
  let email := as_EmailData json in
  let index := upsert (vector_entry email userId uuidv4) (VECTORIZE w) in
  complete json →
  healthy w 7 →
  uuidv4 ∉ m_id <$> memories (DB w) →
  uuidv4 ∉ r_id <$> emails (DB w) →
  (∀ vm, vm ∈ nearest w query userId index → plain (vm_id vm)) →
  Js.truthy filter_by = false ∨ filter_by = Some (stored_company email) →
  ∃ w1 hits w2,
    POST_emails userId (JsonObject json) uuidv4 w
    = (Return {| status := 200; json := SuccessId uuidv4 |}, w1)
    ∧ searchEmailMemories query userId filter_by w1 = (Return hits, w2)
    ∧ ∀ vm, vm ∈ nearest w query userId index → vm_id vm = uuidv4 →
        {| hit_meta := VRow (stored_row email userId uuidv4 (now w));
           hit_score := vm_score vm |} ∈ hits.
Proof.
  intros email index Hc Hh Hm He Hplain Hfilter.
  destruct (POST_emails_ok userId uuidv4 json w Hc
              (healthy_weaken 4 7 w Hh ltac:(lia)) Hm He)
    as (w1 & E1 & HM & HE & HV & HL).
  pose proof (healthy_later 4 3 w w1 Hh HL) as Hh1.
  assert (nearest w1 = nearest w) as Hn by (by destruct HL as (_ & _ & ? & _)).
  destruct (searchEmailMemories_ok query userId filter_by w1 Hh1) as (w2 & E2).
  { rewrite Hn, HV. exact Hplain. }
  eexists w1, _, w2. split; [exact E1|]. split; [exact E2|].
  intros vm Hvm Hid. apply list_elem_of_omap. exists vm.
  rewrite Hn, HV. split; [exact Hvm|].
  unfold expected_hit. rewrite HE, Hid.
  rewrite lookup_email_snoc by done.
  destruct Hfilter as [-> | ->]; [done|].
  cbn [r_company stored_row]. fold email.
  by rewrite bool_decide_eq_true_2, andb_false_r.
Qed.

(** ** The further properties at work *)

Ltac spell_free := repeat (apply free_cons; split; [discriminate|]); apply free_nil.

Lemma all_of {A} (P : A → Prop) (l : list A) : Forall P l → ∀ x, x ∈ l → P x.
Proof. intros H x Hx. by apply (proj1 (Forall_forall _ _) H). Qed.

Lemma healthy_failing (n m : nat) db ix rank :
  (m ≤ n)%nat → healthy (failing_at n (quiet db ix rank)) m.
Proof.
  intros Hle k Hk. cbn. unfold outage_at.
  destruct (Nat.eqb_spec k n) as [E|E]; [lia | done].
Qed.

(** X1 at work: a complete e-mail stored under the fresh id m-7. *)
Lemma POST_emails_writes_one_id_everywhere_witness :
  (complete sample_json ∧ healthy sample_env 4
   ∧ ("m-7" ∉ m_id <$> memories (DB sample_env))
   ∧ ("m-7" ∉ r_id <$> emails (DB sample_env)))
  ∧ ∃ w',
      POST_emails "u" (JsonObject sample_json) "m-7" sample_env
      = (Return {| status := 200; json := SuccessId "m-7" |}, w')
      ∧ memories (DB w')
        = memories (DB sample_env)
          ++ [content_row (as_EmailData sample_json) "u" "m-7" (now sample_env)]
      ∧ emails (DB w')
        = emails (DB sample_env)
          ++ [stored_row (as_EmailData sample_json) "u" "m-7" (now sample_env)]
      ∧ VECTORIZE w'
        = upsert (vector_entry (as_EmailData sample_json) "u" "m-7")
            (VECTORIZE sample_env)
      ∧ lookup_email (emails (DB w')) "u" "m-7"
        = Some (stored_row (as_EmailData sample_json) "u" "m-7" (now sample_env))
      ∧ (∀ x, x ∈ VECTORIZE sample_env → same_entry "m-7" "u" x = false →
              x ∈ VECTORIZE w').
Proof.
  assert (complete sample_json) as Hc by done.
  assert ("m-7" ∉ m_id <$> memories (DB sample_env)) as Hm by compute_done.
  assert ("m-7" ∉ r_id <$> emails (DB sample_env)) as He by compute_done.
  pose proof (healthy_quiet sample_db sample_index sample_rank 4) as Hh.
  split; [done|].
  exact (POST_emails_writes_one_id_everywhere "u" "m-7" sample_json sample_env
           Hc Hh Hm He).
Defined.

(** X2 at work: the fourth round trip, the [INSERT] into [emails], fails. *)
Lemma POST_emails_keeps_memory_without_record_witness :
  (complete sample_json ∧ healthy (failing_at 3 sample_env) 3
   ∧ ("m-7" ∉ m_id <$> memories (DB (failing_at 3 sample_env)))
   ∧ (is_Some (outage (failing_at 3 sample_env)
                 (3 + calls (failing_at 3 sample_env)))
      ∨ "m-7" ∈ r_id <$> emails (DB (failing_at 3 sample_env))))
  ∧ ∃ w',
      POST_emails "u" (JsonObject sample_json) "m-7" (failing_at 3 sample_env)
      = (Return {| status := 500; json := Failure "Failed to store email" |}, w')
      ∧ memories (DB w')
        = memories sample_db
          ++ [content_row (as_EmailData sample_json) "u" "m-7"
                (now sample_env)]
      ∧ emails (DB w') = emails sample_db
      ∧ VECTORIZE w'
        = upsert (vector_entry (as_EmailData sample_json) "u" "m-7")
            sample_index.
Proof.
  assert (complete sample_json) as Hc by done.
  assert ("m-7" ∉ m_id <$> memories (DB (failing_at 3 sample_env))) as Hm
    by compute_done.
  pose proof (healthy_failing 3 3 sample_db sample_index sample_rank
                ltac:(lia)) as Hh.
  assert (is_Some (outage (failing_at 3 sample_env)
                     (3 + calls (failing_at 3 sample_env)))
          ∨ "m-7" ∈ r_id <$> emails (DB (failing_at 3 sample_env))) as Hf
    by (left; by eexists).
  split; [done|].
  exact (POST_emails_keeps_memory_without_record "u" "m-7" sample_json
           (failing_at 3 sample_env) Hc Hh Hm Hf).
Defined.

(** X3 at work: the batched lookup for an id with a record and an id
    without. *)
Lemma getEmailsMetadata_files_last_row_of_owner_witness :
  outage sample_env (calls sample_env) = None
  ∧ ∃ records w',
      getEmailsMetadata ["m-1"; "m-9"] "u" sample_env = (Return records, w')
      ∧ DB w' = DB sample_env
      ∧ VECTORIZE w' = VECTORIZE sample_env
      ∧ (∀ k, k ≠ "__proto__" →
           own records !! k
           = if decide (k ∈ ["m-1"; "m-9"])
             then lookup_email (emails (DB sample_env)) "u" k else None)
      ∧ proto records
        = if decide ("__proto__" ∈ ["m-1"; "m-9"])
          then lookup_email (emails (DB sample_env)) "u" "__proto__" else None.
Proof.
  split; [reflexivity|].
  exact (getEmailsMetadata_files_last_row_of_owner ["m-1"; "m-9"] "u"
           sample_env eq_refl).
Defined.

Lemma sample_rank_plain query userId ix :
  ∀ vm, vm ∈ sample_rank query userId ix → plain (vm_id vm).
Proof. apply all_of. compute_done. Qed.

(** X4 at work: the sample index ranks m-2, m-3, m-1; m-3 has no record. *)
Lemma search_reads_hits_off_the_table_witness :
  (healthy sample_env 3
   ∧ ∀ vm, vm ∈ nearest sample_env "query" "u" (VECTORIZE sample_env) →
           plain (vm_id vm))
  ∧ ∃ w',
      searchEmailMemories "query" "u" (Some "acme") sample_env
      = (Return (omap (expected_hit (emails (DB sample_env)) "u" (Some "acme"))
                   (nearest sample_env "query" "u" (VECTORIZE sample_env))), w')
      ∧ DB w' = DB sample_env
      ∧ VECTORIZE w' = VECTORIZE sample_env.
Proof.
  pose proof (healthy_quiet sample_db sample_index sample_rank 3) as Hh.
  pose proof (sample_rank_plain "query" "u" sample_index) as Hp.
  split; [done|].
  exact (search_reads_hits_off_the_table "query" "u" (Some "acme") sample_env
           Hh Hp).
Defined.

(** X5 at work: an empty index. *)
Lemma search_without_hits_skips_the_database_witness :
  (healthy empty_env 2
   ∧ nearest empty_env "query" "u" (VECTORIZE empty_env) = [])
  ∧ ∃ w',
      searchEmailMemories "query" "u" None empty_env = (Return [], w')
      ∧ since empty_env w' [Call (AI_embed "query"); Call (VEC_query "query" "u")]
      ∧ DB w' = DB empty_env
      ∧ VECTORIZE w' = VECTORIZE empty_env.
Proof.
  pose proof (healthy_quiet empty_db [] flat_rank 2) as Hh.
  split; [done|].
  exact (search_without_hits_skips_the_database "query" "u" None empty_env
           Hh eq_refl).
Defined.

(** X7 at work: the first, the second and the third round trip of a
    search fail. *)
Lemma search_fails_as_a_whole_witness :
  (outage (failing_at 0 sample_env) (calls (failing_at 0 sample_env))
   = Some "service unavailable"
   ∧ (searchEmailMemories "query" "u" None (failing_at 0 sample_env)).1
     = Throw (AIError "service unavailable"))
  ∧ ((outage (failing_at 1 sample_env) (calls (failing_at 1 sample_env)) = None
      ∧ outage (failing_at 1 sample_env) (S (calls (failing_at 1 sample_env)))
        = Some "service unavailable")
     ∧ (searchEmailMemories "query" "u" None (failing_at 1 sample_env)).1
       = Throw (VectorizeError "service unavailable"))
  ∧ ((healthy (failing_at 2 sample_env) 2
      ∧ outage (failing_at 2 sample_env) (2 + calls (failing_at 2 sample_env))
        = Some "service unavailable"
      ∧ nearest (failing_at 2 sample_env) "query" "u"
          (VECTORIZE (failing_at 2 sample_env)) ≠ [])
     ∧ (searchEmailMemories "query" "u" None (failing_at 2 sample_env)).1
       = Throw (D1Error "service unavailable")).
Proof.
  pose proof (healthy_failing 2 2 sample_db sample_index sample_rank
                ltac:(lia)) as Hh.
  assert (nearest (failing_at 2 sample_env) "query" "u"
            (VECTORIZE (failing_at 2 sample_env)) ≠ []) as Hn by discriminate.
  split; [|split].
  - split; [reflexivity|].
    exact (proj1 (search_fails_as_a_whole "query" "u" None
                    (failing_at 0 sample_env))
             "service unavailable" eq_refl).
  - split; [by split|].
    exact (proj1 (proj2 (search_fails_as_a_whole "query" "u" None
                           (failing_at 1 sample_env)))
             "service unavailable" eq_refl eq_refl).
  - split; [done|].
    exact (proj2 (proj2 (search_fails_as_a_whole "query" "u" None
                           (failing_at 2 sample_env)))
             "service unavailable" Hh eq_refl Hn).
Defined.

(** X8 at work: the search request of user alice. *)
Lemma search_route_is_shadowed_witness :
  (match_route "/:userId/emails/search" "/alice/emails/search"
   = Some [("userId", "alice")]
   ∧ ∃ userId,
       dispatch GET_routes "/alice/emails/search"
       = Some (SingleEmail, [("userId", userId); ("memoryId", "search")]))
  ∧ (("alice" ≠ "" ∧ free "/" "alice")
     ∧ dispatch GET_routes ("/" +:+ "alice" +:+ "/emails/search")
       = Some (SingleEmail, [("userId", "alice"); ("memoryId", "search")])).
Proof.
  assert ("alice" ≠ "") as H1 by discriminate.
  assert (free "/" "alice") as H2 by spell_free.
  split.
  - split; [reflexivity|].
    exact (proj1 (proj2 search_route_is_shadowed) "/alice/emails/search"
             [("userId", "alice")] eq_refl).
  - split; [done|].
    exact (proj2 (proj2 search_route_is_shadowed) "alice" H1 H2).
Defined.

(** X9 at work: memory m-1 of owner u is deleted. *)
Lemma DELETE_memory_removes_only_the_target_witness :
  healthy sample_env 2
  ∧ ∃ w',
      DELETE_memory "u" "m-1" sample_env
      = (Return {| status := 200; json := Success |}, w')
      ∧ absent w' "m-1" "u"
      ∧ (∀ row, row ∈ memories (DB w') ↔
                row ∈ memories (DB sample_env) ∧ targets "m-1" "u" row = false)
      ∧ memories (DB w') `sublist_of` memories (DB sample_env)
      ∧ emails (DB w') = emails (DB sample_env)
      ∧ (∀ x, x ∈ VECTORIZE w' ↔
              x ∈ VECTORIZE sample_env ∧ same_entry "m-1" "u" x = false)
      ∧ VECTORIZE w' `sublist_of` VECTORIZE sample_env.
Proof.
  pose proof (healthy_quiet sample_db sample_index sample_rank 2) as Hh.
  split; [done|].
  exact (DELETE_memory_removes_only_the_target "u" "m-1" sample_env Hh).
Defined.

(** X10 at work: the database is down for the [DELETE]. *)
Lemma DELETE_memory_store_failure_is_500_witness :
  outage (failing_at 0 sample_env) (calls (failing_at 0 sample_env))
  = Some "service unavailable"
  ∧ ∃ w' evs,
      DELETE_memory "u" "m-1" (failing_at 0 sample_env)
      = (Return {| status := 500; json := Failure "Failed to delete memory" |},
         w')
      ∧ DB w' = DB (failing_at 0 sample_env)
      ∧ VECTORIZE w' = VECTORIZE (failing_at 0 sample_env)
      ∧ since (failing_at 0 sample_env) w' evs
      ∧ round_trips evs = [D1 (DeleteMemory "m-1" "u")].
Proof.
  split; [reflexivity|].
  exact (DELETE_memory_store_failure_is_500 "u" "m-1" "service unavailable"
           (failing_at 0 sample_env) eq_refl).
Defined.

(** X11 at work: memory m-1 of owner u gets a new text. *)
Lemma PUT_memory_rewrites_only_the_target_witness :
  (Js.trim " remember this " ≠ "" ∧ healthy sample_env 3
   ∧ memory_row "m-1" ∈ memories (DB sample_env)
   ∧ targets "m-1" "u" (memory_row "m-1") = true)
  ∧ ∃ w',
      PUT_memory "u" "m-1" (JsonObject {| content := Some " remember this " |})
        sample_env
      = (Return {| status := 200; json := Success |}, w')
      ∧ (∀ row', row' ∈ memories (DB w') →
           if targets "m-1" "u" row'
           then m_content row' = Js.trim " remember this "
           else row' ∈ memories (DB sample_env))
      ∧ m_id <$> memories (DB w') = m_id <$> memories (DB sample_env)
      ∧ m_userId <$> memories (DB w') = m_userId <$> memories (DB sample_env)
      ∧ m_created_at <$> memories (DB w')
        = m_created_at <$> memories (DB sample_env)
      ∧ emails (DB w') = emails (DB sample_env)
      ∧ {| v_id := "m-1"; v_namespace := "u";
           v_text := Js.trim " remember this "; v_metadata := [] |}
        ∈ VECTORIZE w'.
Proof.
  assert (Js.trim " remember this " ≠ "") as Ht by discriminate.
  pose proof (healthy_quiet sample_db sample_index sample_rank 3) as Hh.
  assert (memory_row "m-1" ∈ memories (DB sample_env)) as Hin by (by left).
  split; [done|].
  exact (PUT_memory_rewrites_only_the_target "u" "m-1" " remember this "
           sample_env (memory_row "m-1") Ht Hh Hin eq_refl).
Defined.

(** X12 at work: the database is down for the [UPDATE]; its message does
    not say [not found]. *)
Lemma PUT_memory_store_failure_by_message_witness :
  (Js.trim "new text" ≠ ""
   ∧ outage (failing_at 0 sample_env) (calls (failing_at 0 sample_env))
     = Some "service unavailable")
  ∧ ∃ w' evs,
      PUT_memory "u" "m-1" (JsonObject {| content := Some "new text" |})
        (failing_at 0 sample_env)
      = (Return
           (if Js.includes "not found" "service unavailable"
            then {| status := 404; json := Failure "service unavailable" |}
            else {| status := 500;
                    json := Failure (if bool_decide ("service unavailable" = "")
                                     then "Failed to update memory"
                                     else "service unavailable") |}),
         w')
      ∧ DB w' = DB (failing_at 0 sample_env)
      ∧ VECTORIZE w' = VECTORIZE (failing_at 0 sample_env)
      ∧ since (failing_at 0 sample_env) w' evs
      ∧ round_trips evs = [D1 (UpdateMemory (Js.trim "new text") "m-1" "u")].
Proof.
  assert (Js.trim "new text" ≠ "") as Ht by discriminate.
  split; [done|].
  exact (PUT_memory_store_failure_by_message "u" "m-1" "new text"
           "service unavailable" (failing_at 0 sample_env) Ht eq_refl).
Defined.

(** X13 at work: the same update of m-1, twice. *)
Lemma PUT_memory_twice_witness :
  (Js.trim "new text" ≠ "" ∧ healthy sample_env 6
   ∧ memory_row "m-1" ∈ memories (DB sample_env)
   ∧ targets "m-1" "u" (memory_row "m-1") = true)
  ∧ ∃ w1 w2,
      PUT_memory "u" "m-1" (JsonObject {| content := Some "new text" |})
        sample_env
      = (Return {| status := 200; json := Success |}, w1)
      ∧ PUT_memory "u" "m-1" (JsonObject {| content := Some "new text" |}) w1
        = (Return {| status := 200; json := Success |}, w2)
      ∧ DB w2 = DB w1
      ∧ VECTORIZE w2 = VECTORIZE w1.
Proof.
  assert (Js.trim "new text" ≠ "") as Ht by discriminate.
  pose proof (healthy_quiet sample_db sample_index sample_rank 6) as Hh.
  assert (memory_row "m-1" ∈ memories (DB sample_env)) as Hin by (by left).
  split; [done|].
  exact (PUT_memory_twice "u" "m-1" "new text" sample_env (memory_row "m-1")
           Ht Hh Hin eq_refl).
Defined.

(** X14 at work: m-1 is deleted, then updated. *)
Lemma PUT_memory_after_DELETE_memory_is_404_witness :
  (Js.trim "new text" ≠ "" ∧ healthy sample_env 3)
  ∧ ∃ w1 w2,
      DELETE_memory "u" "m-1" sample_env
      = (Return {| status := 200; json := Success |}, w1)
      ∧ PUT_memory "u" "m-1" (JsonObject {| content := Some "new text" |}) w1
        = (Return {| status := 404;
                     json := Failure (not_found_message "m-1" "u") |}, w2)
      ∧ DB w2 = DB w1
      ∧ VECTORIZE w2 = VECTORIZE w1.
Proof.
  assert (Js.trim "new text" ≠ "") as Ht by discriminate.
  pose proof (healthy_quiet sample_db sample_index sample_rank 3) as Hh.
  split; [done|].
  exact (PUT_memory_after_DELETE_memory_is_404 "u" "m-1" "new text" sample_env
           Ht Hh).
Defined.

(** X15 at work: the record m-1 of owner u is deleted. *)
Lemma DELETE_email_removes_all_three_witness :
  healthy sample_env 3
  ∧ ∃ w',
      DELETE_email "u" "m-1" sample_env
      = (Return {| status := 200; json := Success |}, w')
      ∧ emails (DB w')
        = filter (λ row, email_targets "m-1" "u" row = false)
                 (emails (DB sample_env))
      ∧ memories (DB w')
        = filter (λ row, targets "m-1" "u" row = false)
                 (memories (DB sample_env))
      ∧ VECTORIZE w'
        = filter (λ x, same_entry "m-1" "u" x = false) (VECTORIZE sample_env)
      ∧ lookup_email (emails (DB w')) "u" "m-1" = None
      ∧ absent w' "m-1" "u"
      ∧ (∀ x, x ∈ VECTORIZE w' → same_entry "m-1" "u" x = false).
Proof.
  pose proof (healthy_quiet sample_db sample_index sample_rank 3) as Hh.
  split; [done|].
  exact (DELETE_email_removes_all_three "u" "m-1" sample_env Hh).
Defined.

(** X16 at work: the first, the second and the third round trip of the
    delete of record m-1 fail. *)
Lemma DELETE_email_fails_without_rollback_witness :
  let failed := {| status := 500; json := Failure "Failed to delete email" |} in
  (outage (failing_at 0 sample_env) (calls (failing_at 0 sample_env))
   = Some "service unavailable"
   ∧ ∃ w', DELETE_email "u" "m-1" (failing_at 0 sample_env) = (Return failed, w')
           ∧ DB w' = DB (failing_at 0 sample_env)
           ∧ VECTORIZE w' = VECTORIZE (failing_at 0 sample_env))
  ∧ ((healthy (failing_at 1 sample_env) 1
      ∧ outage (failing_at 1 sample_env) (1 + calls (failing_at 1 sample_env))
        = Some "service unavailable")
     ∧ ∃ w', DELETE_email "u" "m-1" (failing_at 1 sample_env)
             = (Return failed, w')
             ∧ emails (DB w')
               = filter (λ row, email_targets "m-1" "u" row = false)
                        (emails (DB (failing_at 1 sample_env)))
             ∧ memories (DB w') = memories (DB (failing_at 1 sample_env))
             ∧ VECTORIZE w' = VECTORIZE (failing_at 1 sample_env))
  ∧ ((healthy (failing_at 2 sample_env) 2
      ∧ outage (failing_at 2 sample_env) (2 + calls (failing_at 2 sample_env))
        = Some "service unavailable")
     ∧ ∃ w', DELETE_email "u" "m-1" (failing_at 2 sample_env)
             = (Return failed, w')
             ∧ emails (DB w')
               = filter (λ row, email_targets "m-1" "u" row = false)
                        (emails (DB (failing_at 2 sample_env)))
             ∧ memories (DB w')
               = filter (λ row, targets "m-1" "u" row = false)
                        (memories (DB (failing_at 2 sample_env)))
             ∧ VECTORIZE w' = VECTORIZE (failing_at 2 sample_env)).
Proof.
  pose proof (healthy_failing 1 1 sample_db sample_index sample_rank
                ltac:(lia)) as Hh1.
  pose proof (healthy_failing 2 2 sample_db sample_index sample_rank
                ltac:(lia)) as Hh2.
  split; [|split].
  - split; [reflexivity|].
    exact (proj1 (DELETE_email_fails_without_rollback "u" "m-1"
                    "service unavailable" (failing_at 0 sample_env)) eq_refl).
  - split; [by split|].
    exact (proj1 (proj2 (DELETE_email_fails_without_rollback "u" "m-1"
                           "service unavailable" (failing_at 1 sample_env)))
             Hh1 eq_refl).
  - split; [by split|].
    exact (proj2 (proj2 (DELETE_email_fails_without_rollback "u" "m-1"
                           "service unavailable" (failing_at 2 sample_env)))
             Hh2 eq_refl).
Defined.

(** X17 at work: a sender with display name, mixed case and a four-label
    domain. *)
Lemma extractCompanyFromEmail_is_a_lowercase_label_witness :
  extractCompanyFromEmail "Bob <bob@Mail.ACME.co.uk>" = Some "acme"
  ∧ Js.toLowerCase "acme" = "acme" ∧ free "." "acme" ∧ free ">" "acme".
Proof.
  split; [reflexivity|].
  exact (extractCompanyFromEmail_is_a_lowercase_label
           "Bob <bob@Mail.ACME.co.uk>" "acme" eq_refl).
Defined.

(** X18 at work: the same address with and without display name. *)
Lemma extractCompanyFromEmail_ignores_display_name_witness :
  (free "@" "Bob" ∧ free "@" "bob" ∧ "mail.acme.co.uk" ≠ ""
   ∧ free ">" "mail.acme.co.uk")
  ∧ extractCompanyFromEmail
      ("Bob" +:+ " <" +:+ "bob" +:+ String "@" ("mail.acme.co.uk" +:+ ">"))
    = extractCompanyFromEmail ("bob" +:+ String "@" "mail.acme.co.uk").
Proof.
  assert (free "@" "Bob") as H1 by spell_free.
  assert (free "@" "bob") as H2 by spell_free.
  assert ("mail.acme.co.uk" ≠ "") as H3 by discriminate.
  assert (free ">" "mail.acme.co.uk") as H4 by spell_free.
  split; [done|].
  exact (extractCompanyFromEmail_ignores_display_name "Bob" "bob"
           "mail.acme.co.uk" H1 H2 H3 H4).
Defined.

(** X19 at work: the path of the event stream of user alice. *)
Lemma mount_takes_first_segment_witness :
  (free "/" "alice" ∧ ("/sse" = "" ∨ ∃ r, "/sse" = String "/" r))
  ∧ mount (String "/" ("alice" +:+ "/sse"))
    = if bool_decide ("alice" = "") then BadRequest
      else Routed "alice" ("/" +:+ "alice" +:+ "/sse").
Proof.
  assert (free "/" "alice") as H1 by spell_free.
  assert ("/sse" = "" ∨ ∃ r, "/sse" = String "/" r) as H2
    by (right; by exists "sse").
  split; [done|].
  exact (mount_takes_first_segment "alice" "/sse" H1 H2).
Defined.

(** X20 at work: owner u has no record m-9. *)
Lemma GET_email_of_missing_is_404_witness :
  (outage sample_env (calls sample_env) = None
   ∧ ((∀ row, row ∈ emails (DB sample_env) →
              email_targets "m-9" "u" row = false)
      ∨ (∀ m, m ∈ memories (DB sample_env) → m_id m ≠ "m-9")))
  ∧ ∃ w',
      GET_email "u" "m-9" sample_env
      = (Return {| e_status := 404; e_json := EmailFailure "Not Found" |}, w')
      ∧ DB w' = DB sample_env ∧ VECTORIZE w' = VECTORIZE sample_env.
Proof.
  assert ((∀ row, row ∈ emails (DB sample_env) →
                  email_targets "m-9" "u" row = false)
          ∨ (∀ m, m ∈ memories (DB sample_env) → m_id m ≠ "m-9")) as H
    by (left; apply all_of; by repeat constructor).
  split; [done|].
  exact (GET_email_of_missing_is_404 "u" "m-9" sample_env eq_refl H).
Defined.

(** X21 at work: the e-mail stored under m-7 is read back. *)
Lemma created_email_reads_back_witness :
  (complete sample_json ∧ healthy sample_env 5
   ∧ ("m-7" ∉ m_id <$> memories (DB sample_env))
   ∧ ("m-7" ∉ r_id <$> emails (DB sample_env))
   ∧ (∀ r, r ∈ emails (DB sample_env) → email_targets "m-7" "u" r = false))
  ∧ ∃ w1 w2,
      POST_emails "u" (JsonObject sample_json) "m-7" sample_env
      = (Return {| status := 200; json := SuccessId "m-7" |}, w1)
      ∧ GET_email "u" "m-7" w1
        = (Return
             {| e_status := 200;
                e_json :=
                  EmailFound
                    {| ec_email :=
                         stored_row (as_EmailData sample_json) "u" "m-7"
                           (now sample_env);
                       ec_content := projection (as_EmailData sample_json) |} |},
           w2)
      ∧ DB w2 = DB w1 ∧ VECTORIZE w2 = VECTORIZE w1.
Proof.
  assert (complete sample_json) as Hc by done.
  assert ("m-7" ∉ m_id <$> memories (DB sample_env)) as Hm by compute_done.
  assert ("m-7" ∉ r_id <$> emails (DB sample_env)) as He by compute_done.
  pose proof (healthy_quiet sample_db sample_index sample_rank 5) as Hh.
  assert (∀ r, r ∈ emails (DB sample_env) → email_targets "m-7" "u" r = false)
    as Hold by (apply all_of; by repeat constructor).
  split; [done|].
  exact (created_email_reads_back "u" "m-7" sample_json sample_env
           Hc Hh Hm He Hold).
Defined.

(** X22 at work: the e-mail stored under m-7 is deleted again. *)
Lemma create_then_delete_restores_witness :
  (complete sample_json ∧ healthy sample_env 8
   ∧ ("m-7" ∉ m_id <$> memories (DB sample_env))
   ∧ ("m-7" ∉ r_id <$> emails (DB sample_env))
   ∧ (∀ r, r ∈ emails (DB sample_env) → email_targets "m-7" "u" r = false)
   ∧ (∀ x, x ∈ VECTORIZE sample_env → same_entry "m-7" "u" x = false))
  ∧ ∃ w1 w2 w3,
      POST_emails "u" (JsonObject sample_json) "m-7" sample_env
      = (Return {| status := 200; json := SuccessId "m-7" |}, w1)
      ∧ DELETE_email "u" "m-7" w1
        = (Return {| status := 200; json := Success |}, w2)
      ∧ DB w2 = DB sample_env
      ∧ VECTORIZE w2 = VECTORIZE sample_env
      ∧ GET_email "u" "m-7" w2
        = (Return {| e_status := 404; e_json := EmailFailure "Not Found" |}, w3).
Proof.
  assert (complete sample_json) as Hc by done.
  assert ("m-7" ∉ m_id <$> memories (DB sample_env)) as Hm by compute_done.
  assert ("m-7" ∉ r_id <$> emails (DB sample_env)) as He by compute_done.
  pose proof (healthy_quiet sample_db sample_index sample_rank 8) as Hh.
  assert (∀ r, r ∈ emails (DB sample_env) → email_targets "m-7" "u" r = false)
    as Hold by (apply all_of; by repeat constructor).
  assert (∀ x, x ∈ VECTORIZE sample_env → same_entry "m-7" "u" x = false)
    as Hix by (apply all_of; by repeat constructor).
  split; [done|].
  exact (create_then_delete_restores "u" "m-7" sample_json sample_env
           Hc Hh Hm He Hold Hix).
Defined.

(** X23 at work: the memory behind record m-1 gets a new text. *)
Lemma PUT_memory_shows_in_GET_email_witness :
  (Js.trim " remember this " ≠ "" ∧ healthy sample_env 4
   ∧ NoDup (m_id <$> memories (DB sample_env))
   ∧ memory_row "m-1" ∈ memories (DB sample_env)
   ∧ targets "m-1" "u" (memory_row "m-1") = true
   ∧ head (select_email "m-1" "u" (DB sample_env))
     = Some (email_row "m-1" "acme"))
  ∧ ∃ w1 w2,
      PUT_memory "u" "m-1" (JsonObject {| content := Some " remember this " |})
        sample_env
      = (Return {| status := 200; json := Success |}, w1)
      ∧ GET_email "u" "m-1" w1
        = (Return {| e_status := 200;
                     e_json :=
                       EmailFound {| ec_email := email_row "m-1" "acme";
                                     ec_content := Js.trim " remember this " |} |},
           w2).
Proof.
  assert (Js.trim " remember this " ≠ "") as Ht by discriminate.
  pose proof (healthy_quiet sample_db sample_index sample_rank 4) as Hh.
  assert (NoDup (m_id <$> memories (DB sample_env))) as Hnd by compute_done.
  assert (memory_row "m-1" ∈ memories (DB sample_env)) as Hin by (by left).
  split; [done|].
  exact (PUT_memory_shows_in_GET_email "u" "m-1" " remember this " sample_env
           (memory_row "m-1") (email_row "m-1" "acme") Ht Hh Hnd Hin
           eq_refl eq_refl).
Defined.

(** X24 at work: the memory behind record m-1 is deleted through the
    generic route. *)
Lemma DELETE_memory_orphans_the_record_witness :
  (healthy sample_env 3
   ∧ ∀ m, m ∈ memories (DB sample_env) → m_id m = "m-1" → m_userId m = "u")
  ∧ ∃ w1 w2,
      DELETE_memory "u" "m-1" sample_env
      = (Return {| status := 200; json := Success |}, w1)
      ∧ emails (DB w1) = emails (DB sample_env)
      ∧ GET_email "u" "m-1" w1
        = (Return {| e_status := 404; e_json := EmailFailure "Not Found" |}, w2)
      ∧ emails (DB w2) = emails (DB sample_env).
Proof.
  pose proof (healthy_quiet sample_db sample_index sample_rank 3) as Hh.
  assert (∀ m, m ∈ memories (DB sample_env) → m_id m = "m-1" → m_userId m = "u")
    as Hown
    by (apply (all_of (λ m, m_id m = "m-1" → m_userId m = "u"));
        by repeat constructor).
  split; [done|].
  exact (DELETE_memory_orphans_the_record "u" "m-1" sample_env Hh Hown).
Defined.

(** X25 at work: the record m-1 of owner u, looked up both ways. *)
Lemma getEmailMetadata_agrees_with_batch_witness :
  (outage sample_env (calls sample_env) = None
   ∧ (length (select_email "m-1" "u" (DB sample_env)) ≤ 1)%nat
   ∧ "m-1" ≠ "__proto__")
  ∧ ∃ found records w1 w2,
      getEmailMetadata "m-1" "u" sample_env = (Return found, w1)
      ∧ getEmailsMetadata ["m-1"] "u" sample_env = (Return records, w2)
      ∧ own records !! "m-1" = found
      ∧ DB w1 = DB sample_env ∧ DB w2 = DB sample_env.
Proof.
  assert ((length (select_email "m-1" "u" (DB sample_env)) ≤ 1)%nat) as Hlen
    by (vm_compute; lia).
  assert ("m-1" ≠ "__proto__") as Hk by discriminate.
  split; [done|].
  exact (getEmailMetadata_agrees_with_batch "m-1" "u" sample_env
           eq_refl Hlen Hk).
Defined.

Lemma flat_rank_sample_plain :
  ∀ vm, vm ∈ flat_rank "query" "u"
               (upsert (vector_entry (as_EmailData sample_json) "u" "m-7")
                  sample_index) →
        plain (vm_id vm).
Proof. apply all_of. compute_done. Qed.

(** X26 at work: over an index that returns every entry of the owner, the
    e-mail stored under m-7 is among the hits. *)
Lemma created_email_is_found_witness :
  let w := quiet sample_db sample_index flat_rank in
  let email := as_EmailData sample_json in
  let index := upsert (vector_entry email "u" "m-7") (VECTORIZE w) in
  (complete sample_json ∧ healthy w 7
   ∧ ("m-7" ∉ m_id <$> memories (DB w))
   ∧ ("m-7" ∉ r_id <$> emails (DB w))
   ∧ (∀ vm, vm ∈ nearest w "query" "u" index → plain (vm_id vm))
   ∧ (Js.truthy None = false ∨ None = Some (stored_company email)))
  ∧ ∃ w1 hits w2,
      POST_emails "u" (JsonObject sample_json) "m-7" w
      = (Return {| status := 200; json := SuccessId "m-7" |}, w1)
      ∧ searchEmailMemories "query" "u" None w1 = (Return hits, w2)
      ∧ ∀ vm, vm ∈ nearest w "query" "u" index → vm_id vm = "m-7" →
          {| hit_meta := VRow (stored_row email "u" "m-7" (now w));
             hit_score := vm_score vm |} ∈ hits.
Proof.
  intros w email index.
  assert (complete sample_json) as Hc by done.
  assert ("m-7" ∉ m_id <$> memories (DB w)) as Hm by compute_done.
  assert ("m-7" ∉ r_id <$> emails (DB w)) as He by compute_done.
  pose proof (healthy_quiet sample_db sample_index flat_rank 7) as Hh.
  pose proof flat_rank_sample_plain as Hp.
  assert (Js.truthy None = false ∨ None = Some (stored_company email)) as Hf
    by (by left).
  split; [done|].
  exact (created_email_is_found "u" "m-7" "query" None sample_json w
           Hc Hh Hm He Hp Hf).
Defined.
